(** * The browser-action popup of the calendar extension

    A shallow embedding of [browser_action.js], the script of the popup, and
    proofs of what it does.

    - The popup document is a tree of elements; an element is referred to by
      its path from the root.  jQuery calls are functions on that tree: a
      class or attribute selector reaches every match, an id selector the
      first match in document order.
    - [hide()] and [show()] set an element's own display; whether an element
      is visible on screen also depends on its ancestors and is not modelled.
    - A click runs the handlers bound to the target and then those bound to
      each of its ancestors, as jQuery's dispatch does.
    - The calls into the [chrome.*] API are recorded as effects.  A call that
      takes a callback stays pending until the browser answers it; the
      answer runs the callback.
    - A function either returns or throws ([TypeError] on a member access
      on [null] or [undefined]); what it did before throwing stays done.
    - The page itself, the message catalogue, the markup parser and the date
      library are not part of the script: the page is an argument, the rest
      is the interface [Platform]. *)

From Stdlib Require Import String Ascii List ZArith Bool Arith Lia DecimalString.
Import ListNotations.
Open Scope string_scope.
Open Scope list_scope.
Set Warnings "-register-all".

(** ** The document *)

(** The anonymous click handlers the file binds, named after the element
    they are bound to. *)
Inductive handler : Type :=
| AddEventsClick      (* $('#add-events').click(function() {...}) *)
| ViewAgendaClick     (* $('#view_agenda').click(function() {...}) *)
| SyncNowClick        (* $('#sync_now').on('click', ...) *)
| EventDivClick.      (* eventDiv.on('click', ...) *)

(** What the popup script sees of one element: its tag, attributes, class
    list, inline style, whether its own display is other than [none], and
    the click handlers bound to it. *)
Record elem : Type := mkElem {
  tagName : string;
  attrs : list (string * string);
  classes : list string;
  style : list (string * string);
  displayed : bool;
  clickHandlers : list handler
}.

Inductive node : Type :=
| Text (s : string)
| Elem (e : elem) (kids : list node).

(** A node is referred to by the child indices that lead to it from the
    document root. *)
Definition path : Type := list nat.

Definition handler_eqb (a b : handler) : bool :=
  match a, b with
  | AddEventsClick, AddEventsClick => true
  | ViewAgendaClick, ViewAgendaClick => true
  | SyncNowClick, SyncNowClick => true
  | EventDivClick, EventDivClick => true
  | _, _ => false
  end.

(** *** Association lists for attributes and styles *)

Fixpoint assoc (k : string) (l : list (string * string)) : option string :=
  match l with
  | [] => None
  | (k', v) :: l' => if k' =? k then Some v else assoc k l'
  end.

Fixpoint assoc_set (k v : string) (l : list (string * string))
  : list (string * string) :=
  match l with
  | [] => [(k, v)]
  | (k', v') :: l' =>
      if k' =? k then (k, v) :: l' else (k', v') :: assoc_set k v l'
  end.

(** *** jQuery's element-level operations *)

(** [$('<div>')], [$('<span>')], ...: a fresh element. *)
Definition newElem (tag : string) : elem :=
  mkElem tag [] [] [] true [].

Definition attr (k : string) (e : elem) : option string := assoc k (attrs e).

Definition hasId (i : string) (e : elem) : bool :=
  match attr "id" e with
  | Some j => j =? i
  | None => false
  end.

Definition hasAttr (k v : string) (e : elem) : bool :=
  match attr k e with
  | Some w => w =? v
  | None => false
  end.

Definition hasClass (c : string) (e : elem) : bool :=
  existsb (String.eqb c) (classes e).

Definition setAttr (k v : string) (e : elem) : elem :=
  mkElem (tagName e) (assoc_set k v (attrs e)) (classes e) (style e)
         (displayed e) (clickHandlers e).

(** [.css({k: v})]: the assignment as the script makes it.  What the
    browser keeps of it, a colour in its normal form or nothing when the
    value is no colour, is not modelled: of an element's style the
    statements below say only that an operation leaves it as it is. *)
Definition setCss (k v : string) (e : elem) : elem :=
  mkElem (tagName e) (attrs e) (classes e) (assoc_set k v (style e))
         (displayed e) (clickHandlers e).

Definition addClass (c : string) (e : elem) : elem :=
  mkElem (tagName e) (attrs e)
         (if hasClass c e then classes e else classes e ++ [c])
         (style e) (displayed e) (clickHandlers e).

Definition removeClass (c : string) (e : elem) : elem :=
  mkElem (tagName e) (attrs e)
         (filter (fun c' => negb (c =? c')) (classes e))
         (style e) (displayed e) (clickHandlers e).

Definition hide (e : elem) : elem :=
  mkElem (tagName e) (attrs e) (classes e) (style e) false (clickHandlers e).

Definition show (e : elem) : elem :=
  mkElem (tagName e) (attrs e) (classes e) (style e) true (clickHandlers e).

Definition onClick (h : handler) (e : elem) : elem :=
  mkElem (tagName e) (attrs e) (classes e) (style e) (displayed e)
         (clickHandlers e ++ [h]).

(** *** Operations on the tree *)

(** Applies [f i a] to the elements of a list, [i] counting from the given
    index, and concatenates the results. *)
Definition indexed {A B : Type} (f : nat -> A -> list B)
  : nat -> list A -> list B :=
  fix go (i : nat) (l : list A) : list B :=
    match l with
    | [] => []
    | a :: l' => f i a ++ go (S i) l'
    end.

(** The elements matching a selector, as jQuery returns them: in document
    order. *)
Fixpoint select (P : elem -> bool) (n : node) : list path :=
  match n with
  | Text _ => []
  | Elem e ks =>
      (if P e then [[]] else [])
        ++ indexed (fun i k => map (cons i) (select P k)) 0 ks
  end.

Fixpoint lookup (p : path) (n : node) : option node :=
  match p with
  | [] => Some n
  | i :: p' =>
      match n with
      | Text _ => None
      | Elem _ ks =>
          match nth_error ks i with
          | Some k => lookup p' k
          | None => None
          end
      end
  end.

Definition elemAt (p : path) (n : node) : option elem :=
  match lookup p n with
  | Some (Elem e _) => Some e
  | _ => None
  end.

Definition kidsAt (p : path) (n : node) : list node :=
  match lookup p n with
  | Some (Elem _ ks) => ks
  | _ => []
  end.

Fixpoint update_nth {A : Type} (i : nat) (f : A -> A) (l : list A) : list A :=
  match l, i with
  | [], _ => []
  | a :: l', 0 => f a :: l'
  | a :: l', S i' => a :: update_nth i' f l'
  end.

(** Rewrites the subtree at a path, and nothing when the path leads
    nowhere. *)
Fixpoint update (p : path) (f : node -> node) (n : node) : node :=
  match p with
  | [] => f n
  | i :: p' =>
      match n with
      | Text s => Text s
      | Elem e ks => Elem e (update_nth i (update p' f) ks)
      end
  end.

Fixpoint mapElems (f : elem -> elem) (n : node) : node :=
  match n with
  | Text s => Text s
  | Elem e ks => Elem (f e) (map (mapElems f) ks)
  end.

(** An element-level operation lifted to a node; text nodes have no
    attributes, classes or handlers. *)
Definition onElem (f : elem -> elem) (n : node) : node :=
  match n with
  | Text s => Text s
  | Elem e ks => Elem (f e) ks
  end.

(** [.append(k)] on one element. *)
Definition appendKids (new : list node) (n : node) : node :=
  match n with
  | Text s => Text s
  | Elem e ks => Elem e (ks ++ new)
  end.

(** [.text(s)] on one element: the children are replaced by one text node. *)
Definition setText (s : string) (n : node) : node :=
  match n with
  | Text t => Text t
  | Elem e _ => Elem e [Text s]
  end.

(** [.html(markup)] on one element, given the parsed markup. *)
Definition setKids (new : list node) (n : node) : node :=
  match n with
  | Text t => Text t
  | Elem e _ => Elem e new
  end.

(** [$('#id')]: jQuery resolves an id selector with [getElementById], the
    first element in document order that carries the id. *)
Definition byId (i : string) (d : node) : option path :=
  hd_error (select (hasId i) d).

(** The elements a click on the element at [p] visits: the target first,
    then its ancestors up to the root. *)
Fixpoint bubble (p : path) : list path :=
  match p with
  | [] => [[]]
  | i :: p' => map (cons i) (bubble p') ++ [[]]
  end.

(** ** The platform the popup runs on *)

(** What the file takes from outside itself: [chrome.i18n.getMessage], the
    markup parser behind jQuery's [.html(...)], the extension's ISO-8601
    helper [utils.fromIso8601], and the date objects that helper returns
    (their accessors, setters, [diff] and [format]). *)
Class Platform : Type := {
  moment : Type;
  getMessage : string -> string;
  parseHTML : string -> list node;
  fromIso8601 : option string -> option moment;
  hours : moment -> Z;
  minutes : moment -> Z;
  setHours : Z -> moment -> moment;
  setMinutes : Z -> moment -> moment;
  setSeconds : Z -> moment -> moment;
  diff : moment -> moment -> string -> Z;
  format : moment -> string -> string
}.

(** ** Data received from the background page *)

(** The calendar an event comes from: [event.feed]. *)
Record Feed : Type := mkFeed {
  color : string;
  feedTitle : string
}.

(** An event of the calendar feed.  [start], [end] and [location] may be
    absent. *)
Record FeedEvent : Type := mkFeedEvent {
  title : string;
  start : option string;
  end_ : option string;
  url : string;
  location : option string;
  feed : Feed
}.

(** An event detected on the current page. *)
Record CalendarEvent : Type := mkCalendarEvent {
  eventTitle : string;
  gcal_url : string
}.

(** ** Effects and the popup state *)

(** The functions the file hands to the browser as callbacks. *)
Inductive callback : Type :=
| ShowEventsFromFeed        (* browseraction.showEventsFromFeed_ *)
| DetectedEventsCallback    (* function(eventsFromPage) {...} *)
| BadgeTextCallback.        (* function(text) {...} *)

(** The calls the file makes into the [chrome.*] API. *)
Inductive effect : Type :=
| SendMessage (method : string) (cb : callback)  (* chrome.extension.sendMessage *)
| GetBadgeText (cb : callback)       (* chrome.browserAction.getBadgeText *)
| TabsCreate (target : option string).           (* chrome.tabs.create *)

(** The document, every API call made so far (oldest first), and the
    requests whose callback has not run yet. *)
Record popup : Type := mkPopup {
  doc : node;
  sent : list effect;
  pending : list effect
}.

(** ** A state monad with exceptions

    A JavaScript function either returns or throws; what it did to the
    document before throwing stays done. *)
Inductive outcome (A : Type) : Type :=
| Returned (a : A)
| Threw.
Arguments Returned {A} a.
Arguments Threw {A}.

Definition M (A : Type) : Type := popup -> outcome A * popup.

Definition ret {A : Type} (a : A) : M A := fun s => (Returned a, s).

Definition bind {A B : Type} (m : M A) (k : A -> M B) : M B :=
  fun s =>
    match m s with
    | (Returned a, s') => k a s'
    | (Threw, s') => (Threw, s')
    end.

Declare Scope popup_scope.
Delimit Scope popup_scope with popup.
Notation "x <- m ;; k" := (bind m (fun x => k))
  (at level 61, m at next level, right associativity) : popup_scope.
Notation "m ;; k" := (bind m (fun _ => k))
  (at level 61, right associativity) : popup_scope.
Open Scope popup_scope.

(** Member access on a value that may be [null] or [undefined]: a
    [TypeError] when it is. *)
Definition deref {A : Type} (o : option A) : M A :=
  fun s =>
    match o with
    | Some a => (Returned a, s)
    | None => (Threw, s)
    end.

Definition getDoc : M node := fun s => (Returned (doc s), s).

Definition modifyDoc (f : node -> node) : M unit :=
  fun s => (Returned tt, mkPopup (f (doc s)) (sent s) (pending s)).

(** A call that registers a callback. *)
Definition request (e : effect) : M unit :=
  fun s => (Returned tt, mkPopup (doc s) (sent s ++ [e]) (pending s ++ [e])).

(** A call without a callback. *)
Definition emit (e : effect) : M unit :=
  fun s => (Returned tt, mkPopup (doc s) (sent s ++ [e]) (pending s)).

Definition exec {A : Type} (m : M A) (s : popup) : popup := snd (m s).

Fixpoint forEach {A : Type} (l : list A) (body : A -> M unit) : M unit :=
  match l with
  | [] => ret tt
  | a :: l' => body a ;; forEach l' body
  end.

(** *** jQuery sets *)

(** [$(selector).op(...)] for a class or attribute selector: [op] on every
    match. *)
Definition jqAll (P : elem -> bool) (f : elem -> elem) : M unit :=
  modifyDoc (mapElems (fun e => if P e then f e else e)).

(** A jQuery set of at most one element; [None] is the empty set. *)
Definition jq : Type := option path.

Definition jqId (i : string) : M jq :=
  fun s => (Returned (byId i (doc s)), s).

Definition jqDo (target : jq) (f : node -> node) : M unit :=
  match target with
  | Some p => modifyDoc (update p f)
  | None => ret tt
  end.

(** [$(n).appendTo(target)]: the set holding the inserted node, empty when
    the target is. *)
Definition appendTo (target : jq) (n : node) : M jq :=
  match target with
  | Some p =>
      d <- getDoc ;;
      match elemAt p d with
      | Some _ =>
          modifyDoc (update p (appendKids [n])) ;;
          ret (Some (p ++ [length (kidsAt p d)]))
      | None => ret None
      end
  | None => ret None
  end.

(** [$(selector).each(body)]: the matches are collected first; [body] gets
    each match's place in the document and the element found there at
    collection time. *)
Definition each (P : elem -> bool) (body : path -> elem -> M unit) : M unit :=
  d <- getDoc ;;
  forEach (select P d)
          (fun this =>
             match elemAt this d with
             | Some e => body this e
             | None => ret tt
             end).

(** ** The popup script *)

Section Program.
Context {platform : Platform}.

Definition CALENDAR_UI_URL_ : string := "https://www.google.com/calendar/".

Definition sendMessage (method : string) (cb : callback) : M unit :=
  request (SendMessage method cb).

(** *** Click handlers and click dispatch *)

Definition addEventsClick : M unit :=
  jqAll (hasClass "selected") (removeClass "selected") ;;
  jqAll (hasClass "tab") hide ;;
  tab <- jqId "add-events" ;;
  jqDo tab (onElem (addClass "selected")) ;;
  pane <- jqId "events" ;;
  jqDo pane (onElem show).

Definition viewAgendaClick : M unit :=
  jqAll (hasClass "selected") (removeClass "selected") ;;
  jqAll (hasClass "tab") hide ;;
  tab <- jqId "view_agenda" ;;
  jqDo tab (onElem (addClass "selected")) ;;
  pane <- jqId "agenda" ;;
  jqDo pane (onElem show).

Definition syncNowClick : M unit :=
  sendMessage "events.feed.fetch" ShowEventsFromFeed.

(** [chrome.tabs.create({'url': $(this).attr('data-url')})] *)
Definition eventDivClick (this : path) : M unit :=
  d <- getDoc ;;
  emit (TabsCreate (match elemAt this d with
                    | Some e => attr "data-url" e
                    | None => None
                    end)).

Definition runHandler (this : path) (h : handler) : M unit :=
  match h with
  | AddEventsClick => addEventsClick
  | ViewAgendaClick => viewAgendaClick
  | SyncNowClick => syncNowClick
  | EventDivClick => eventDivClick this
  end.

Definition handlersAt (p : path) (d : node) : list handler :=
  match elemAt p d with
  | Some e => clickHandlers e
  | None => []
  end.

(** The handlers a click on the element at [p] runs, in order: those of
    the target, then those of each ancestor, each with the element it is
    bound to as [this]. *)
Definition clickChain (p : path) (d : node) : list (path * handler) :=
  flat_map (fun q => map (pair q) (handlersAt q d)) (bubble p).

(** A click on an element, by the user or by [.click()]. *)
Definition click (target : jq) : M unit :=
  match target with
  | Some p =>
      d <- getDoc ;;
      match elemAt p d with
      | Some _ => forEach (clickChain p d) (fun th => runHandler (fst th) (snd th))
      | None => ret tt
      end
  | None => ret tt
  end.

(** *** [browseraction.fillMessages_] *)

Definition fillMessages_ : M unit :=
  each (hasClass "i18n")
       (fun this e =>
          id <- deref (attr "id" e) ;;
          let i18nText := getMessage id in
          if tagName e =? "IMG"
          then jqDo (Some this) (onElem (setAttr "title" i18nText))
          else jqDo (Some this) (setText i18nText)) ;;
  jqAll (hasAttr "data-href" "calendar_ui_url")
        (setAttr "href" CALENDAR_UI_URL_).

(** *** [browseraction.installTabStripClickHandlers_] *)

Definition installTabStripClickHandlers_ : M unit :=
  addEvents <- jqId "add-events" ;;
  jqDo addEvents (onElem (onClick AddEventsClick)) ;;
  viewAgenda <- jqId "view_agenda" ;;
  jqDo viewAgenda (onElem (onClick ViewAgendaClick)) ;;
  click viewAgenda.

(** *** [browseraction.installButtonClickHandlers_] *)

Definition installButtonClickHandlers_ : M unit :=
  syncNow <- jqId "sync_now" ;;
  jqDo syncNow (onElem (onClick SyncNowClick)).

(** *** [browseraction.showLoginMessageIfNotAuthenticated_] *)

Definition showLoginMessageIfNotAuthenticated_ : M unit :=
  request (GetBadgeText BadgeTextCallback).

Definition badgeTextCallback (text : string) : M unit :=
  if text =? "?"
  then
    jqAll (hasClass "tab-container") hide ;;
    error <- jqId "error" ;;
    jqDo error (onElem show) ;;
    sendMessage "events.feed.fetch" ShowEventsFromFeed
  else
    jqAll (hasClass "tab-container") show ;;
    error <- jqId "error" ;;
    jqDo error (onElem hide).

(** *** [browseraction.createEventButton_] *)

Definition createEventButton_ (event : CalendarEvent)
  (opt_useDefaultAnchorText : bool) : node :=
  setKids
    (parseHTML (if opt_useDefaultAnchorText
                then getMessage "add_to_google_calendar"
                else eventTitle event))
    (Elem (setAttr "target" "_blank"
             (setAttr "title" (getMessage "add_to_google_calendar")
                (setAttr "href" (gcal_url event)
                   (addClass "single-event" (newElem "A")))))
          []).

(** *** [browseraction.showDetectedEvents_] *)

Definition showDetectedEvents_ : M unit :=
  sendMessage "events.detected.get" DetectedEventsCallback.

Definition detectedEventsCallback
  (eventsFromPage : option (list CalendarEvent)) : M unit :=
  match eventsFromPage with
  | Some events =>
      if (0 <? length events)%nat
      then
        pane <- jqId "events" ;;
        jqDo pane
             (appendKids [Elem (setAttr "id" "events_list" (newElem "DIV")) []]) ;;
        forEach events
                (fun event =>
                   list <- jqId "events_list" ;;
                   jqDo list (appendKids [createEventButton_ event false])) ;;
        addEvents <- jqId "add-events" ;;
        click addEvents
      else ret tt
  | None => ret tt
  end.

(** *** [browseraction.showEventsFromFeed_] *)

Definition truthy (s : option string) : bool :=
  match s with
  | Some t => negb (t =? "")
  | None => false
  end.

(** The body of the [for] loop, once per event.  [lastDateHeader] is
    declared with [var] inside the body: the declaration is hoisted to the
    function, and without an initialiser it assigns nothing, so the variable
    keeps its value from one iteration to the next and is [undefined] only
    until the first header is inserted. *)
Fixpoint feedLoop (events : list FeedEvent) (lastDateHeader : option moment)
  : M unit :=
  match events with
  | [] => ret tt
  | event :: rest =>
      let start := fromIso8601 (start event) in
      let end_ := fromIso8601 (end_ event) in
      allDay <- match end_ with
                | None => ret true
                | Some en =>
                    st <- deref start ;;
                    ret ((hours st =? 0)%Z && (minutes st =? 0)%Z
                         && (hours en =? 0)%Z && (minutes en =? 0)%Z)
                end ;;
      st <- deref start ;;
      let startDate := setSeconds 0 (setMinutes 0 (setHours 0 st)) in
      lastDateHeader <-
        (if match lastDateHeader with
            | None => true
            | Some last => (23 <? diff startDate last "hours")%Z
            end
         then
           agenda <- jqId "agenda" ;;
           appendTo agenda
             (Elem (addClass "date-header" (newElem "DIV"))
                   [Text (format startDate "dddd MMMM, D")]) ;;
           ret (Some startDate)
         else ret lastDateHeader) ;;
      agenda <- jqId "agenda" ;;
      eventDiv <- appendTo agenda
                    (Elem (setAttr "data-url" (url event)
                             (addClass "event" (newElem "DIV"))) []) ;;
      jqDo eventDiv (onElem (onClick EventDivClick)) ;;
      appendTo eventDiv
        (Elem (setAttr "title" (feedTitle (feed event))
                 (setCss "background-color" (color (feed event))
                    (addClass "feed-color" (newElem "DIV")))) []) ;;
      eventDetails <- appendTo eventDiv
                        (Elem (addClass "event-details" (newElem "DIV")) []) ;;
      appendTo eventDetails (Elem (newElem "H1") [Text (title event)]) ;;
      (if negb allDay
       then
         en <- deref end_ ;;
         appendTo eventDetails
           (Elem (addClass "start-and-end-times" (newElem "DIV"))
                 [Elem (addClass "start" (newElem "SPAN"))
                       [Text (format st "h:mma")];
                  Text " – ";
                  Elem (addClass "end" (newElem "SPAN"))
                       [Text (format en "h:mma")]]) ;;
         ret tt
       else ret tt) ;;
      (if truthy (location event)
       then
         loc <- deref (location event) ;;
         appendTo eventDetails
           (Elem (addClass "location" (newElem "DIV")) [Text loc]) ;;
         ret tt
       else ret tt) ;;
      feedLoop rest lastDateHeader
  end.

Definition showEventsFromFeed_ (events : list FeedEvent) : M unit :=
  feedLoop events None.

(** *** [browseraction.initialize] *)

Definition initialize : M unit :=
  fillMessages_ ;;
  installTabStripClickHandlers_ ;;
  installButtonClickHandlers_ ;;
  showLoginMessageIfNotAuthenticated_ ;;
  showDetectedEvents_ ;;
  sendMessage "events.feed.get" ShowEventsFromFeed.

(** ** The popup's life: load, then one event at a time *)

(** What the browser hands to a callback. *)
Inductive response : Type :=
| BadgeText (text : string)
| DetectedEvents (eventsFromPage : option (list CalendarEvent))
| FeedEvents (events : list FeedEvent).

Inductive input : Type :=
| Answer (i : nat) (r : response)   (* the i-th pending request is answered *)
| Click (p : path).                 (* the user clicks an element *)

Definition callbackOf (e : effect) : option callback :=
  match e with
  | SendMessage _ cb => Some cb
  | GetBadgeText cb => Some cb
  | TabsCreate _ => None
  end.

Definition runCallback (cb : callback) (r : response) : option (M unit) :=
  match cb, r with
  | ShowEventsFromFeed, FeedEvents events => Some (showEventsFromFeed_ events)
  | DetectedEventsCallback, DetectedEvents eventsFromPage =>
      Some (detectedEventsCallback eventsFromPage)
  | BadgeTextCallback, BadgeText text => Some (badgeTextCallback text)
  | _, _ => None
  end.

Fixpoint remove_nth {A : Type} (i : nat) (l : list A) : list A :=
  match l, i with
  | [], _ => []
  | _ :: l', 0 => l'
  | a :: l', S i' => a :: remove_nth i' l'
  end.

(** One turn of the event loop; [None] when the input cannot occur (no such
    pending request, or an answer of the wrong kind). *)
Definition react (i : input) (s : popup) : option popup :=
  match i with
  | Click p => Some (exec (click (Some p)) s)
  | Answer k r =>
      match nth_error (pending s) k with
      | Some e =>
          match callbackOf e with
          | Some cb =>
              match runCallback cb r with
              | Some m =>
                  Some (exec m (mkPopup (doc s) (sent s)
                                        (remove_nth k (pending s))))
              | None => None
              end
          | None => None
          end
      | None => None
      end
  end.

(** The window's [load] listener on a freshly parsed page. *)
Definition load (page : node) : popup :=
  exec initialize (mkPopup page [] []).

Fixpoint run (inputs : list input) (s : popup) : option popup :=
  match inputs with
  | [] => Some s
  | i :: rest =>
      match react i s with
      | Some s' => run rest s'
      | None => None
      end
  end.

(** The [method] fields of the messages sent to the background page. *)
Definition messages (s : popup) : list string :=
  flat_map (fun e => match e with
                     | SendMessage m _ => [m]
                     | _ => []
                     end) (sent s).

End Program.

(** ** A reference platform

    Modelled from the spec: the date/time utility ([utils.fromIso8601] and
    the date objects it returns), the localised messages and the markup
    parser are not among the sources.  This small, executable stand-in serves
    to run the popup on concrete inputs: messages are their key in brackets,
    markup is taken as plain text, and dates are civil date-times without a
    time zone, written [YYYY-MM-DD] or [YYYY-MM-DDTHH:MM:SS].  The theorems
    below hold for every platform, not only for this one. *)

Module Ref.
Local Open Scope Z_scope.

Record date : Type := mkDate {
  year : Z;
  month : Z;
  day : Z;
  hour : Z;
  minute : Z;
  second : Z
}.

Definition digit (c : ascii) : option Z :=
  let n := nat_of_ascii c in
  if ((48 <=? n) && (n <=? 57))%nat then Some (Z.of_nat (n - 48)) else None.

Fixpoint number (acc : Z) (s : string) : option Z :=
  match s with
  | EmptyString => Some acc
  | String c s' =>
      match digit c with
      | Some d => number (10 * acc + d) s'
      | None => None
      end
  end.

Definition field (from len : nat) (s : string) : option Z :=
  if (String.length (substring from len s) =? len)%nat
  then number 0%Z (substring from len s)
  else None.

Definition parse (s : string) : option date :=
  match field 0 4 s, field 5 2 s, field 8 2 s with
  | Some y, Some m, Some d =>
      if (String.length s =? 10)%nat then Some (mkDate y m d 0 0 0)
      else
        match field 11 2 s, field 14 2 s, field 17 2 s with
        | Some h, Some mi, Some se => Some (mkDate y m d h mi se)
        | _, _, _ => None
        end
  | _, _, _ => None
  end.

(** Modelled from the spec: [utils.fromIso8601], which is not among the
    sources; nothing for a missing or malformed value. *)
Definition fromIso8601 (s : option string) : option date :=
  match s with
  | Some t => parse t
  | None => None
  end.

(** Days since 1970-01-01 of a civil date. *)
Definition daysFromCivil (y m d : Z) : Z :=
  let y' := if m <=? 2 then y - 1 else y in
  let era := y' / 400 in
  let yoe := y' - era * 400 in
  let mp := (m + 9) mod 12 in
  let doy := (153 * mp + 2) / 5 + d - 1 in
  let doe := yoe * 365 + yoe / 4 - yoe / 100 + doy in
  era * 146097 + doe - 719468.

Definition seconds (t : date) : Z :=
  daysFromCivil (year t) (month t) (day t) * 86400
  + hour t * 3600 + minute t * 60 + second t.

(** [a.diff(b, 'hours')]: whole hours, rounded towards zero. *)
Definition diff (a b : date) (unit : string) : Z :=
  if (unit =? "hours")%string then Z.quot (seconds a - seconds b) 3600
  else seconds a - seconds b.

Definition setHours (h : Z) (t : date) : date :=
  mkDate (year t) (month t) (day t) h (minute t) (second t).

Definition setMinutes (m : Z) (t : date) : date :=
  mkDate (year t) (month t) (day t) (hour t) m (second t).

Definition setSeconds (s : Z) (t : date) : date :=
  mkDate (year t) (month t) (day t) (hour t) (minute t) s.

Definition weekdays : list string :=
  ["Sunday"; "Monday"; "Tuesday"; "Wednesday"; "Thursday"; "Friday";
   "Saturday"].

Definition months : list string :=
  ["January"; "February"; "March"; "April"; "May"; "June"; "July";
   "August"; "September"; "October"; "November"; "December"].

Definition decimal (z : Z) : string :=
  NilZero.string_of_uint (N.to_uint (Z.to_N z)).

Definition weekday (t : date) : string :=
  nth (Z.to_nat ((daysFromCivil (year t) (month t) (day t) + 4) mod 7))
      weekdays "".

Definition monthName (t : date) : string :=
  nth (Z.to_nat (month t - 1)) months "".

Definition hour12 (t : date) : string :=
  decimal (if hour t mod 12 =? 0 then 12 else hour t mod 12).

Definition minute2 (t : date) : string :=
  ((if (minute t <? 10)%Z then "0" else "") ++ decimal (minute t))%string.

Definition meridiem (t : date) : string :=
  if hour t <? 12 then "am" else "pm".

(** [t.format(pattern)] for the tokens the popup uses: [dddd], [MMMM],
    [D], [h], [mm] and [a]; any other character stands for itself.  [skip]
    counts the characters of a token still to be passed over. *)
Fixpoint formatFrom (t : date) (skip : nat) (pattern : string) : string :=
  match pattern with
  | EmptyString => EmptyString
  | String c rest =>
      match skip with
      | S k => formatFrom t k rest
      | O =>
          if prefix "dddd" pattern
          then (weekday t ++ formatFrom t 3 rest)%string
          else if prefix "MMMM" pattern
          then (monthName t ++ formatFrom t 3 rest)%string
          else if prefix "mm" pattern
          then (minute2 t ++ formatFrom t 1 rest)%string
          else if prefix "D" pattern
          then (decimal (day t) ++ formatFrom t 0 rest)%string
          else if prefix "h" pattern
          then (hour12 t ++ formatFrom t 0 rest)%string
          else if prefix "a" pattern
          then (meridiem t ++ formatFrom t 0 rest)%string
          else String c (formatFrom t 0 rest)
      end
  end.

Definition format (t : date) (pattern : string) : string :=
  formatFrom t 0 pattern.

Definition getMessage (key : string) : string := ("[" ++ key ++ "]")%string.

Definition parseHTML (markup : string) : list node :=
  if (markup =? "")%string then [] else [Text markup].

End Ref.

#[export] Instance refPlatform : Platform := {|
  moment := Ref.date;
  getMessage := Ref.getMessage;
  parseHTML := Ref.parseHTML;
  fromIso8601 := Ref.fromIso8601;
  hours := Ref.hour;
  minutes := Ref.minute;
  setHours := Ref.setHours;
  setMinutes := Ref.setMinutes;
  setSeconds := Ref.setSeconds;
  diff := Ref.diff;
  format := Ref.format
|}.

Arguments click : simpl never.

(** ** Places in the document *)

(** [isPrefix p q]: the node at [q] is the node at [p] or lies below it. *)
Fixpoint isPrefix (p q : path) : bool :=
  match p, q with
  | [], _ => true
  | i :: p', j :: q' => Nat.eqb i j && isPrefix p' q'
  | _ :: _, [] => false
  end.

(** The two paths are the same. *)
Definition samePath (q p : path) : bool := isPrefix p q && isPrefix q p.

(** The element at the root of a node. *)
Definition rootElem (n : node) : option elem :=
  match n with
  | Elem e _ => Some e
  | Text _ => None
  end.

(** An attribute of the element at the root of a node. *)
Definition rootAttr (k : string) (n : node) : option string :=
  match n with
  | Elem e _ => attr k e
  | Text _ => None
  end.

(** The children of the element at the root of a node. *)
Definition kidsOf (n : node) : list node :=
  match n with
  | Elem _ ks => ks
  | Text _ => []
  end.

(** The children of the elements of class [c] inside a node, in document
    order. *)
Definition contents (c : string) (n : node) : list (list node) :=
  map (fun p => kidsAt p n) (select (hasClass c) n).

(** ** Conditions on the page

    The popup's HTML page is not part of the script; the statements below
    say what they need of it. *)

(** The elements that have a click handler bound. *)
Definition bound (d : node) : list path :=
  select (fun e => match clickHandlers e with [] => false | _ => true end) d.

(** Every element of class [i18n] has an [id] attribute. *)
Definition i18nIds (d : node) : bool :=
  forallb (fun p => match elemAt p d with
                    | Some e => match attr "id" e with
                                | Some _ => true
                                | None => false
                                end
                    | None => true
                    end)
          (select (hasClass "i18n") d).

(** No element strictly above the one at [p] is a localised element other
    than an image: the element at [p] is still in the document after the
    first pass. *)
Fixpoint exposed (p : path) (n : node) : bool :=
  match p, n with
  | i :: q, Elem e ks =>
      negb (hasClass "i18n" e && negb (tagName e =? "IMG"))
      && match nth_error ks i with
         | Some k => exposed q k
         | None => true
         end
  | _, _ => true
  end.

(** The markup declares no element with an [id] attribute. *)
Definition idFree (ns : list node) : bool :=
  forallb (fun n =>
             match select (fun e => match attr "id" e with
                                    | Some _ => true
                                    | None => false
                                    end) n with
             | [] => true
             | _ :: _ => false
             end) ns.

(** What [f] says of the element with id [i], if there is one. *)
Definition flag (f : elem -> bool) (i : string) (d : node) : option bool :=
  match byId i d with
  | Some p => option_map f (elemAt p d)
  | None => None
  end.

(** The page has both tabs and both panes, and the panes are of class
    [tab]. *)
Definition tabPage (d : node) : bool :=
  match byId "add-events" d, byId "view_agenda" d with
  | Some _, Some _ =>
      match flag (hasClass "tab") "events" d,
            flag (hasClass "tab") "agenda" d with
      | Some true, Some true => true
      | _, _ => false
      end
  | _, _ => false
  end.

(** Neither tab lies inside the other. *)
Definition tabsApart (d : node) : bool :=
  match byId "add-events" d, byId "view_agenda" d with
  | Some pa, Some pv => negb (isPrefix pa pv) && negb (isPrefix pv pa)
  | _, _ => false
  end.

(** The tabs and panes are found at the given places, and the panes are of
    class [tab]. *)
Definition tabsAt (d : node) (pa pv pe pg : path) : Prop :=
  byId "add-events" d = Some pa /\ byId "view_agenda" d = Some pv
  /\ byId "events" d = Some pe /\ byId "agenda" d = Some pg
  /\ flag (hasClass "tab") "events" d = Some true
  /\ flag (hasClass "tab") "agenda" d = Some true.

(** ** What is observed of the popup *)

(** The two tabs of the popup. *)
Inductive tab : Type :=
| Detected   (* '#add-events', with pane '#events' *)
| Agenda.    (* '#view_agenda', with pane '#agenda' *)

(** The id of a tab's element in the tab strip. *)
Definition tabId (t : tab) : string :=
  match t with
  | Detected => "add-events"
  | Agenda => "view_agenda"
  end.

(** The tab that alone carries the class [selected] while its pane alone
    is displayed, if there is one. *)
Definition tabView (d : node) : option tab :=
  match flag (hasClass "selected") "add-events" d,
        flag (hasClass "selected") "view_agenda" d,
        flag displayed "events" d,
        flag displayed "agenda" d with
  | Some true, Some false, Some true, Some false => Some Detected
  | Some false, Some true, Some false, Some true => Some Agenda
  | _, _, _, _ => None
  end.

(** The tab selected by the last tab handler among the handlers of a
    click. *)
Fixpoint lastTab (hs : list handler) (t : option tab) : option tab :=
  match hs with
  | [] => t
  | AddEventsClick :: hs' => lastTab hs' (Some Detected)
  | ViewAgendaClick :: hs' => lastTab hs' (Some Agenda)
  | _ :: hs' => lastTab hs' t
  end.

(** The tab a click on the element with id [i] selects. *)
Definition selects (i : string) (d : node) : option tab :=
  match byId i d with
  | Some p => lastTab (map snd (clickChain p d)) None
  | None => None
  end.

(** A click on either tab selects that tab. *)
Definition wired (d : node) : bool :=
  match selects "add-events" d, selects "view_agenda" d with
  | Some Detected, Some Agenda => true
  | _, _ => false
  end.

(** The popup after the user clicked the given tabs, one after the
    other. *)
Definition clickTabs (ts : list tab) (s : popup) : popup :=
  fold_left (fun s t => exec (click (byId (tabId t) (doc s))) s) ts s.

(** The page with its localised messages filled in. *)
Definition filled `{Platform} (page : node) : node :=
  doc (exec fillMessages_ (mkPopup page [] [])).

(** The three requests [initialize] makes, in the order it makes them. *)
Definition initialRequests : list effect :=
  [GetBadgeText BadgeTextCallback;
   SendMessage "events.detected.get" DetectedEventsCallback;
   SendMessage "events.feed.get" ShowEventsFromFeed].

(** The calls the popup may make, each with the callback it registers. *)
Definition allowed (e : effect) : Prop :=
  match e with
  | SendMessage m cb =>
      (m = "events.feed.get" /\ cb = ShowEventsFromFeed)
      \/ (m = "events.feed.fetch" /\ cb = ShowEventsFromFeed)
      \/ (m = "events.detected.get" /\ cb = DetectedEventsCallback)
  | GetBadgeText cb => cb = BadgeTextCallback
  | TabsCreate _ => True
  end.

(** The node is a date header of the agenda. *)
Definition isHeader (n : node) : bool :=
  match n with
  | Elem e _ => hasClass "date-header" e
  | Text _ => false
  end.

(** The node is the div of an event of the agenda. *)
Definition isEventDiv (n : node) : bool :=
  match n with
  | Elem e _ => hasClass "event" e
  | Text _ => false
  end.

(** ** What the operations do, written as data

    The definitions of this part describe, as plain functions, what the
    monadic code above does; each is proved to agree with the code before it
    is used. *)

(** [m] returns normally from [s] and touches nothing but the document. *)
Definition domOnly {A : Type} (m : M A) (s : popup) : Prop :=
  exists a d', m s = (Returned a, mkPopup d' (sent s) (pending s)).

(** From [s], [m] only adds calls satisfying [Q]. *)
Definition adds {A : Type} (Q : effect -> Prop) (m : M A) (s : popup) : Prop :=
  exists es ps,
    sent (snd (m s)) = sent s ++ es /\ pending (snd (m s)) = pending s ++ ps
    /\ Forall Q es /\ Forall Q ps.

(** [m] returns normally from [s], touches nothing but the document, and
    leaves a document satisfying [I]. *)
Definition keeps {A : Type} (I : node -> Prop) (m : M A) (s : popup) : Prop :=
  exists a d', m s = (Returned a, mkPopup d' (sent s) (pending s)) /\ I d'.

(** The document after one of the two tab handlers ran: the handler of the
    tab with id [tab], whose pane has id [pane]. *)
Definition tabSwitch (tab pane : string) (d : node) : node :=
  let d1 := mapElems (fun e => if hasClass "selected" e
                               then removeClass "selected" e else e) d in
  let d2 := mapElems (fun e => if hasClass "tab" e then hide e else e) d1 in
  let d3 := match byId tab d2 with
            | Some p => update p (onElem (addClass "selected")) d2
            | None => d2
            end in
  match byId pane d3 with
  | Some p => update p (onElem show) d3
  | None => d3
  end.

(** What a tab handler makes of one element: [isTab] and [isPane] say
    whether the element is the handler's tab, or its pane. *)
Definition switched (isTab isPane : bool) (e : elem) : elem :=
  let e1 := if hasClass "selected" e then removeClass "selected" e else e in
  let e2 := if hasClass "tab" e1 then hide e1 else e1 in
  let e3 := if isTab then addClass "selected" e2 else e2 in
  if isPane then show e3 else e3.

(** The handler is one of the two tab handlers. *)
Definition isTabHandler (h : handler) : bool :=
  match h with
  | AddEventsClick | ViewAgendaClick => true
  | SyncNowClick | EventDivClick => false
  end.

(** What a click handler does to the document ... *)
Definition handlerDoc (h : handler) (d : node) : node :=
  match h with
  | AddEventsClick => tabSwitch "add-events" "events" d
  | ViewAgendaClick => tabSwitch "view_agenda" "agenda" d
  | SyncNowClick | EventDivClick => d
  end.

(** ... and the calls it makes, when bound to the element at [this]. *)
Definition handlerCalls (this : path) (h : handler) (d : node) : list effect :=
  match h with
  | AddEventsClick | ViewAgendaClick => []
  | SyncNowClick => [SendMessage "events.feed.fetch" ShowEventsFromFeed]
  | EventDivClick =>
      [TabsCreate (match elemAt this d with
                   | Some e => attr "data-url" e
                   | None => None
                   end)]
  end.

(** The requests a click handler leaves pending. *)
Definition handlerPending (h : handler) : list effect :=
  match h with
  | SyncNowClick => [SendMessage "events.feed.fetch" ShowEventsFromFeed]
  | _ => []
  end.

(** The state after the handlers of a click ran one after the other. *)
Definition afterHandlers (chain : list (path * handler)) (s : popup) : popup :=
  fold_left
    (fun s th =>
       mkPopup (handlerDoc (snd th) (doc s))
               (sent s ++ handlerCalls (fst th) (snd th) (doc s))
               (pending s ++ handlerPending (snd th)))
    chain s.

(** The document once [installTabStripClickHandlers_] has bound both tab
    handlers, before it triggers the click. *)
Definition tabsBound (d : node) : node :=
  let d1 := match byId "add-events" d with
            | Some p => update p (onElem (onClick AddEventsClick)) d
            | None => d
            end in
  match byId "view_agenda" d1 with
  | Some p => update p (onElem (onClick ViewAgendaClick)) d1
  | None => d1
  end.

(** The document once [installButtonClickHandlers_] has run. *)
Definition syncBound (d : node) : node :=
  match byId "sync_now" d with
  | Some p => update p (onElem (onClick SyncNowClick)) d
  | None => d
  end.

(** The popup whose document is [d] with the children of the element [e]
    at [p] replaced by [ks]. *)
Definition withKids (d : node) (p : path) (e : elem) (ks : list node)
  (se pe : list effect) : popup :=
  mkPopup (update p (fun _ => Elem e ks) d) se pe.

(** *** [showEventsFromFeed_] *)

Section Rendering.
Context {platform : Platform}.

Definition startOfDay (st : moment) : moment :=
  setSeconds 0 (setMinutes 0 (setHours 0 st)).

(** The test that guards the insertion of a date header. *)
Definition needsHeader (last : option moment) (startDate : moment) : bool :=
  match last with
  | None => true
  | Some l => (23 <? diff startDate l "hours")%Z
  end.

Definition isAllDay (st : moment) (en : option moment) : bool :=
  match en with
  | None => true
  | Some e =>
      (hours st =? 0)%Z && (minutes st =? 0)%Z
      && (hours e =? 0)%Z && (minutes e =? 0)%Z
  end.

Definition parses (ev : FeedEvent) : bool :=
  match fromIso8601 (start ev) with
  | Some _ => true
  | None => false
  end.

Definition dateHeader (startDate : moment) : node :=
  Elem (addClass "date-header" (newElem "DIV"))
       [Text (format startDate "dddd MMMM, D")].

Definition timesBlock (st en : moment) : node :=
  Elem (addClass "start-and-end-times" (newElem "DIV"))
       [Elem (addClass "start" (newElem "SPAN")) [Text (format st "h:mma")];
        Text " – ";
        Elem (addClass "end" (newElem "SPAN")) [Text (format en "h:mma")]].

Definition eventDetails (ev : FeedEvent) (st : moment) (en : option moment)
  : list node :=
  [Elem (newElem "H1") [Text (title ev)]]
    ++ match en with
       | Some e => if isAllDay st en then [] else [timesBlock st e]
       | None => []
       end
    ++ (if truthy (location ev)
        then match location ev with
             | Some l => [Elem (addClass "location" (newElem "DIV")) [Text l]]
             | None => []
             end
        else []).

Definition eventDiv (ev : FeedEvent) (st : moment) (en : option moment)
  : node :=
  Elem (onClick EventDivClick
          (setAttr "data-url" (url ev) (addClass "event" (newElem "DIV"))))
       [Elem (setAttr "title" (feedTitle (feed ev))
                (setCss "background-color" (color (feed ev))
                   (addClass "feed-color" (newElem "DIV")))) [];
        Elem (addClass "event-details" (newElem "DIV"))
             (eventDetails ev st en)].

(** The nodes appended for a list of events, up to the first event whose
    start does not parse. *)
Fixpoint renderFeed (events : list FeedEvent) (last : option moment)
  : list node :=
  match events with
  | [] => []
  | ev :: rest =>
      match fromIso8601 (start ev) with
      | None => []
      | Some st =>
          let startDate := startOfDay st in
          let block := eventDiv ev st (fromIso8601 (end_ ev)) in
          if needsHeader last startDate
          then dateHeader startDate :: block :: renderFeed rest (Some startDate)
          else block :: renderFeed rest last
      end
  end.

(** For each event, whether a date header is inserted before it: before
    the first event, and before each later one whose day starts more than 23
    hours after the day of the last header. *)
Fixpoint headerPlan (events : list FeedEvent) (last : option moment)
  : list bool :=
  match events with
  | [] => []
  | ev :: rest =>
      match fromIso8601 (start ev) with
      | None => []
      | Some st =>
          let h := needsHeader last (startOfDay st) in
          h :: headerPlan rest (if h then Some (startOfDay st) else last)
      end
  end.

End Rendering.

(** The event div of an event whose start parses. *)
Definition eventDivOf `{Platform} (ev : FeedEvent) : node :=
  match fromIso8601 (start ev) with
  | Some st => eventDiv ev st (fromIso8601 (end_ ev))
  | None => Text ""
  end.

(** *** [fillMessages_] *)

Section Localise.
Context {platform : Platform}.

(** What the body of the [each] loop does to the node of a matched
    element [e]. *)
Definition fillOne (e : option elem) (n : node) : node :=
  match e with
  | Some e =>
      match attr "id" e with
      | Some id =>
          if tagName e =? "IMG"
          then onElem (setAttr "title" (getMessage id)) n
          else setText (getMessage id) n
      | None => n
      end
  | None => n
  end.

(** The first pass over a tree: the message of each localised element
    becomes its title if it is an image, and its only child otherwise. *)
Fixpoint localise (n : node) : node :=
  match n with
  | Text s => Text s
  | Elem e ks =>
      if hasClass "i18n" e
      then
        match attr "id" e with
        | Some id =>
            if tagName e =? "IMG"
            then Elem (setAttr "title" (getMessage id) e) (map localise ks)
            else Elem e [Text (getMessage id)]
        | None => Elem e (map localise ks)
        end
      else Elem e (map localise ks)
  end.

End Localise.

(** What the second statement of [fillMessages_] does to one element. *)
Definition setCalendarHref (e : elem) : elem :=
  if hasAttr "data-href" "calendar_ui_url" e
  then setAttr "href" CALENDAR_UI_URL_ e
  else e.

(** *** [showDetectedEvents_] *)

(** The container [showDetectedEvents_] appends, holding the given
    buttons. *)
Definition eventsList (buttons : list node) : node :=
  Elem (setAttr "id" "events_list" (newElem "DIV")) buttons.

(** ** A sample page and sample data *)

(** An element with an id, some classes and some children. *)
Definition el (tag id : string) (cls : list string) (kids : list node) : node :=
  Elem (mkElem tag [("id", id)] cls [] true []) kids.

(** A popup page with the elements the script looks for. *)
Definition samplePage : node :=
  el "BODY" "popup" []
     [el "DIV" "error" ["i18n"] [];
      el "DIV" "tabs" ["tab-container"]
         [el "A" "add-events" ["i18n"] [];
          el "A" "view_agenda" ["i18n"; "selected"] [];
          el "IMG" "sync_now" ["i18n"] [];
          el "DIV" "events" ["tab"] [];
          el "DIV" "agenda" ["tab"] [];
          Elem (mkElem "A" [("id", "view_calendar");
                            ("data-href", "calendar_ui_url")]
                       ["i18n"] [] true [])
               [Text "Calendar"]]].

(** Two events on the same day. *)
Definition sameDayEvents : list FeedEvent :=
  [mkFeedEvent "Standup" (Some "2013-01-05T10:00:00")
               (Some "2013-01-05T10:30:00") "https://example.org/e/1"
               (Some "Room 1") (mkFeed "#ff0000" "Work");
   mkFeedEvent "Lunch" (Some "2013-01-05T12:00:00")
               (Some "2013-01-05T13:00:00") "https://example.org/e/2"
               None (mkFeed "#00ff00" "Home")].

(** Two events detected on a page. *)
Definition sampleDetected : list CalendarEvent :=
  [mkCalendarEvent "Concert" "https://www.google.com/calendar/event?a=1";
   mkCalendarEvent "Lecture" "https://www.google.com/calendar/event?a=2"].

(** A page with a localised element that has no id. *)
Definition anonymousPage : node :=
  el "BODY" "popup" []
     [Elem (mkElem "SPAN" [] ["i18n"] [] true []) [];
      el "DIV" "agenda" ["tab"] []].

(** A page with a localised element inside another one. *)
Definition nestedPage : node :=
  el "BODY" "popup" []
     [el "DIV" "outer" ["i18n"] [el "SPAN" "inner" ["i18n"] []]].

(** An event without a start. *)
Definition startlessEvent : FeedEvent :=
  mkFeedEvent "Someday" None None "https://example.org/e/3" None
              (mkFeed "#0000ff" "Home").

(** ** Rewriting every element by its place *)

(** Applies [f i a] to the elements of a list, [i] counting from the given
    index. *)
Definition imap {A B : Type} (f : nat -> A -> B) : nat -> list A -> list B :=
  fix go (i : nat) (l : list A) : list B :=
    match l with
    | [] => []
    | a :: l' => f i a :: go (S i) l'
    end.

(** Rewrites the record of every element, given the element's path. *)
Fixpoint pathMap (F : path -> elem -> elem) (n : node) : node :=
  match n with
  | Text s => Text s
  | Elem e ks =>
      Elem (F [] e) (imap (fun i k => pathMap (fun q => F (i :: q)) k) 0 ks)
  end.

(** Whether [q] is the place of the element with id [i]. *)
Definition isAt (i : string) (d : node) (q : path) : bool :=
  match byId i d with
  | Some p => samePath q p
  | None => false
  end.

(** An element without its classes and its display: what no click
    changes. *)
Definition plain (e : elem) : elem :=
  mkElem (tagName e) (attrs e) [] (style e) true (clickHandlers e).

(** An element without its display: what the badge callback does not
    change. *)
Definition undisplayed (e : elem) : elem :=
  mkElem (tagName e) (attrs e) (classes e) (style e) true (clickHandlers e).

(** The handlers [initialize] binds to the element at [q]. *)
Definition installed (d : node) (q : path) : list handler :=
  (if isAt "add-events" d q then [AddEventsClick] else [])
    ++ (if isAt "view_agenda" d q then [ViewAgendaClick] else [])
    ++ (if isAt "sync_now" d q then [SyncNowClick] else []).

(** A page without an agenda. *)
Definition barePage : node :=
  el "BODY" "popup" [] [el "DIV" "events" ["tab"] []].

(** ** A platform that parses markup

    The reference platform takes every title as text.  This one tells one
    form of markup from text, a single [<b id='...'>...</b>] element, and is
    the reference platform otherwise. *)
Definition parseBold (markup : string) : list node :=
  if prefix "<b id='" markup
  then match index 7 "'>" markup with
       | Some i =>
           match index (i + 2) "</b>" markup with
           | Some j =>
               if (j + 4 =? String.length markup)%nat
               then [Elem (mkElem "B" [("id", substring 7 (i - 7) markup)]
                                  [] [] true [])
                          (Ref.parseHTML
                             (substring (i + 2) (j - (i + 2)) markup))]
               else Ref.parseHTML markup
           | None => Ref.parseHTML markup
           end
       | None => Ref.parseHTML markup
       end
  else Ref.parseHTML markup.

Definition markupPlatform : Platform := {|
  moment := Ref.date;
  getMessage := Ref.getMessage;
  parseHTML := parseBold;
  fromIso8601 := Ref.fromIso8601;
  hours := Ref.hour;
  minutes := Ref.minute;
  setHours := Ref.setHours;
  setMinutes := Ref.setMinutes;
  setSeconds := Ref.setSeconds;
  diff := Ref.diff;
  format := Ref.format
|}.

(** A popup page whose panes come before its tab strip. *)
Definition panesFirstPage : node :=
  el "BODY" "popup" []
     [el "DIV" "events" ["tab"] [];
      el "DIV" "agenda" ["tab"] [];
      el "DIV" "tabs" ["tab-container"]
         [el "A" "add-events" ["i18n"] [];
          el "A" "view_agenda" ["i18n"; "selected"] []]].

(** A detected event whose title is markup declaring an id. *)
Definition markedDetected : list CalendarEvent :=
  [mkCalendarEvent "<b id='add-events'>Concert</b>"
                   "https://www.google.com/calendar/event?a=1"].

(** * Properties *)

(** ** Lists *)

Lemma update_nth_length {A : Type} (i : nat) (f : A -> A) (l : list A) :
  length (update_nth i f l) = length l.
Proof.
  revert i; induction l as [|a l IH]; intros [|i]; simpl; auto.
Qed.

Lemma nth_error_update_nth {A : Type} (i j : nat) (f : A -> A) (l : list A) :
  nth_error (update_nth i f l) j
  = if Nat.eqb j i then option_map f (nth_error l j) else nth_error l j.
Proof.
  revert i j; induction l as [|a l IH]; intros [|i] [|j]; simpl; auto.
  now destruct (Nat.eqb j i).
Qed.

Lemma update_nth_app_length {A : Type} (f : A -> A) (l : list A) (a : A)
  (r : list A) :
  update_nth (length l) f (l ++ a :: r) = l ++ f a :: r.
Proof.
  induction l as [|b l IH]; simpl; [reflexivity | now rewrite IH].
Qed.

Lemma update_nth_id {A : Type} (i : nat) (f : A -> A) (l : list A) :
  (forall a, nth_error l i = Some a -> f a = a) -> update_nth i f l = l.
Proof.
  revert i; induction l as [|a l IH]; intros [|i] H; simpl; auto.
  - now rewrite (H a eq_refl).
  - now rewrite IH.
Qed.

Lemma update_nth_compose {A : Type} (i : nat) (f g : A -> A) (l : list A) :
  update_nth i g (update_nth i f l) = update_nth i (fun a => g (f a)) l.
Proof.
  revert i; induction l as [|a l IH]; intros [|i]; simpl; auto.
  now rewrite IH.
Qed.

Lemma update_nth_ext {A : Type} (i : nat) (f g : A -> A) (l : list A) :
  (forall a, nth_error l i = Some a -> f a = g a) ->
  update_nth i f l = update_nth i g l.
Proof.
  revert i; induction l as [|a l IH]; intros [|i] H; simpl; auto.
  - now rewrite (H a eq_refl).
  - now rewrite (IH i H).
Qed.

Lemma update_nth_split {A : Type} (i : nat) (f : A -> A) (l : list A) (a : A) :
  nth_error l i = Some a ->
  l = firstn i l ++ a :: skipn (S i) l
  /\ update_nth i f l = firstn i l ++ f a :: skipn (S i) l.
Proof.
  revert i; induction l as [|b l IH]; intros [|i] H; simpl in *;
    try discriminate.
  - injection H as ->. auto.
  - destruct (IH i H) as [E1 E2]. split; [now rewrite <- E1 | now rewrite E2].
Qed.

Lemma indexed_app {A B : Type} (f : nat -> A -> list B) (i : nat)
  (l r : list A) :
  indexed f i (l ++ r) = indexed f i l ++ indexed f (i + length l) r.
Proof.
  revert i; induction l as [|a l IH]; intros i; simpl.
  - now rewrite Nat.add_0_r.
  - rewrite IH, <- app_assoc. do 3 f_equal. lia.
Qed.

Lemma indexed_ext {A B : Type} (f g : nat -> A -> list B) (i : nat)
  (l : list A) :
  Forall (fun a => forall j, f j a = g j a) l -> indexed f i l = indexed g i l.
Proof.
  intros H; revert i; induction H as [|a l Ha _ IH]; intros i; simpl.
  - reflexivity.
  - now rewrite Ha, IH.
Qed.

Lemma indexed_map {A B : Type} (f : nat -> A -> list B) (h : A -> A) (i : nat)
  (l : list A) :
  indexed f i (map h l) = indexed (fun j a => f j (h a)) i l.
Proof.
  revert i; induction l as [|a l IH]; intros i; simpl; [|rewrite IH]; auto.
Qed.

Lemma in_indexed {A B : Type} (f : nat -> A -> list B) (i : nat) (l : list A)
  (b : B) :
  In b (indexed f i l)
  <-> exists j a, nth_error l j = Some a /\ In b (f (i + j) a).
Proof.
  revert i; induction l as [|a l IH]; intros i; simpl.
  - split; [tauto | intros (j & a & H & _); destruct j; discriminate].
  - rewrite in_app_iff, IH. split.
    + intros [H | (j & a' & H1 & H2)].
      * exists 0, a. rewrite Nat.add_0_r. auto.
      * exists (S j), a'. split; [exact H1|].
        now replace (i + S j) with (S i + j) by lia.
    + intros ([|j] & a' & H1 & H2); simpl in H1.
      * injection H1 as <-. rewrite Nat.add_0_r in H2. auto.
      * right. exists j, a'. split; [exact H1|].
        now replace (S i + j) with (i + S j) by lia.
Qed.

(** ** The tree *)

(** Induction on a node with the hypothesis for every child. *)
Lemma node_ind' (P : node -> Prop) :
  (forall s, P (Text s)) ->
  (forall e ks, Forall P ks -> P (Elem e ks)) ->
  forall n, P n.
Proof.
  intros HText HElem. fix IH 1. intros [s | e ks].
  - apply HText.
  - apply HElem. induction ks as [|k ks IHks]; constructor.
    + apply IH.
    + apply IHks.
Qed.

Lemma lookup_app (p q : path) (d : node) :
  lookup (p ++ q) d
  = match lookup p d with
    | Some n => lookup q n
    | None => None
    end.
Proof.
  revert d; induction p as [|i p IH]; intros d; simpl; [reflexivity|].
  destruct d as [s | e ks]; [reflexivity|].
  destruct (nth_error ks i); [apply IH | reflexivity].
Qed.

Lemma update_app (p q : path) (f : node -> node) (d : node) :
  update (p ++ q) f d = update p (update q f) d.
Proof.
  revert d; induction p as [|i p IH]; intros d; simpl; [reflexivity|].
  destruct d as [s | e ks]; [reflexivity|].
  f_equal. apply update_nth_ext. intros; apply IH.
Qed.

Lemma update_ext (p : path) (f g : node -> node) (d : node) :
  (forall n, lookup p d = Some n -> f n = g n) ->
  update p f d = update p g d.
Proof.
  revert d; induction p as [|i p IH]; intros d H; simpl.
  - now apply H.
  - destruct d as [s | e ks]; [reflexivity|].
    f_equal. apply update_nth_ext. intros k Hk. apply IH.
    intros n Hn. apply H. simpl. now rewrite Hk.
Qed.

Lemma update_id (p : path) (d : node) : update p (fun n => n) d = d.
Proof.
  revert d; induction p as [|i p IH]; intros d; simpl; [reflexivity|].
  destruct d as [s | e ks]; [reflexivity|].
  f_equal. apply update_nth_id. intros; apply IH.
Qed.

Lemma update_nowhere (p : path) (f : node -> node) (d : node) :
  lookup p d = None -> update p f d = d.
Proof.
  intros H. rewrite <- (update_id p d) at 2. apply update_ext.
  intros n Hn. congruence.
Qed.

Lemma update_update (p : path) (f g : node -> node) (d : node) :
  update p g (update p f d) = update p (fun n => g (f n)) d.
Proof.
  revert d; induction p as [|i p IH]; intros d; simpl; [reflexivity|].
  destruct d as [s | e ks]; [reflexivity|].
  f_equal. rewrite update_nth_compose. apply update_nth_ext. intros; apply IH.
Qed.

Lemma lookup_update_under (p r : path) (f : node -> node) (d : node) :
  lookup (p ++ r) (update p f d)
  = match lookup p d with
    | Some n => lookup r (f n)
    | None => None
    end.
Proof.
  revert d; induction p as [|i p IH]; intros d; simpl; [reflexivity|].
  destruct d as [s | e ks]; [reflexivity|].
  rewrite nth_error_update_nth, Nat.eqb_refl.
  destruct (nth_error ks i); simpl; [apply IH | reflexivity].
Qed.

Lemma lookup_update (p : path) (f : node -> node) (d : node) :
  lookup p (update p f d) = option_map f (lookup p d).
Proof.
  rewrite <- (app_nil_r p) at 1. rewrite lookup_update_under.
  now destruct (lookup p d).
Qed.

Lemma isPrefix_true (p q : path) :
  isPrefix p q = true -> exists r, q = p ++ r.
Proof.
  revert q; induction p as [|i p IH]; intros q H; simpl in *.
  - now exists q.
  - destruct q as [|j q]; [discriminate|].
    apply andb_true_iff in H as [H1 H2]. apply Nat.eqb_eq in H1 as ->.
    destruct (IH q H2) as [r ->]. now exists r.
Qed.

Lemma isPrefix_app (p r : path) : isPrefix p (p ++ r) = true.
Proof.
  induction p as [|i p IH]; simpl; [reflexivity|].
  now rewrite Nat.eqb_refl.
Qed.

Lemma isPrefix_refl (p : path) : isPrefix p p = true.
Proof. rewrite <- (app_nil_r p) at 2. apply isPrefix_app. Qed.

(** A rewrite below or beside an element leaves the element's own record
    as it was. *)
Lemma elemAt_update_off (q p : path) (f : node -> node) (d : node) :
  isPrefix p q = false -> elemAt q (update p f d) = elemAt q d.
Proof.
  unfold elemAt. revert p d; induction q as [|j q IH]; intros p d H.
  - destruct p as [|i p]; [discriminate|].
    simpl. now destruct d.
  - destruct p as [|i p]; [discriminate|]. simpl in H.
    destruct d as [s | e ks]; simpl; [reflexivity|].
    rewrite nth_error_update_nth.
    destruct (Nat.eqb_spec j i) as [-> | Hne].
    + rewrite Nat.eqb_refl in H. simpl in H.
      destruct (nth_error ks i); simpl; [now apply IH | reflexivity].
    + reflexivity.
Qed.

Lemma elemAt_update_under (p r : path) (f : node -> node) (d : node) :
  elemAt (p ++ r) (update p f d)
  = match lookup p d with
    | Some n => elemAt r (f n)
    | None => None
    end.
Proof.
  unfold elemAt. rewrite lookup_update_under. now destruct (lookup p d).
Qed.

Lemma elemAt_update_onElem (q p : path) (g : elem -> elem) (d : node) :
  elemAt q (update p (onElem g) d)
  = if isPrefix p q && isPrefix q p
    then option_map g (elemAt q d)
    else elemAt q d.
Proof.
  destruct (isPrefix p q) eqn:Hpq; simpl.
  - destruct (isPrefix_true _ _ Hpq) as [r ->].
    rewrite elemAt_update_under. unfold elemAt at 2 3. rewrite lookup_app.
    destruct r as [|j r].
    + rewrite app_nil_r, isPrefix_refl.
      destruct (lookup p d) as [[s | e ks]|]; reflexivity.
    + assert (isPrefix (p ++ j :: r) p = false) as ->.
      { clear. induction p as [|i p IH]; simpl; [reflexivity|].
        now rewrite Nat.eqb_refl. }
      destruct (lookup p d) as [[s | e ks]|]; reflexivity.
  - now apply elemAt_update_off.
Qed.

Lemma elemAt_update_same (p : path) (g : elem -> elem) (d : node) :
  elemAt p (update p (onElem g) d) = option_map g (elemAt p d).
Proof. now rewrite elemAt_update_onElem, isPrefix_refl. Qed.

Lemma isPrefix_antisym (p q : path) :
  isPrefix p q = true -> isPrefix q p = true -> p = q.
Proof.
  revert q; induction p as [|i p IH]; intros [|j q] H1 H2; simpl in *;
    try discriminate; [reflexivity|].
  apply andb_true_iff in H1 as [H1 H1'], H2 as [_ H2'].
  apply Nat.eqb_eq in H1 as ->. f_equal; auto.
Qed.

Lemma elemAt_update_other (q p : path) (g : elem -> elem) (d : node) :
  q <> p -> elemAt q (update p (onElem g) d) = elemAt q d.
Proof.
  intros H. rewrite elemAt_update_onElem.
  destruct (isPrefix p q) eqn:H1, (isPrefix q p) eqn:H2; simpl; auto.
  exfalso. apply H. symmetry. now apply isPrefix_antisym.
Qed.

Lemma lookup_mapElems (q : path) (f : elem -> elem) (d : node) :
  lookup q (mapElems f d) = option_map (mapElems f) (lookup q d).
Proof.
  revert d; induction q as [|j q IH]; intros d; simpl; [reflexivity|].
  destruct d as [s | e ks]; simpl; [reflexivity|].
  rewrite nth_error_map. destruct (nth_error ks j); simpl; [apply IH|reflexivity].
Qed.

Lemma elemAt_mapElems (q : path) (f : elem -> elem) (d : node) :
  elemAt q (mapElems f d) = option_map f (elemAt q d).
Proof.
  unfold elemAt. rewrite lookup_mapElems.
  destruct (lookup q d) as [[s | e ks]|]; reflexivity.
Qed.

Lemma select_mapElems (P Q : elem -> bool) (f : elem -> elem) (d : node) :
  (forall e, P (f e) = Q e) -> select P (mapElems f d) = select Q d.
Proof.
  intros H. induction d as [s | e ks IH] using node_ind'; simpl.
  - reflexivity.
  - rewrite H. f_equal. rewrite indexed_map. apply indexed_ext.
    eapply Forall_impl; [|exact IH]. simpl. intros k Hk j. now rewrite Hk.
Qed.

(** A selector's matches are exactly the elements that satisfy it. *)
Lemma in_select (P : elem -> bool) (q : path) (d : node) :
  In q (select P d) <-> exists e, elemAt q d = Some e /\ P e = true.
Proof.
  unfold elemAt. revert d; induction q as [|j q IH]; intros d.
  - destruct d as [s | e ks]; simpl.
    + split; [tauto | intros (e & H & _); discriminate].
    + rewrite in_app_iff, in_indexed. split.
      * intros [H | (j & k & _ & H)].
        -- destruct (P e) eqn:HP; [|destruct H]. now exists e.
        -- apply in_map_iff in H as (? & ? & _). discriminate.
      * intros (e' & H & HP). injection H as <-. rewrite HP. left. now left.
  - destruct d as [s | e ks]; simpl.
    + split; [tauto | intros (e & H & _); discriminate].
    + rewrite in_app_iff, in_indexed. split.
      * intros [H | (i & k & Hk & H)].
        -- destruct (P e); [destruct H as [H|[]]|destruct H]. discriminate.
        -- apply in_map_iff in H as (q' & E & H). simpl in E.
           injection E as <- <-. rewrite Hk. now apply IH.
      * intros (e' & H & HP). right.
        destruct (nth_error ks j) as [k|] eqn:Hk; [|discriminate].
        exists j, k. split; [exact Hk|]. apply in_map. apply IH. eauto.
Qed.

Lemma byId_sound (i : string) (d : node) (p : path) :
  byId i d = Some p -> exists e, elemAt p d = Some e /\ hasId i e = true.
Proof.
  unfold byId. intros H. apply in_select.
  destruct (select (hasId i) d); simpl in H; [discriminate|].
  injection H as ->. now left.
Qed.

(** Rewriting the subtree at [p] changes a selector's matches only between
    those before and those after that subtree. *)
Lemma select_splice (P : elem -> bool) (p : path) (d n : node) :
  lookup p d = Some n ->
  exists before after,
    ~ In p before
    /\ forall f,
        select P (update p f d)
        = before ++ map (app p) (select P (f n)) ++ after.
Proof.
  revert d; induction p as [|i p IH]; intros d H.
  - injection H as ->. exists [], []. split; [tauto|]. intros f. simpl.
    now rewrite map_id, app_nil_r.
  - destruct d as [s | e ks]; [discriminate|]. simpl in H.
    destruct (nth_error ks i) as [k|] eqn:Hk; [|discriminate].
    destruct (IH k H) as (b & a & Hb & Hsel).
    set (g := fun (j : nat) (c : node) => map (cons j) (select P c)).
    exists ((if P e then [[]] else []) ++ indexed g 0 (firstn i ks)
            ++ map (cons i) b),
      (map (cons i) a ++ indexed g (S i) (skipn (S i) ks)).
    split.
    + rewrite !in_app_iff. intros [Hin | [Hin | Hin]].
      * destruct (P e); [destruct Hin as [E|[]]; discriminate | destruct Hin].
      * apply in_indexed in Hin as (j & c & Hj & Hin).
        apply in_map_iff in Hin as (q & E & _). injection E as E _.
        assert (j < i).
        { assert (j < length (firstn i ks))
            by (apply nth_error_Some; congruence).
          rewrite length_firstn in *. lia. }
        simpl in E. lia.
      * apply in_map_iff in Hin as (q & E & Hq). injection E as ->. auto.
    + intros f. simpl. fold g.
      destruct (update_nth_split i (update p f) ks k Hk) as [_ ->].
      rewrite indexed_app. simpl.
      assert (length (firstn i ks) = i) as ->.
      { rewrite length_firstn. apply Nat.min_l.
        apply Nat.lt_le_incl, nth_error_Some. congruence. }
      unfold g at 2. rewrite Hsel, !map_app, map_map, <- !app_assoc.
      reflexivity.
Qed.

Lemma select_update_same (P : elem -> bool) (p : path) (f : node -> node)
  (d : node) :
  (forall n, lookup p d = Some n -> select P (f n) = select P n) ->
  select P (update p f d) = select P d.
Proof.
  intros H. destruct (lookup p d) as [n|] eqn:Hn.
  - destruct (select_splice P p d n Hn) as (b & a & _ & Hsel).
    rewrite Hsel, (H n eq_refl).
    pose proof (Hsel (fun x => x)) as E. rewrite update_id in E.
    now rewrite E.
  - now rewrite update_nowhere.
Qed.

Lemma select_update_nil (P : elem -> bool) (p : path) (f : node -> node)
  (d : node) :
  select P d = [] ->
  (forall n, select P n = [] -> select P (f n) = []) ->
  select P (update p f d) = [].
Proof.
  intros Hd H. destruct (lookup p d) as [n|] eqn:Hn.
  - destruct (select_splice P p d n Hn) as (b & a & _ & Hsel).
    pose proof (Hsel (fun x => x)) as E. rewrite update_id, Hd in E.
    symmetry in E. apply app_eq_nil in E as [-> E].
    apply app_eq_nil in E as [E ->]. apply map_eq_nil in E.
    now rewrite Hsel, (H n E).
  - now rewrite update_nowhere.
Qed.

(** The first match stays the first match when only its own subtree is
    rewritten and it still matches. *)
Lemma first_update_first (P : elem -> bool) (p : path) (f : node -> node)
  (d n : node) :
  hd_error (select P d) = Some p ->
  lookup p d = Some n ->
  hd_error (select P (f n)) = Some [] ->
  hd_error (select P (update p f d)) = Some p.
Proof.
  intros Hhd Hn Hf.
  destruct (select_splice P p d n Hn) as (b & a & Hb & Hsel).
  pose proof (Hsel (fun x => x)) as E. rewrite update_id in E.
  rewrite E in Hhd. destruct b as [|q b].
  - rewrite Hsel. simpl.
    destruct (select P (f n)) as [|r l]; [discriminate|].
    injection Hf as ->. simpl. now rewrite app_nil_r.
  - simpl in Hhd. injection Hhd as ->. exfalso. apply Hb. now left.
Qed.

Lemma select_onElem (P : elem -> bool) (g : elem -> elem) (n : node) :
  (forall e, P (g e) = P e) -> select P (onElem g n) = select P n.
Proof. intros H. destruct n as [s | e ks]; simpl; [|rewrite H]; reflexivity. Qed.

Lemma select_appendKids (P : elem -> bool) (e : elem) (ks new : list node) :
  select P (Elem e (ks ++ new))
  = select P (Elem e ks)
    ++ indexed (fun i k => map (cons i) (select P k)) (length ks) new.
Proof. simpl. now rewrite indexed_app, app_assoc. Qed.

Lemma byId_update_onElem (i : string) (p : path) (g : elem -> elem) (d : node) :
  (forall e, attrs (g e) = attrs e) ->
  byId i (update p (onElem g) d) = byId i d.
Proof.
  intros H. unfold byId. f_equal. apply select_update_same.
  intros n _. apply select_onElem. intros e. unfold hasId, attr. now rewrite H.
Qed.

(** ** Rewriting by place *)

Lemma imap_ext {A B : Type} (f g : nat -> A -> B) (i : nat) (l : list A) :
  (forall j a, nth_error l j = Some a -> f (i + j) a = g (i + j) a) ->
  imap f i l = imap g i l.
Proof.
  revert i; induction l as [|a l IH]; intros i H; simpl; [reflexivity|].
  f_equal.
  - specialize (H 0 a eq_refl). now rewrite Nat.add_0_r in H.
  - apply IH. intros j b Hj. specialize (H (S j) b Hj).
    now replace (S i + j) with (i + S j) by lia.
Qed.

Lemma imap_map {A B : Type} (f : A -> B) (i : nat) (l : list A) :
  imap (fun _ a => f a) i l = map f l.
Proof. revert i; induction l as [|a l IH]; intros i; simpl; f_equal; auto. Qed.

Lemma imap_imap {A B C : Type} (f : nat -> A -> B) (g : nat -> B -> C)
  (i : nat) (l : list A) :
  imap g i (imap f i l) = imap (fun j a => g j (f j a)) i l.
Proof. revert i; induction l as [|a l IH]; intros i; simpl; f_equal; auto. Qed.

Lemma nth_error_imap {A B : Type} (f : nat -> A -> B) (i j : nat)
  (l : list A) :
  nth_error (imap f i l) j = option_map (f (i + j)) (nth_error l j).
Proof.
  revert i j; induction l as [|a l IH]; intros i [|j]; simpl; auto.
  - now rewrite Nat.add_0_r.
  - rewrite IH. now replace (S i + j) with (i + S j) by lia.
Qed.

Lemma imap_update_nth {A : Type} (f : nat -> A -> A) (h : A -> A) (i k : nat)
  (l : list A) :
  update_nth k h (imap f i l)
  = imap (fun j a => if Nat.eqb j (i + k) then h (f j a) else f j a) i l.
Proof.
  revert i k; induction l as [|a l IH]; intros i k;
    [now destruct k|].
  destruct k as [|k]; simpl.
  - rewrite Nat.add_0_r, Nat.eqb_refl. f_equal.
    apply imap_ext. intros j b _.
    assert (Nat.eqb (S i + j) i = false) as -> by (apply Nat.eqb_neq; lia).
    reflexivity.
  - assert (Nat.eqb i (i + S k) = false) as -> by (apply Nat.eqb_neq; lia).
    f_equal. rewrite IH. apply imap_ext. intros j b _.
    now replace (S i + k) with (i + S k) by lia.
Qed.

Lemma pathMap_ext (F G : path -> elem -> elem) (n : node) :
  (forall q e, elemAt q n = Some e -> F q e = G q e) ->
  pathMap F n = pathMap G n.
Proof.
  revert F G; induction n as [t | e ks IH] using node_ind'; intros F G H;
    simpl; [reflexivity|].
  f_equal; [apply (H [] e); reflexivity|].
  apply imap_ext. intros j k Hk. simpl.
  rewrite Forall_forall in IH. apply (IH k (nth_error_In _ _ Hk)).
  intros q e' He'. apply H. unfold elemAt in *. simpl. now rewrite Hk.
Qed.

Lemma mapElems_pathMap (f : elem -> elem) (n : node) :
  mapElems f n = pathMap (fun _ => f) n.
Proof.
  induction n as [t | e ks IH] using node_ind'; simpl; [reflexivity|].
  f_equal. rewrite <- (imap_map (mapElems f) 0). apply imap_ext.
  intros j k Hk. rewrite Forall_forall in IH.
  apply (IH k (nth_error_In _ _ Hk)).
Qed.

Lemma pathMap_pathMap (F G : path -> elem -> elem) (n : node) :
  pathMap G (pathMap F n) = pathMap (fun q e => G q (F q e)) n.
Proof.
  revert F G; induction n as [t | e ks IH] using node_ind'; intros F G;
    simpl; [reflexivity|].
  f_equal. rewrite imap_imap. apply imap_ext. intros j k Hk.
  rewrite Forall_forall in IH. apply (IH k (nth_error_In _ _ Hk)).
Qed.

Lemma update_pathMap (p : path) (g : elem -> elem) (F : path -> elem -> elem)
  (n : node) :
  update p (onElem g) (pathMap F n)
  = pathMap (fun q e => if samePath q p then g (F q e) else F q e) n.
Proof.
  revert F n; induction p as [|i p IH]; intros F n.
  - destruct n as [t | e ks]; reflexivity.
  - destruct n as [t | e ks]; simpl; [reflexivity|].
    f_equal. rewrite imap_update_nth. apply imap_ext. intros j k _. simpl.
    destruct (Nat.eqb_spec j i) as [-> | Hne].
    + rewrite IH. apply pathMap_ext. intros q e' _. unfold samePath. simpl.
      now rewrite Nat.eqb_refl.
    + apply pathMap_ext. intros q e' _. unfold samePath. simpl.
      assert (Nat.eqb i j = false) as -> by (apply Nat.eqb_neq; congruence).
      reflexivity.
Qed.

Lemma elemAt_pathMap (F : path -> elem -> elem) (q : path) (n : node) :
  elemAt q (pathMap F n) = option_map (F q) (elemAt q n).
Proof.
  unfold elemAt. revert F n; induction q as [|j q IH]; intros F n.
  - destruct n; reflexivity.
  - destruct n as [t | e ks]; simpl; [reflexivity|].
    rewrite nth_error_imap. destruct (nth_error ks j) as [k|]; simpl;
      [|reflexivity].
    apply (IH (fun q => F (j :: q))).
Qed.

Lemma indexed_imap {A B C : Type} (f : nat -> B -> list C) (g : nat -> A -> B)
  (i : nat) (l : list A) :
  indexed f i (imap g i l) = indexed (fun j a => f j (g j a)) i l.
Proof.
  revert i; induction l as [|a l IH]; intros i; simpl; [|rewrite IH]; auto.
Qed.

Lemma select_pathMap (P : elem -> bool) (F : path -> elem -> elem) (n : node) :
  (forall q e, P (F q e) = P e) -> select P (pathMap F n) = select P n.
Proof.
  revert F; induction n as [t | e ks IH] using node_ind'; intros F H; simpl.
  - reflexivity.
  - rewrite H. f_equal. rewrite indexed_imap. apply indexed_ext.
    eapply Forall_impl; [|exact IH]. simpl. intros k Hk j. rewrite Hk; auto.
Qed.

Lemma byId_pathMap (i : string) (F : path -> elem -> elem) (d : node) :
  (forall q e, attrs (F q e) = attrs e) -> byId i (pathMap F d) = byId i d.
Proof.
  intros H. unfold byId. rewrite select_pathMap; [reflexivity|].
  intros q e. unfold hasId, attr. now rewrite H.
Qed.

Lemma mapElems_of_pathMap (f : elem -> elem) (F : path -> elem -> elem)
  (n : node) :
  (forall q e, f (F q e) = f e) -> mapElems f (pathMap F n) = mapElems f n.
Proof.
  intros H. rewrite !mapElems_pathMap, pathMap_pathMap.
  apply pathMap_ext. intros q e _. apply H.
Qed.

Lemma pathMap_id (F : path -> elem -> elem) (n : node) :
  (forall q e, elemAt q n = Some e -> F q e = e) -> pathMap F n = n.
Proof.
  intros H. transitivity (pathMap (fun _ e => e) n).
  - now apply pathMap_ext.
  - rewrite <- mapElems_pathMap. clear H.
    induction n as [t | e ks IH] using node_ind'; simpl; [reflexivity|].
    f_equal. rewrite <- (map_id ks) at 2. apply map_ext_in.
    intros k Hk. rewrite Forall_forall in IH. now apply IH.
Qed.

(** * The popup script *)

Section Claims.
Context {platform : Platform}.

(** ** The monad *)

Lemma adds_ret {A : Type} (Q : effect -> Prop) (a : A) (s : popup) :
  adds Q (ret a) s.
Proof. exists [], []. simpl. now rewrite !app_nil_r. Qed.

Lemma adds_bind {A B : Type} (Q : effect -> Prop) (m : M A) (k : A -> M B)
  (s : popup) :
  adds Q m s -> (forall a s', adds Q (k a) s') -> adds Q (bind m k) s.
Proof.
  intros (es & ps & E1 & E2 & F1 & F2) Hk. unfold adds, bind in *.
  destruct (m s) as [[a|] s']; simpl in *.
  - destruct (Hk a s') as (es' & ps' & E1' & E2' & F1' & F2').
    exists (es ++ es'), (ps ++ ps').
    rewrite E1', E2', E1, E2, <- !app_assoc.
    repeat split; auto using Forall_app; apply Forall_app; auto.
  - exists es, ps. auto.
Qed.

Lemma adds_domOnly {A : Type} (Q : effect -> Prop) (m : M A) (s : popup) :
  domOnly m s -> adds Q m s.
Proof.
  intros (a & d' & E). exists [], []. rewrite E. simpl.
  now rewrite !app_nil_r.
Qed.

Lemma adds_deref {A : Type} (Q : effect -> Prop) (o : option A) (s : popup) :
  adds Q (deref o) s.
Proof. exists [], []. destruct o; simpl; now rewrite !app_nil_r. Qed.

Lemma adds_request (Q : effect -> Prop) (e : effect) (s : popup) :
  Q e -> adds Q (request e) s.
Proof. intros H. exists [e], [e]. simpl. auto. Qed.

Lemma adds_emit (Q : effect -> Prop) (e : effect) (s : popup) :
  Q e -> adds Q (emit e) s.
Proof. intros H. exists [e], []. simpl. rewrite app_nil_r. auto. Qed.

Lemma adds_forEach {A : Type} (Q : effect -> Prop) (l : list A)
  (body : A -> M unit) (s : popup) :
  (forall a s', In a l -> adds Q (body a) s') -> adds Q (forEach l body) s.
Proof.
  revert s; induction l as [|a l IH]; intros s H; simpl.
  - apply adds_ret.
  - apply adds_bind; [apply H; now left|]. intros _ s'. apply IH.
    intros b s'' Hb. apply H. now right.
Qed.

Lemma domOnly_ret {A : Type} (a : A) (s : popup) : domOnly (ret a) s.
Proof. exists a, (doc s). now destruct s. Qed.

Lemma domOnly_bind {A B : Type} (m : M A) (k : A -> M B) (s : popup) :
  domOnly m s -> (forall a s', domOnly (k a) s') -> domOnly (bind m k) s.
Proof.
  intros (a & d' & E) Hk. unfold domOnly, bind. rewrite E.
  destruct (Hk a (mkPopup d' (sent s) (pending s))) as (b & d'' & E').
  exists b, d''. exact E'.
Qed.

Lemma domOnly_modifyDoc (f : node -> node) (s : popup) :
  domOnly (modifyDoc f) s.
Proof. now exists tt, (f (doc s)). Qed.

Lemma domOnly_getDoc (s : popup) : domOnly getDoc s.
Proof. exists (doc s), (doc s). now destruct s. Qed.

Lemma domOnly_jqId (i : string) (s : popup) : domOnly (jqId i) s.
Proof. exists (byId i (doc s)), (doc s). now destruct s. Qed.

Lemma domOnly_jqDo (t : jq) (f : node -> node) (s : popup) :
  domOnly (jqDo t f) s.
Proof.
  destruct t; [apply domOnly_modifyDoc | apply domOnly_ret].
Qed.

Lemma domOnly_jqAll (P : elem -> bool) (f : elem -> elem) (s : popup) :
  domOnly (jqAll P f) s.
Proof. apply domOnly_modifyDoc. Qed.

Lemma domOnly_appendTo (t : jq) (n : node) (s : popup) :
  domOnly (appendTo t n) s.
Proof.
  destruct t as [p|]; simpl; [|apply domOnly_ret].
  apply domOnly_bind; [apply domOnly_getDoc|]. intros d s'.
  destruct (elemAt p d); [|apply domOnly_ret].
  apply domOnly_bind; [apply domOnly_modifyDoc|]. intros; apply domOnly_ret.
Qed.

Lemma domOnly_forEach {A : Type} (l : list A) (body : A -> M unit)
  (s : popup) :
  (forall a s', In a l -> domOnly (body a) s') -> domOnly (forEach l body) s.
Proof.
  revert s; induction l as [|a l IH]; intros s H; simpl.
  - apply domOnly_ret.
  - apply domOnly_bind; [apply H; now left|]. intros _ s'. apply IH.
    intros b s'' Hb. apply H. now right.
Qed.

Create HintDb popup.
#[local] Hint Resolve domOnly_ret domOnly_modifyDoc domOnly_getDoc
  domOnly_jqId domOnly_jqDo domOnly_jqAll domOnly_appendTo : popup.
#[local] Hint Resolve adds_ret adds_deref adds_domOnly : popup.

(** ** The click handlers *)

Lemma addEventsClick_run (s : popup) :
  addEventsClick s
  = (Returned tt,
     mkPopup (tabSwitch "add-events" "events" (doc s)) (sent s) (pending s)).
Proof.
  unfold addEventsClick, tabSwitch, bind, jqAll, jqId, jqDo, modifyDoc. simpl.
  destruct (byId "add-events" _); simpl; destruct (byId "events" _);
    reflexivity.
Qed.

Lemma viewAgendaClick_run (s : popup) :
  viewAgendaClick s
  = (Returned tt,
     mkPopup (tabSwitch "view_agenda" "agenda" (doc s)) (sent s) (pending s)).
Proof.
  unfold viewAgendaClick, tabSwitch, bind, jqAll, jqId, jqDo, modifyDoc. simpl.
  destruct (byId "view_agenda" _); simpl; destruct (byId "agenda" _);
    reflexivity.
Qed.

Lemma adds_runHandler (this : path) (h : handler) (s : popup) :
  adds allowed (runHandler this h) s.
Proof.
  destruct h; simpl.
  - apply adds_domOnly. eexists _, _. apply addEventsClick_run.
  - apply adds_domOnly. eexists _, _. apply viewAgendaClick_run.
  - apply adds_request. simpl. auto.
  - unfold eventDivClick. apply adds_bind; [auto with popup|].
    intros d s'. now apply adds_emit.
Qed.

Lemma adds_click (t : jq) (s : popup) : adds allowed (click t) s.
Proof.
  destruct t as [p|]; unfold click; [|auto with popup].
  apply adds_bind; [auto with popup|]. intros d s'.
  destruct (elemAt p d); [|auto with popup].
  apply adds_forEach. intros; apply adds_runHandler.
Qed.


(** ** Every operation of the file only makes allowed calls *)

Ltac adds_step :=
  match goal with
  | |- adds _ (bind _ _) _ => apply adds_bind; [|intros ? ?]
  | |- adds _ (forEach _ _) _ => apply adds_forEach; intros ? ? ?
  | |- adds _ (request _) _ => apply adds_request; simpl; auto
  | |- adds _ (sendMessage _ _) _ => apply adds_request; simpl; auto 6
  | |- adds _ (emit _) _ => apply adds_emit; simpl; auto
  | |- adds _ (click _) _ => apply adds_click
  | |- adds _ (if ?b then _ else _) _ => destruct b
  | |- adds _ (match ?o with Some _ => _ | None => _ end) _ => destruct o
  | |- adds _ _ _ => solve [auto with popup]
  end.

Lemma adds_fillMessages_ (s : popup) : adds allowed fillMessages_ s.
Proof. unfold fillMessages_, each. repeat adds_step. Qed.

Lemma adds_installTabStripClickHandlers_ (s : popup) :
  adds allowed installTabStripClickHandlers_ s.
Proof. unfold installTabStripClickHandlers_. repeat adds_step. Qed.

Lemma adds_installButtonClickHandlers_ (s : popup) :
  adds allowed installButtonClickHandlers_ s.
Proof. unfold installButtonClickHandlers_. repeat adds_step. Qed.

Lemma adds_badgeTextCallback (text : string) (s : popup) :
  adds allowed (badgeTextCallback text) s.
Proof. unfold badgeTextCallback. repeat adds_step. Qed.

Lemma adds_detectedEventsCallback (evs : option (list CalendarEvent))
  (s : popup) :
  adds allowed (detectedEventsCallback evs) s.
Proof. unfold detectedEventsCallback. repeat adds_step. Qed.

Lemma adds_feedLoop (events : list FeedEvent) (last : option moment)
  (s : popup) :
  adds allowed (feedLoop events last) s.
Proof.
  revert last s; induction events as [|event rest IH]; intros last s; simpl.
  - auto with popup.
  - repeat adds_step.
Qed.

Lemma adds_initialize (s : popup) : adds allowed initialize s.
Proof.
  unfold initialize.
  pose proof adds_fillMessages_. pose proof adds_installTabStripClickHandlers_.
  pose proof adds_installButtonClickHandlers_.
  unfold showLoginMessageIfNotAuthenticated_, showDetectedEvents_.
  repeat adds_step; auto 6.
Qed.


Lemma Forall_remove_nth {A : Type} (Q : A -> Prop) (i : nat) (l : list A) :
  Forall Q l -> Forall Q (remove_nth i l).
Proof.
  intros H; revert i; induction H as [|a l Ha Hl IH]; intros [|i]; simpl;
    auto.
Qed.

Lemma allowed_after {A : Type} (m : M A) (s : popup) :
  adds allowed m s ->
  Forall allowed (sent s) -> Forall allowed (pending s) ->
  Forall allowed (sent (exec m s)) /\ Forall allowed (pending (exec m s)).
Proof.
  intros (es & ps & E1 & E2 & F1 & F2) Hs Hp. unfold exec.
  rewrite E1, E2. split; apply Forall_app; auto.
Qed.

Lemma adds_runCallback (cb : callback) (r : response) (m : M unit)
  (s : popup) :
  runCallback cb r = Some m -> adds allowed m s.
Proof.
  destruct cb, r; simpl; intros E; try discriminate; injection E as <-.
  - apply adds_feedLoop.
  - apply adds_detectedEventsCallback.
  - apply adds_badgeTextCallback.
Qed.

Lemma allowed_react (i : input) (s s' : popup) :
  Forall allowed (sent s) -> Forall allowed (pending s) ->
  react i s = Some s' ->
  Forall allowed (sent s') /\ Forall allowed (pending s').
Proof.
  intros Hs Hp. destruct i as [k r | p]; cbn [react].
  - destruct (nth_error (pending s) k) as [e|]; [|discriminate].
    destruct (callbackOf e) as [cb|]; [|discriminate].
    destruct (runCallback cb r) as [m|] eqn:Hm; [|discriminate].
    intros E; injection E as <-. apply allowed_after; simpl; auto.
    + eapply adds_runCallback; eauto.
    + now apply Forall_remove_nth.
  - intros E; injection E as <-. apply allowed_after; auto.
    apply (adds_click (Some p)).
Qed.

Lemma allowed_run (inputs : list input) (s s' : popup) :
  Forall allowed (sent s) -> Forall allowed (pending s) ->
  run inputs s = Some s' ->
  Forall allowed (sent s') /\ Forall allowed (pending s').
Proof.
  revert s; induction inputs as [|i rest IH]; intros s Hs Hp; simpl.
  - intros E; injection E as <-. auto.
  - destruct (react i s) as [s1|] eqn:Hr; [|discriminate].
    destruct (allowed_react _ _ _ Hs Hp Hr). now apply IH.
Qed.

(** C8: whatever the page and whatever happens after it loads, every call
    the popup has made is a sendMessage with method 'events.feed.get',
    'events.feed.fetch' or 'events.detected.get', a getBadgeText or a
    tabs.create; and event data reaches the popup only as the answer to one
    of those three messages: a feed answer goes to a pending
    'events.feed.get' or 'events.feed.fetch' request, a detected-events
    answer to a pending 'events.detected.get' request. *)
Theorem events_come_only_from_background (page : node) (inputs : list input)
  (s : popup) :
  run inputs (load page) = Some s ->
  Forall allowed (sent s)
  /\ forall k r s',
      react (Answer k r) s = Some s' ->
      match r with
      | FeedEvents _ =>
          exists m,
            nth_error (pending s) k = Some (SendMessage m ShowEventsFromFeed)
            /\ (m = "events.feed.get" \/ m = "events.feed.fetch")
      | DetectedEvents _ =>
          nth_error (pending s) k
          = Some (SendMessage "events.detected.get" DetectedEventsCallback)
      | BadgeText _ =>
          nth_error (pending s) k = Some (GetBadgeText BadgeTextCallback)
      end.
Proof.
  intros Hrun.
  assert (H0 : Forall allowed (sent (load page))
               /\ Forall allowed (pending (load page))).
  { apply allowed_after; simpl; auto. apply adds_initialize. }
  destruct H0 as [H1 H2].
  destruct (allowed_run _ _ _ H1 H2 Hrun) as [Hs Hp]. split; [exact Hs|].
  intros k r s' Hr. cbn [react] in Hr.
  destruct (nth_error (pending s) k) as [e|] eqn:Hk; [|discriminate].
  assert (He : allowed e).
  { rewrite Forall_forall in Hp. apply Hp. eapply nth_error_In; eauto. }
  destruct e as [m cb | cb | u]; simpl in Hr, He.
  - destruct He as [[-> ->] | [[-> ->] | [-> ->]]], r; simpl in Hr;
      try discriminate; eauto.
  - subst cb. destruct r; simpl in Hr; try discriminate. reflexivity.
  - discriminate.
Qed.


Lemma byId_mapElems (i : string) (f : elem -> elem) (d : node) :
  (forall e, attrs (f e) = attrs e) -> byId i (mapElems f d) = byId i d.
Proof.
  intros H. unfold byId. f_equal. apply select_mapElems.
  intros e. unfold hasId, attr. now rewrite H.
Qed.

(** C2: when the badge text is exactly "?", the callback hides every tab
    container, shows the error element and sends 'events.feed.fetch' with
    showEventsFromFeed_ as its callback; for every other badge text it shows
    the tab containers, hides the error element and sends nothing. *)
Theorem badge_text_branches (text : string) (s : popup) :
  let s' := exec (badgeTextCallback text) s in
  let unauthorized := text =? "?" in
  (forall p e,
      elemAt p (doc s) = Some e -> hasClass "tab-container" e = true ->
      byId "error" (doc s) <> Some p ->
      option_map displayed (elemAt p (doc s')) = Some (negb unauthorized))
  /\ (forall p,
         byId "error" (doc s) = Some p ->
         option_map displayed (elemAt p (doc s')) = Some unauthorized)
  /\ sent s'
     = sent s ++ (if unauthorized
                  then [SendMessage "events.feed.fetch" ShowEventsFromFeed]
                  else [])
  /\ pending s'
     = pending s ++ (if unauthorized
                     then [SendMessage "events.feed.fetch" ShowEventsFromFeed]
                     else [])
  /\ (text = "?" <-> unauthorized = true).
Proof.
  intros s' unauthorized. subst s'. unfold badgeTextCallback, exec.
  fold unauthorized.
  assert (Hid : forall f, (f = hide \/ f = show) ->
            byId "error"
              (mapElems (fun e => if hasClass "tab-container" e then f e else e)
                        (doc s))
            = byId "error" (doc s)).
  { intros f Hf. apply byId_mapElems.
    intros e. destruct (hasClass "tab-container" e); [|reflexivity].
    destruct Hf as [-> | ->]; reflexivity. }
  assert (Hiff : text = "?" <-> unauthorized = true)
    by (symmetry; apply String.eqb_eq).
  clearbody unauthorized.
  destruct unauthorized;
    unfold bind, jqAll, jqId, jqDo, sendMessage, request, modifyDoc, ret;
    simpl; rewrite Hid by auto;
    (destruct (byId "error" (doc s)) as [q|] eqn:Hq; simpl;
     (split; [|split; [|split; [|split; [|exact Hiff]]]]));
    try (rewrite app_nil_r; reflexivity); try reflexivity;
    try (intros p Hp; discriminate).
  all: try (intros p e He Hc Hne;
            try rewrite elemAt_update_other by congruence;
            rewrite elemAt_mapElems, He; simpl; now rewrite Hc).
  all: intros p Hp; injection Hp as <-;
    destruct (byId_sound _ _ _ Hq) as (e & He & _);
    rewrite elemAt_update_same, elemAt_mapElems, He; reflexivity.
Qed.


(** ** Operations that only rewrite the document *)

Lemma keeps_domOnly {A : Type} (I : node -> Prop) (m : M A) (s : popup) :
  keeps I m s -> domOnly m s.
Proof. intros (a & d' & E & _). now exists a, d'. Qed.

Lemma keeps_ret {A : Type} (I : node -> Prop) (a : A) (s : popup) :
  I (doc s) -> keeps I (ret a) s.
Proof. intros H. exists a, (doc s). now destruct s. Qed.

Lemma keeps_bind {A B : Type} (I J : node -> Prop) (m : M A) (k : A -> M B)
  (s : popup) :
  keeps I m s ->
  (forall a s', sent s' = sent s -> pending s' = pending s -> I (doc s') ->
                fst (m s) = Returned a -> keeps J (k a) s') ->
  keeps J (bind m k) s.
Proof.
  intros (a & d' & E & HI) Hk. unfold keeps, bind. rewrite E.
  destruct (Hk a (mkPopup d' (sent s) (pending s))) as (b & d'' & E' & HJ);
    auto.
  { now rewrite E. }
  exists b, d''. auto.
Qed.

Lemma keeps_modifyDoc (I : node -> Prop) (f : node -> node) (s : popup) :
  I (f (doc s)) -> keeps I (modifyDoc f) s.
Proof. intros H. now exists tt, (f (doc s)). Qed.

Lemma keeps_forEach {A : Type} (I : node -> Prop) (l : list A)
  (body : A -> M unit) (s : popup) :
  (forall a s', In a l -> I (doc s') -> keeps I (body a) s') ->
  I (doc s) -> keeps I (forEach l body) s.
Proof.
  revert s; induction l as [|a l IH]; intros s H HI; simpl.
  - now apply keeps_ret.
  - apply keeps_bind with (I := I); [apply H; auto; now left|].
    intros _ s' _ _ HI' _. apply IH; auto.
    intros b s'' Hb. apply H. now right.
Qed.

(** Where every iteration returns normally, the loop is a fold. *)
Lemma forEach_fold {A : Type} (l : list A) (body : A -> M unit) (s : popup) :
  (forall a s', In a l -> fst (body a s') = Returned tt) ->
  forEach l body s = (Returned tt, fold_left (fun s a => exec (body a) s) l s).
Proof.
  revert s; induction l as [|a l IH]; intros s H; simpl; [reflexivity|].
  unfold bind, exec. pose proof (H a s (or_introl eq_refl)) as Ha.
  destruct (body a s) as [o s']. simpl in Ha. subst o. simpl.
  apply IH. intros b s'' Hb. apply H. now right.
Qed.

(** ** [fillMessages_] on a page whose localised elements have ids *)

Lemma bound_mapElems (f : elem -> elem) (d : node) :
  (forall e, clickHandlers (f e) = clickHandlers e) ->
  bound (mapElems f d) = bound d.
Proof. intros H. apply select_mapElems. intros e. now rewrite H. Qed.

Lemma fillMessages_keeps_bound (s : popup) :
  i18nIds (doc s) = true -> bound (doc s) = [] ->
  keeps (fun d => bound d = []) fillMessages_ s.
Proof.
  intros Hids Hb. unfold fillMessages_, each.
  apply keeps_bind with (I := fun d => bound d = []).
  - unfold bind, getDoc. simpl.
    apply keeps_forEach; [|exact Hb]. intros this s' Hin Hb'.
    unfold i18nIds in Hids. rewrite forallb_forall in Hids.
    specialize (Hids this Hin).
    destruct (elemAt this (doc s)) as [e|]; [|now apply keeps_ret].
    destruct (attr "id" e) as [i|]; [|discriminate].
    unfold bind, deref.
    destruct (tagName e =? "IMG"); apply keeps_modifyDoc;
      apply select_update_nil; auto.
    + intros n Hn. rewrite select_onElem; auto.
    + intros [t | e' ks] Hn; [reflexivity|]. simpl in *.
      destruct (clickHandlers e'); [reflexivity | discriminate].
  - intros _ s' _ _ Hb' _. apply keeps_modifyDoc. rewrite bound_mapElems; auto.
    intros e. now destruct (hasAttr "data-href" "calendar_ui_url" e).
Qed.

(** ** Click handlers and clicks *)

Lemma runHandler_run (this : path) (h : handler) (s : popup) :
  runHandler this h s
  = (Returned tt,
     mkPopup (handlerDoc h (doc s))
             (sent s ++ handlerCalls this h (doc s))
             (pending s ++ handlerPending h)).
Proof.
  destruct h; simpl.
  - now rewrite addEventsClick_run, !app_nil_r.
  - now rewrite viewAgendaClick_run, !app_nil_r.
  - reflexivity.
  - unfold eventDivClick, bind, getDoc, emit. simpl. now rewrite app_nil_r.
Qed.

Lemma click_run (p : path) (s : popup) :
  click (Some p) s
  = (Returned tt,
     match elemAt p (doc s) with
     | Some _ => afterHandlers (clickChain p (doc s)) s
     | None => s
     end).
Proof.
  unfold click, bind, getDoc. simpl.
  destruct (elemAt p (doc s)); [|reflexivity].
  rewrite forEach_fold.
  - f_equal. unfold afterHandlers. generalize (clickChain p (doc s)).
    intros l; revert s. induction l as [|th l IH]; intros s; simpl.
    + reflexivity.
    + unfold exec at 2. rewrite runHandler_run. apply IH.
  - intros th s' _. now rewrite runHandler_run.
Qed.

Lemma click_none (s : popup) : click None s = (Returned tt, s).
Proof. reflexivity. Qed.

(** ** The tab handlers *)

Lemma samePath_refl (p : path) : samePath p p = true.
Proof. unfold samePath. now rewrite isPrefix_refl. Qed.

Lemma samePath_neq (q p : path) : q <> p -> samePath q p = false.
Proof.
  intros H. unfold samePath.
  destruct (isPrefix p q) eqn:H1, (isPrefix q p) eqn:H2; auto.
  exfalso. apply H. symmetry. now apply isPrefix_antisym.
Qed.

Lemma hasId_inj (i j : string) (e : elem) :
  hasId i e = true -> hasId j e = true -> i = j.
Proof.
  unfold hasId. destruct (attr "id" e) as [k|]; [|discriminate].
  rewrite !String.eqb_eq. congruence.
Qed.

Lemma byId_distinct (i j : string) (d : node) (p q : path) :
  byId i d = Some p -> byId j d = Some q -> i <> j -> p <> q.
Proof.
  intros Hp Hq Hne ->.
  destruct (byId_sound _ _ _ Hp) as (e & He & Hi).
  destruct (byId_sound _ _ _ Hq) as (e' & He' & Hj).
  rewrite He in He'. injection He' as <-. eauto using hasId_inj.
Qed.

Lemma hasClass_removeClass (c : string) (e : elem) :
  hasClass c (removeClass c e) = false.
Proof.
  unfold hasClass, removeClass. simpl.
  induction (classes e) as [|c' l IH]; simpl; [reflexivity|].
  destruct (c =? c') eqn:E; simpl; [exact IH | now rewrite E].
Qed.

Lemma hasClass_removeClass_other (c c' : string) (e : elem) :
  c <> c' -> hasClass c (removeClass c' e) = hasClass c e.
Proof.
  intros Hne. unfold hasClass, removeClass. simpl.
  induction (classes e) as [|x l IH]; simpl; [reflexivity|].
  destruct (c' =? x) eqn:E; simpl; [|now rewrite IH].
  apply String.eqb_eq in E as <-.
  apply String.eqb_neq in Hne. now rewrite Hne.
Qed.

Lemma hasClass_addClass (c : string) (e : elem) :
  hasClass c (addClass c e) = true.
Proof.
  unfold addClass. destruct (hasClass c e) eqn:E.
  - exact E.
  - unfold hasClass. simpl. rewrite existsb_app. simpl.
    now rewrite String.eqb_refl, orb_true_r.
Qed.

Lemma hasClass_addClass_other (c c' : string) (e : elem) :
  c <> c' -> hasClass c (addClass c' e) = hasClass c e.
Proof.
  intros Hne. unfold addClass. destruct (hasClass c' e); [reflexivity|].
  unfold hasClass. simpl. rewrite existsb_app. simpl.
  apply String.eqb_neq in Hne. now rewrite Hne, !orb_false_r.
Qed.

Lemma switched_attrs (a b : bool) (e : elem) : attrs (switched a b e) = attrs e.
Proof.
  unfold switched. destruct a, b, (hasClass "selected" e);
    repeat match goal with |- context [if ?c then _ else _] => destruct c end;
    reflexivity.
Qed.

Lemma switched_handlers (a b : bool) (e : elem) :
  clickHandlers (switched a b e) = clickHandlers e.
Proof.
  unfold switched. destruct a, b, (hasClass "selected" e);
    repeat match goal with |- context [if ?c then _ else _] => destruct c end;
    reflexivity.
Qed.

Lemma switched_tab (a b : bool) (e : elem) :
  hasClass "tab" (switched a b e) = hasClass "tab" e.
Proof.
  assert (H : forall x, hasClass "tab"
                (if hasClass "selected" x then removeClass "selected" x else x)
              = hasClass "tab" x).
  { intros x. destruct (hasClass "selected" x); [|reflexivity].
    now apply hasClass_removeClass_other. }
  unfold switched.
  set (e1 := if hasClass "selected" e then removeClass "selected" e else e).
  assert (H2 : hasClass "tab" (if hasClass "tab" e1 then hide e1 else e1)
               = hasClass "tab" e).
  { rewrite <- (H e). fold e1. destruct (hasClass "tab" e1) eqn:E; exact E. }
  set (e2 := if hasClass "tab" e1 then hide e1 else e1) in *.
  assert (H3 : hasClass "tab" (if a then addClass "selected" e2 else e2)
               = hasClass "tab" e).
  { destruct a; [|exact H2]. now rewrite hasClass_addClass_other. }
  now destruct b.
Qed.

Lemma switched_selected (a b : bool) (e : elem) :
  hasClass "selected" (switched a b e) = a.
Proof.
  unfold switched.
  set (e1 := if hasClass "selected" e then removeClass "selected" e else e).
  assert (H1 : hasClass "selected" e1 = false).
  { subst e1. destruct (hasClass "selected" e) eqn:E; [|exact E].
    apply hasClass_removeClass. }
  set (e2 := if hasClass "tab" e1 then hide e1 else e1).
  assert (H2 : hasClass "selected" e2 = false).
  { subst e2. now destruct (hasClass "tab" e1). }
  destruct a, b; simpl; auto using hasClass_addClass.
  apply (hasClass_addClass "selected" e2).
Qed.

Lemma switched_displayed (a b : bool) (e : elem) :
  hasClass "tab" e = true -> displayed (switched a b e) = b.
Proof.
  intros Ht. unfold switched.
  set (e1 := if hasClass "selected" e then removeClass "selected" e else e).
  assert (H1 : hasClass "tab" e1 = true).
  { subst e1. destruct (hasClass "selected" e); [|exact Ht].
    now rewrite hasClass_removeClass_other. }
  rewrite H1. destruct b; [reflexivity|].
  destruct a; [|reflexivity]. unfold addClass. simpl. reflexivity.
Qed.

(** The tab handler, element by element. *)
Lemma elemAt_tabSwitch (tab pane : string) (d : node) (pt pp q : path) :
  byId tab d = Some pt -> byId pane d = Some pp ->
  elemAt q (tabSwitch tab pane d)
  = option_map (switched (samePath q pt) (samePath q pp)) (elemAt q d).
Proof.
  intros Ht Hp. unfold tabSwitch.
  set (rm := fun e => if hasClass "selected" e
                      then removeClass "selected" e else e).
  set (hd := fun e => if hasClass "tab" e then hide e else e).
  assert (Hrm : forall e, attrs (rm e) = attrs e)
    by (intros e; unfold rm; now destruct (hasClass "selected" e)).
  assert (Hhd : forall e, attrs (hd e) = attrs e)
    by (intros e; unfold hd; now destruct (hasClass "tab" e)).
  rewrite !byId_mapElems, Ht by auto.
  rewrite byId_update_onElem, !byId_mapElems, Hp by auto.
  rewrite !elemAt_update_onElem, !elemAt_mapElems.
  fold (samePath q pp) (samePath q pt).
  destruct (elemAt q d) as [e|]; simpl.
  - unfold switched. fold (rm e) (hd (rm e)).
    now destruct (samePath q pt), (samePath q pp).
  - now destruct (samePath q pt), (samePath q pp).
Qed.

Lemma byId_tabSwitch (tab pane i : string) (d : node) :
  byId i (tabSwitch tab pane d) = byId i d.
Proof.
  unfold tabSwitch.
  set (rm := fun e => if hasClass "selected" e
                      then removeClass "selected" e else e).
  set (hd := fun e => if hasClass "tab" e then hide e else e).
  assert (Hrm : forall e, attrs (rm e) = attrs e)
    by (intros e; unfold rm; now destruct (hasClass "selected" e)).
  assert (Hhd : forall e, attrs (hd e) = attrs e)
    by (intros e; unfold hd; now destruct (hasClass "tab" e)).
  set (d2 := mapElems hd (mapElems rm d)).
  assert (H2 : byId i d2 = byId i d)
    by (unfold d2; now rewrite !byId_mapElems).
  destruct (byId tab d2) as [pt|].
  - destruct (byId pane _) as [pp|];
      now rewrite ?byId_update_onElem by auto.
  - now destruct (byId pane d2) as [pp|]; rewrite ?byId_update_onElem by auto.
Qed.

Lemma handlersAt_mapElems (f : elem -> elem) (q : path) (d : node) :
  (forall e, clickHandlers (f e) = clickHandlers e) ->
  handlersAt q (mapElems f d) = handlersAt q d.
Proof.
  intros H. unfold handlersAt. rewrite elemAt_mapElems.
  destruct (elemAt q d); simpl; auto.
Qed.

Lemma handlersAt_update_onElem (g : elem -> elem) (p q : path) (d : node) :
  (forall e, clickHandlers (g e) = clickHandlers e) ->
  handlersAt q (update p (onElem g) d) = handlersAt q d.
Proof.
  intros H. unfold handlersAt. rewrite elemAt_update_onElem.
  destruct (isPrefix p q && isPrefix q p), (elemAt q d); simpl; auto.
Qed.

Lemma handlersAt_tabSwitch (tab pane : string) (q : path) (d : node) :
  handlersAt q (tabSwitch tab pane d) = handlersAt q d.
Proof.
  unfold tabSwitch.
  set (rm := fun e => if hasClass "selected" e
                      then removeClass "selected" e else e).
  set (hd := fun e => if hasClass "tab" e then hide e else e).
  assert (Hrm : forall e, clickHandlers (rm e) = clickHandlers e)
    by (intros e; unfold rm; now destruct (hasClass "selected" e)).
  assert (Hhd : forall e, clickHandlers (hd e) = clickHandlers e)
    by (intros e; unfold hd; now destruct (hasClass "tab" e)).
  set (d2 := mapElems hd (mapElems rm d)).
  assert (H2 : handlersAt q d2 = handlersAt q d)
    by (unfold d2; now rewrite !handlersAt_mapElems).
  destruct (byId tab d2) as [pt|].
  - destruct (byId pane _) as [pp|];
      now rewrite ?handlersAt_update_onElem by auto.
  - now destruct (byId pane d2) as [pp|];
      rewrite ?handlersAt_update_onElem by auto.
Qed.

Lemma tabsAt_of_tabPage (d : node) :
  tabPage d = true -> exists pa pv pe pg, tabsAt d pa pv pe pg.
Proof.
  unfold tabPage, tabsAt.
  destruct (byId "add-events" d) as [pa|]; [|discriminate].
  destruct (byId "view_agenda" d) as [pv|]; [|discriminate].
  destruct (flag (hasClass "tab") "events" d) as [[|]|] eqn:He;
    try discriminate.
  destruct (flag (hasClass "tab") "agenda" d) as [[|]|] eqn:Hg;
    try discriminate.
  intros _. unfold flag in *.
  destruct (byId "events" d) as [pe|]; [|discriminate].
  destruct (byId "agenda" d) as [pg|]; [|discriminate].
  exists pa, pv, pe, pg. auto 10.
Qed.

Lemma flag_tab_tabSwitch (tab pane i : string) (d : node) (pt pp : path) :
  byId tab d = Some pt -> byId pane d = Some pp ->
  flag (hasClass "tab") i (tabSwitch tab pane d) = flag (hasClass "tab") i d.
Proof.
  intros Ht Hp. unfold flag. rewrite byId_tabSwitch.
  destruct (byId i d) as [q|]; [|reflexivity].
  rewrite (elemAt_tabSwitch _ _ _ _ _ _ Ht Hp).
  destruct (elemAt q d); simpl; [|reflexivity]. now rewrite switched_tab.
Qed.

Lemma handlerDoc_tabsAt (h : handler) (d : node) (pa pv pe pg : path) :
  tabsAt d pa pv pe pg -> tabsAt (handlerDoc h d) pa pv pe pg.
Proof.
  intros (Ha & Hv & He & Hg & Te & Tg).
  destruct h; simpl; try (repeat split; assumption); unfold tabsAt;
    rewrite !byId_tabSwitch;
    erewrite !flag_tab_tabSwitch by eassumption; auto 10.
Qed.

(** A tab handler leaves its own tab selected and its own pane shown, and
    the other tab and pane not. *)
Lemma tabSwitch_view (d : node) (pa pv pe pg : path) :
  tabsAt d pa pv pe pg ->
  tabView (tabSwitch "add-events" "events" d) = Some Detected
  /\ tabView (tabSwitch "view_agenda" "agenda" d) = Some Agenda.
Proof.
  intros (Ha & Hv & He & Hg & Te & Tg).
  assert (Nav : pa <> pv) by (eapply byId_distinct; eauto; discriminate).
  assert (Nae : pa <> pe) by (eapply byId_distinct; eauto; discriminate).
  assert (Nag : pa <> pg) by (eapply byId_distinct; eauto; discriminate).
  assert (Nve : pv <> pe) by (eapply byId_distinct; eauto; discriminate).
  assert (Nvg : pv <> pg) by (eapply byId_distinct; eauto; discriminate).
  assert (Neg : pe <> pg) by (eapply byId_distinct; eauto; discriminate).
  destruct (byId_sound _ _ _ Ha) as (ea & Ea & _).
  destruct (byId_sound _ _ _ Hv) as (ev & Ev & _).
  unfold flag in Te, Tg. rewrite He in Te. rewrite Hg in Tg.
  destruct (elemAt pe d) as [ee|] eqn:Ee; [|discriminate].
  destruct (elemAt pg d) as [eg|] eqn:Eg; [|discriminate].
  simpl in Te, Tg. injection Te as Te. injection Tg as Tg.
  split; unfold tabView, flag; rewrite !byId_tabSwitch, Ha, Hv, He, Hg.
  - rewrite !(elemAt_tabSwitch _ _ _ _ _ _ Ha He), Ea, Ev, Ee, Eg. simpl.
    rewrite !switched_selected, !switched_displayed by assumption.
    rewrite !samePath_refl, !samePath_neq by congruence. reflexivity.
  - rewrite !(elemAt_tabSwitch _ _ _ _ _ _ Hv Hg), Ea, Ev, Ee, Eg. simpl.
    rewrite !switched_selected, !switched_displayed by assumption.
    rewrite !samePath_refl, !samePath_neq by congruence. reflexivity.
Qed.

Lemma lastTab_acc (hs : list handler) (t : option tab) :
  lastTab hs t
  = match lastTab hs None with
    | Some x => Some x
    | None => t
    end.
Proof.
  revert t; induction hs as [|h hs IH]; intros t; simpl; [reflexivity|].
  destruct h; auto; rewrite (IH (Some _)); now destruct (lastTab hs None).
Qed.

Lemma clickChain_handlers (p : path) (d d' : node) :
  (forall q, handlersAt q d' = handlersAt q d) ->
  clickChain p d' = clickChain p d.
Proof.
  intros H. unfold clickChain. apply flat_map_ext. intros q. now rewrite H.
Qed.

Lemma handlersAt_handlerDoc (h : handler) (q : path) (d : node) :
  handlersAt q (handlerDoc h d) = handlersAt q d.
Proof. destruct h; simpl; auto using handlersAt_tabSwitch. Qed.

Lemma byId_handlerDoc (h : handler) (i : string) (d : node) :
  byId i (handlerDoc h d) = byId i d.
Proof. destruct h; simpl; auto using byId_tabSwitch. Qed.

Lemma selects_handlerDoc (h : handler) (i : string) (d : node) :
  selects i (handlerDoc h d) = selects i d.
Proof.
  unfold selects. rewrite byId_handlerDoc.
  destruct (byId i d); [|reflexivity].
  now rewrite (clickChain_handlers _ d)
    by (intros; apply handlersAt_handlerDoc).
Qed.

(** After the handlers of a click, the view is the one the last tab
    handler among them chose; the page keeps its tabs and its wiring. *)
Lemma afterHandlers_view (chain : list (path * handler)) (s : popup)
  (pa pv pe pg : path) :
  tabsAt (doc s) pa pv pe pg ->
  let s' := afterHandlers chain s in
  tabsAt (doc s') pa pv pe pg
  /\ wired (doc s') = wired (doc s)
  /\ tabView (doc s')
     = match lastTab (map snd chain) None with
       | Some t => Some t
       | None => tabView (doc s)
       end.
Proof.
  revert s; induction chain as [|[q h] chain IH]; intros s Ht; simpl.
  - auto.
  - set (s1 := mkPopup (handlerDoc h (doc s)) _ _).
    assert (Ht1 : tabsAt (doc s1) pa pv pe pg)
      by now apply handlerDoc_tabsAt.
    destruct (IH s1 Ht1) as (H1 & H2 & H3).
    fold (afterHandlers chain s1).
    split; [exact H1|]. split.
    + rewrite H2. unfold wired. simpl. now rewrite !selects_handlerDoc.
    + rewrite H3. simpl.
      destruct (tabSwitch_view _ _ _ _ _ Ht) as [VA VV].
      destruct h; simpl; auto; rewrite (lastTab_acc (map snd chain) (Some _));
        destruct (lastTab (map snd chain) None); auto.
Qed.

Lemma afterHandlers_quiet (chain : list (path * handler)) (s : popup) :
  Forall (fun th => isTabHandler (snd th) = true) chain ->
  sent (afterHandlers chain s) = sent s
  /\ pending (afterHandlers chain s) = pending s.
Proof.
  intros H; revert s; induction H as [|[q h] chain Hh _ IH]; intros s; simpl.
  - auto.
  - fold (afterHandlers chain
            (mkPopup (handlerDoc h (doc s))
                     (sent s ++ handlerCalls q h (doc s))
                     (pending s ++ handlerPending h))).
    destruct (IH (mkPopup (handlerDoc h (doc s))
                     (sent s ++ handlerCalls q h (doc s))
                     (pending s ++ handlerPending h))) as [-> ->].
    simpl in *. destruct h; try discriminate; simpl; now rewrite !app_nil_r.
Qed.

(** Clicking a tab of a wired page. *)
Lemma click_tab_view (t : tab) (s : popup) (pa pv pe pg : path) :
  tabsAt (doc s) pa pv pe pg -> wired (doc s) = true ->
  let s' := exec (click (byId (tabId t) (doc s))) s in
  tabsAt (doc s') pa pv pe pg /\ wired (doc s') = true
  /\ tabView (doc s') = Some t.
Proof.
  intros Ht Hw s'. subst s'.
  assert (Hsel : selects (tabId t) (doc s) = Some t).
  { unfold wired in Hw.
    destruct (selects "add-events" (doc s)) as [[|]|] eqn:E1;
      try discriminate.
    destruct (selects "view_agenda" (doc s)) as [[|]|] eqn:E2;
      try discriminate.
    now destruct t. }
  unfold selects in Hsel.
  destruct (byId (tabId t) (doc s)) as [p|] eqn:Hp; [|discriminate].
  unfold exec. rewrite click_run.
  destruct (byId_sound _ _ _ Hp) as (e & He & _). rewrite He. simpl.
  destruct (afterHandlers_view (clickChain p (doc s)) s _ _ _ _ Ht)
    as (H1 & H2 & H3).
  rewrite H2, H3, Hsel. auto.
Qed.

(** ** [installTabStripClickHandlers_] *)

Lemma installTabStripClickHandlers_run (s : popup) :
  installTabStripClickHandlers_ s
  = (Returned tt,
     let s2 := mkPopup (tabsBound (doc s)) (sent s) (pending s) in
     match byId "view_agenda" (doc s) with
     | Some p => afterHandlers (clickChain p (doc s2)) s2
     | None => s2
     end).
Proof.
  unfold installTabStripClickHandlers_, tabsBound, bind, jqId. simpl.
  set (d1 := match byId "add-events" (doc s) with
             | Some p => update p (onElem (onClick AddEventsClick)) (doc s)
             | None => doc s
             end).
  assert (E1 : snd (jqDo (byId "add-events" (doc s))
                         (onElem (onClick AddEventsClick)) s)
               = mkPopup d1 (sent s) (pending s)).
  { subst d1. destruct (byId "add-events" (doc s)); simpl; [reflexivity|].
    now destruct s. }
  assert (E0 : fst (jqDo (byId "add-events" (doc s))
                         (onElem (onClick AddEventsClick)) s) = Returned tt)
    by now destruct (byId "add-events" (doc s)).
  destruct (jqDo (byId "add-events" (doc s)) _ s) as [o s1]. simpl in *.
  subst o s1. simpl.
  assert (Hv : byId "view_agenda" d1 = byId "view_agenda" (doc s)).
  { subst d1. destruct (byId "add-events" (doc s)); [|reflexivity].
    now apply byId_update_onElem. }
  rewrite Hv. destruct (byId "view_agenda" (doc s)) as [p|] eqn:Hp; simpl.
  - rewrite click_run. simpl. rewrite elemAt_update_same.
    destruct (byId_sound _ _ _ Hv) as (e & -> & _). reflexivity.
  - reflexivity.
Qed.

Lemma handlersAt_onClick (p q : path) (h : handler) (d : node) :
  handlersAt q (update p (onElem (onClick h)) d)
  = if samePath q p
    then match elemAt q d with
         | Some e => clickHandlers e ++ [h]
         | None => []
         end
    else handlersAt q d.
Proof.
  unfold handlersAt. rewrite elemAt_update_onElem. fold (samePath q p).
  destruct (samePath q p); [|reflexivity]. now destruct (elemAt q d).
Qed.

Lemma handlersAt_unbound (q : path) (d : node) :
  bound d = [] -> handlersAt q d = [].
Proof.
  intros Hb. unfold handlersAt. destruct (elemAt q d) as [e|] eqn:He; auto.
  destruct (clickHandlers e) as [|h hs] eqn:Hh; [reflexivity|].
  assert (Hin : In q (bound d)).
  { apply in_select. exists e. now rewrite Hh. }
  rewrite Hb in Hin. destruct Hin.
Qed.

Lemma elemAt_unbound (q : path) (d : node) (e : elem) :
  bound d = [] -> elemAt q d = Some e -> clickHandlers e = [].
Proof.
  intros Hb He. pose proof (handlersAt_unbound q d Hb) as H.
  unfold handlersAt in H. now rewrite He in H.
Qed.

(** On a page without handlers, binding the tab handlers leaves tab
    handlers only. *)
Lemma tabsBound_handlers (q : path) (d : node) :
  bound d = [] ->
  Forall (fun h => isTabHandler h = true) (handlersAt q (tabsBound d)).
Proof.
  intros Hb. unfold tabsBound.
  set (d1 := match byId "add-events" d with
             | Some p => update p (onElem (onClick AddEventsClick)) d
             | None => d
             end).
  assert (H1 : forall q', Forall (fun h => isTabHandler h = true)
                                 (handlersAt q' d1)).
  { intros q'. subst d1. destruct (byId "add-events" d) as [p|].
    - rewrite handlersAt_onClick. destruct (samePath q' p).
      + destruct (elemAt q' d) as [e|] eqn:He; [|constructor].
        rewrite (elemAt_unbound _ _ _ Hb He). simpl. auto.
      + rewrite handlersAt_unbound by assumption. constructor.
    - rewrite handlersAt_unbound by assumption. constructor. }
  destruct (byId "view_agenda" d1) as [p|]; [|apply H1].
  rewrite handlersAt_onClick. destruct (samePath q p); [|apply H1].
  specialize (H1 q). unfold handlersAt in H1.
  destruct (elemAt q d1); [|constructor].
  apply Forall_app. split; [exact H1 | now constructor].
Qed.

Lemma clickChain_tabHandlers (p : path) (d : node) :
  (forall q, Forall (fun h => isTabHandler h = true) (handlersAt q d)) ->
  Forall (fun th => isTabHandler (snd th) = true) (clickChain p d).
Proof.
  intros H. unfold clickChain. apply Forall_forall. intros [q h] Hin.
  apply in_flat_map in Hin as (q' & _ & Hin).
  apply in_map_iff in Hin as (h' & E & Hh). injection E as <- <-.
  specialize (H q'). rewrite Forall_forall in H. now apply H.
Qed.

Lemma installTabStripClickHandlers_quiet (s : popup) :
  bound (doc s) = [] ->
  exists d',
    installTabStripClickHandlers_ s
    = (Returned tt, mkPopup d' (sent s) (pending s)).
Proof.
  intros Hb. rewrite installTabStripClickHandlers_run. simpl.
  destruct (byId "view_agenda" (doc s)) as [p|]; [|eauto].
  set (s2 := mkPopup (tabsBound (doc s)) (sent s) (pending s)).
  destruct (afterHandlers_quiet (clickChain p (tabsBound (doc s))) s2)
    as [E1 E2].
  { apply clickChain_tabHandlers. intros q. now apply tabsBound_handlers. }
  exists (doc (afterHandlers (clickChain p (tabsBound (doc s))) s2)).
  destruct (afterHandlers _ s2) as [d' se pe]. simpl in *. now subst.
Qed.

Lemma bubble_spec (p : path) :
  exists l,
    bubble p = p :: l /\ forall q, In q l -> isPrefix q p = true /\ q <> p.
Proof.
  induction p as [|i p (l & E & H)]; simpl.
  - exists []. split; [reflexivity | intros q []].
  - rewrite E. simpl. exists (map (cons i) l ++ [[]]). split; [reflexivity|].
    intros q Hq. apply in_app_iff in Hq as [Hq | [<- | []]].
    + apply in_map_iff in Hq as (q' & <- & Hq').
      destruct (H q' Hq') as [H1 H2]. simpl. rewrite Nat.eqb_refl, H1.
      split; [reflexivity | congruence].
    + split; [reflexivity | discriminate].
Qed.

(** On a page without handlers whose tabs are apart, binding the tab
    handlers wires the page. *)
Lemma tabsBound_wired (d : node) (pa pv pe pg : path) :
  tabsAt d pa pv pe pg -> bound d = [] -> tabsApart d = true ->
  tabsAt (tabsBound d) pa pv pe pg /\ wired (tabsBound d) = true.
Proof.
  intros (Ha & Hv & He & Hg & Te & Tg) Hb Hapart.
  unfold tabsApart in Hapart. rewrite Ha, Hv in Hapart.
  apply andb_true_iff in Hapart as [Hav Hva].
  apply negb_true_iff in Hav, Hva.
  assert (Nav : pa <> pv) by (eapply byId_distinct; eauto; discriminate).
  assert (Eb : tabsBound d
               = update pv (onElem (onClick ViewAgendaClick))
                   (update pa (onElem (onClick AddEventsClick)) d)).
  { unfold tabsBound. rewrite Ha, byId_update_onElem, Hv by auto.
    reflexivity. }
  assert (Hid : forall i, byId i (tabsBound d) = byId i d).
  { intros i. now rewrite Eb, !byId_update_onElem by auto. }
  assert (Hh : forall q,
             handlersAt q (tabsBound d)
             = if samePath q pv then [ViewAgendaClick]
               else if samePath q pa then [AddEventsClick] else []).
  { intros q. rewrite Eb, !handlersAt_onClick, elemAt_update_onElem.
    fold (samePath q pa).
    destruct (samePath q pv) eqn:Ev.
    - assert (q = pv) as ->.
      { unfold samePath in Ev. apply andb_true_iff in Ev as [X Y].
        now apply isPrefix_antisym. }
      rewrite (samePath_neq pv pa) by congruence.
      destruct (byId_sound _ _ _ Hv) as (e & Ee & _). rewrite Ee.
      now rewrite (elemAt_unbound _ _ _ Hb Ee).
    - destruct (samePath q pa) eqn:Ea.
      + assert (q = pa) as ->.
        { unfold samePath in Ea. apply andb_true_iff in Ea as [X Y].
          now apply isPrefix_antisym. }
        destruct (byId_sound _ _ _ Ha) as (e & Ee & _). rewrite Ee.
        now rewrite (elemAt_unbound _ _ _ Hb Ee).
      + now apply handlersAt_unbound. }
  assert (Hflag : forall i, flag (hasClass "tab") i (tabsBound d)
                            = flag (hasClass "tab") i d).
  { intros i. unfold flag. rewrite Hid. destruct (byId i d) as [q|]; auto.
    rewrite Eb, !elemAt_update_onElem.
    destruct (isPrefix pv q && isPrefix q pv),
      (isPrefix pa q && isPrefix q pa), (elemAt q d); reflexivity. }
  split.
  - unfold tabsAt. rewrite !Hid, !Hflag. auto 10.
  - unfold wired, selects, clickChain. rewrite !Hid, Ha, Hv.
    destruct (bubble_spec pa) as (la & -> & Hla).
    destruct (bubble_spec pv) as (lv & -> & Hlv).
    assert (Hrest : forall l,
               (forall q, In q l -> q <> pa /\ q <> pv) ->
               flat_map (fun q => map (pair q) (handlersAt q (tabsBound d))) l
               = []).
    { intros l Hl. induction l as [|q l IH]; simpl; auto.
      rewrite IH by (intros; apply Hl; now right).
      rewrite app_nil_r, Hh.
      destruct (Hl q (or_introl eq_refl)) as [Hq1 Hq2].
      now rewrite !samePath_neq by assumption. }
    simpl. rewrite !Hrest, !Hh, !samePath_refl.
    + rewrite (samePath_neq pa pv) by assumption. reflexivity.
    + intros q Hq. destruct (Hlv q Hq) as [H1 H2]. split; [|exact H2].
      intros ->. congruence.
    + intros q Hq. destruct (Hla q Hq) as [H1 H2]. split; [exact H2|].
      intros ->. congruence.
Qed.

(** ** [initialize] *)

Lemma installButtonClickHandlers_run (s : popup) :
  installButtonClickHandlers_ s
  = (Returned tt, mkPopup (syncBound (doc s)) (sent s) (pending s)).
Proof.
  unfold installButtonClickHandlers_, syncBound, bind, jqId, jqDo. simpl.
  destruct (byId "sync_now" (doc s)); [reflexivity | now destruct s].
Qed.

Lemma load_run (page : node) :
  i18nIds page = true -> bound page = [] ->
  bound (filled page) = []
  /\ fillMessages_ (mkPopup page [] [])
     = (Returned tt, mkPopup (filled page) [] [])
  /\ load page
     = mkPopup
         (syncBound
            (doc (exec installTabStripClickHandlers_
                       (mkPopup (filled page) [] []))))
         initialRequests initialRequests.
Proof.
  intros Hids Hb.
  destruct (fillMessages_keeps_bound (mkPopup page [] []) Hids Hb)
    as ([] & d1 & E1 & Hb1).
  assert (Ef : filled page = d1) by (unfold filled, exec; now rewrite E1).
  rewrite Ef. split; [exact Hb1|]. split; [exact E1|].
  destruct (installTabStripClickHandlers_quiet (mkPopup d1 [] []) Hb1)
    as (d2 & E2).
  unfold load, exec, initialize, bind. rewrite E1. simpl in *. rewrite E2.
  rewrite installButtonClickHandlers_run. reflexivity.
Qed.

Lemma badgeTextCallback_sent (text : string) (s : popup) :
  sent (exec (badgeTextCallback text) s)
  = sent s ++ (if text =? "?"
               then [SendMessage "events.feed.fetch" ShowEventsFromFeed]
               else []).
Proof.
  unfold badgeTextCallback, exec.
  destruct (text =? "?");
    unfold bind, jqAll, jqId, jqDo, sendMessage, request, modifyDoc, ret;
    simpl;
    match goal with |- context [byId ?i ?d] => destruct (byId i d) end;
    simpl; now rewrite ?app_nil_r.
Qed.

(** C1, as amended: [initialize] itself sends exactly two messages,
    'events.detected.get' and then 'events.feed.get', and asks for the badge
    text; when the badge text arrives, a third message 'events.feed.fetch'
    is sent exactly when the text is "?". *)
Theorem initialize_messages (page : node) (text : string) :
  i18nIds page = true -> bound page = [] ->
  messages (load page) = ["events.detected.get"; "events.feed.get"]
  /\ pending (load page) = initialRequests
  /\ option_map messages (react (Answer 0 (BadgeText text)) (load page))
     = Some (["events.detected.get"; "events.feed.get"]
               ++ (if text =? "?" then ["events.feed.fetch"] else [])).
Proof.
  intros Hids Hb. destruct (load_run page Hids Hb) as (_ & _ & ->).
  split; [reflexivity|]. split; [reflexivity|].
  cbn [react pending nth_error initialRequests callbackOf runCallback
       option_map remove_nth doc sent].
  unfold messages. rewrite badgeTextCallback_sent. cbn [sent].
  rewrite flat_map_app. destruct (text =? "?"); reflexivity.
Qed.

(** ** The tabs *)

Lemma lastTab_app (xs ys : list handler) (t : option tab) :
  lastTab (xs ++ ys) t = lastTab ys (lastTab xs t).
Proof.
  revert t; induction xs as [|h xs IH]; intros t; simpl; [reflexivity|].
  destruct h; apply IH.
Qed.

Lemma flag_update_onElem (f : elem -> bool) (g : elem -> elem) (i : string)
  (p : path) (d : node) :
  (forall e, attrs (g e) = attrs e) -> (forall e, f (g e) = f e) ->
  flag f i (update p (onElem g) d) = flag f i d.
Proof.
  intros Ha Hf. unfold flag. rewrite byId_update_onElem by assumption.
  destruct (byId i d) as [q|]; [|reflexivity].
  rewrite elemAt_update_onElem.
  destruct (isPrefix p q && isPrefix q p), (elemAt q d); simpl; auto.
  now rewrite Hf.
Qed.

Lemma selects_syncBound (i : string) (d : node) :
  selects i (syncBound d) = selects i d.
Proof.
  unfold syncBound. destruct (byId "sync_now" d) as [p|]; [|reflexivity].
  unfold selects. rewrite byId_update_onElem by auto.
  destruct (byId i d) as [q|]; [|reflexivity].
  assert (H : forall r t,
             lastTab (handlersAt r (update p (onElem (onClick SyncNowClick)) d))
                     t
             = lastTab (handlersAt r d) t).
  { intros r t. rewrite handlersAt_onClick. unfold handlersAt.
    destruct (samePath r p); [|reflexivity].
    destruct (elemAt r d); [|reflexivity]. now rewrite lastTab_app. }
  unfold clickChain. generalize (@None tab). induction (bubble q) as [|r l IH];
    intros t; simpl; [reflexivity|].
  rewrite !map_app, !lastTab_app, !map_map. simpl. rewrite !map_id.
  now rewrite H, IH.
Qed.

Lemma syncBound_tabs (d : node) (pa pv pe pg : path) :
  tabsAt d pa pv pe pg ->
  tabsAt (syncBound d) pa pv pe pg
  /\ wired (syncBound d) = wired d
  /\ tabView (syncBound d) = tabView d.
Proof.
  intros Ht. split; [|split].
  - unfold syncBound. destruct (byId "sync_now" d) as [p|]; [|exact Ht].
    unfold tabsAt in *.
    now rewrite !byId_update_onElem, !flag_update_onElem by auto.
  - unfold wired. now rewrite !selects_syncBound.
  - unfold syncBound. destruct (byId "sync_now" d) as [p|]; [|reflexivity].
    unfold tabView. now rewrite !flag_update_onElem by auto.
Qed.

Lemma last_cons {A : Type} (a d : A) (l : list A) :
  last (a :: l) d = last l a.
Proof.
  revert a d; induction l as [|b l IH]; intros a d; [reflexivity|].
  change (last (a :: b :: l) d) with (last (b :: l) d).
  rewrite IH. symmetry. apply IH.
Qed.

Lemma clickTabs_view (clicks : list tab) (s : popup) (t0 : tab)
  (pa pv pe pg : path) :
  tabsAt (doc s) pa pv pe pg -> wired (doc s) = true ->
  tabView (doc s) = Some t0 ->
  tabView (doc (clickTabs clicks s)) = Some (last clicks t0).
Proof.
  revert s t0; induction clicks as [|t clicks IH]; intros s t0 Ht Hw Hv.
  - exact Hv.
  - rewrite last_cons. unfold clickTabs. simpl.
    destruct (click_tab_view t s _ _ _ _ Ht Hw) as (H1 & H2 & H3).
    now apply IH.
Qed.


(** ** [showEventsFromFeed_] *)

Lemma bind_run {A B : Type} (m : M A) (k : A -> M B) (s s' : popup) (a : A) :
  m s = (Returned a, s') -> bind m k s = k a s'.
Proof. intros E. unfold bind. now rewrite E. Qed.

(** The document with the subtree at [p] replaced. *)
Lemma update_replace (p r : path) (f : node -> node) (n : node) (d : node) :
  update (p ++ r) f (update p (fun _ => n) d)
  = update p (fun _ => update r f n) d.
Proof. now rewrite update_app, update_update. Qed.

Lemma lookup_replace (p r : path) (n n0 : node) (d : node) :
  lookup p d = Some n0 ->
  lookup (p ++ r) (update p (fun _ => n) d) = lookup r n.
Proof. intros H. now rewrite lookup_update_under, H. Qed.

Lemma update_last (e : elem) (ks : list node) (c : node) (r : path)
  (f : node -> node) :
  update (length ks :: r) f (Elem e (ks ++ [c]))
  = Elem e (ks ++ [update r f c]).
Proof. simpl. now rewrite update_nth_app_length. Qed.

Lemma lookup_last (e : elem) (ks : list node) (c : node) (r : path) :
  lookup (length ks :: r) (Elem e (ks ++ [c])) = lookup r c.
Proof.
  simpl. rewrite nth_error_app2, Nat.sub_diag by lia. reflexivity.
Qed.

Section Agenda.
Variables (d0 : node) (pg : path) (eg : elem) (ks0 : list node).
Hypothesis Hid : byId "agenda" d0 = Some pg.
Hypothesis Hlook : lookup pg d0 = Some (Elem eg ks0).


Lemma agenda_jqId (ks : list node) (se pe : list effect) :
  jqId "agenda" (withKids d0 pg eg ks se pe) = (Returned (Some pg), withKids d0 pg eg ks se pe).
Proof.
  unfold jqId, withKids. simpl. f_equal. f_equal. unfold byId.
  eapply first_update_first; eauto. simpl.
  destruct (byId_sound _ _ _ Hid) as (e & He & Hi).
  unfold elemAt in He. rewrite Hlook in He. injection He as <-.
  now rewrite Hi.
Qed.

Lemma withKids_appendTo (ks : list node) (se pe : list effect) (n : node) :
  appendTo (Some pg) n (withKids d0 pg eg ks se pe)
  = (Returned (Some (pg ++ [length ks])), withKids d0 pg eg (ks ++ [n]) se pe).
Proof.
  unfold appendTo, bind, getDoc, withKids, modifyDoc, ret. simpl.
  unfold elemAt, kidsAt. rewrite lookup_update, Hlook. simpl.
  now rewrite update_update.
Qed.

Lemma withKids_jqDo_below (ks : list node) (c : node) (r : path)
  (f : node -> node) (se pe : list effect) :
  jqDo (Some ((pg ++ [length ks]) ++ r)) f (withKids d0 pg eg (ks ++ [c]) se pe)
  = (Returned tt, withKids d0 pg eg (ks ++ [update r f c]) se pe).
Proof.
  unfold jqDo, modifyDoc, withKids. simpl.
  rewrite <- app_assoc, update_replace.
  change ([length ks] ++ r) with (length ks :: r). now rewrite update_last.
Qed.

Lemma withKids_appendTo_below (ks : list node) (c : node) (r : path)
  (e : elem) (kids : list node) (n : node) (se pe : list effect) :
  lookup r c = Some (Elem e kids) ->
  appendTo (Some ((pg ++ [length ks]) ++ r)) n (withKids d0 pg eg (ks ++ [c]) se pe)
  = (Returned (Some (((pg ++ [length ks]) ++ r) ++ [length kids])),
     withKids d0 pg eg (ks ++ [update r (appendKids [n]) c]) se pe).
Proof.
  intros Hc. unfold appendTo, bind, getDoc, withKids, modifyDoc, ret. simpl.
  unfold elemAt, kidsAt.
  rewrite <- (app_assoc pg), (lookup_replace _ _ _ _ _ Hlook).
  change ([length ks] ++ r) with (length ks :: r).
  rewrite lookup_last, Hc. simpl.
  now rewrite update_replace, update_last.
Qed.

Lemma withKids_jqDo_child (ks : list node) (c : node) (f : node -> node)
  (se pe : list effect) :
  jqDo (Some (pg ++ [length ks])) f (withKids d0 pg eg (ks ++ [c]) se pe)
  = (Returned tt, withKids d0 pg eg (ks ++ [f c]) se pe).
Proof.
  pose proof (withKids_jqDo_below ks c [] f se pe) as H.
  now rewrite app_nil_r in H.
Qed.

Lemma withKids_appendTo_child (ks : list node) (e : elem) (kids : list node)
  (n : node) (se pe : list effect) :
  appendTo (Some (pg ++ [length ks])) n
           (withKids d0 pg eg (ks ++ [Elem e kids]) se pe)
  = (Returned (Some ((pg ++ [length ks]) ++ [length kids])),
     withKids d0 pg eg (ks ++ [Elem e (kids ++ [n])]) se pe).
Proof.
  pose proof (withKids_appendTo_below ks (Elem e kids) [] e kids n se pe eq_refl)
    as H.
  now rewrite !app_nil_r in H.
Qed.

Lemma withKids_appendTo_grandchild (ks : list node) (e e2 : elem)
  (kids kk : list node) (n : node) (se pe : list effect) :
  appendTo (Some ((pg ++ [length ks]) ++ [length kids])) n
           (withKids d0 pg eg (ks ++ [Elem e (kids ++ [Elem e2 kk])]) se pe)
  = (Returned (Some (((pg ++ [length ks]) ++ [length kids]) ++ [length kk])),
     withKids d0 pg eg (ks ++ [Elem e (kids ++ [Elem e2 (kk ++ [n])])]) se pe).
Proof.
  rewrite (withKids_appendTo_below ks _ [length kids] e2 kk n se pe)
    by apply lookup_last.
  now rewrite update_last.
Qed.

Lemma bind_assoc {A B C : Type} (m : M A) (f : A -> M B) (k : B -> M C)
  (s : popup) :
  bind (bind m f) k s = bind m (fun a => bind (f a) k) s.
Proof. unfold bind. now destruct (m s) as [[a|] s']. Qed.

Ltac feed_step :=
  match goal with
  | |- bind (bind _ _) _ _ = _ => rewrite bind_assoc
  | |- bind (ret _) _ _ = _ => erewrite bind_run by reflexivity
  | |- bind (deref (Some _)) _ _ = _ => erewrite bind_run by reflexivity
  | |- bind (jqId _) _ _ = _ => erewrite bind_run by apply agenda_jqId
  | |- bind (jqDo _ _) _ _ = _ => erewrite bind_run by apply withKids_jqDo_child
  | |- bind (appendTo _ _) _ _ = _ =>
      first [ erewrite bind_run by apply withKids_appendTo
            | erewrite bind_run by apply withKids_appendTo_child
            | erewrite bind_run by apply withKids_appendTo_grandchild ]
  end.

Ltac feed_case :=
  match goal with
  | |- bind (deref ?o) _ _ = _ =>
      destruct o eqn:?; [|simpl in *; discriminate]
  | |- bind (if negb true then _ else _) _ _ = _ => cbn [negb]
  | |- bind (if ?c then _ else _) _ _ = _ => destruct c eqn:?
  end.

(** The loop appends what [renderFeed] describes, and throws exactly when
    the start of some event does not parse. *)
Lemma feedLoop_at (events : list FeedEvent) (last : option moment)
  (ks : list node) (se pe : list effect) :
  feedLoop events last (withKids d0 pg eg ks se pe)
  = (if forallb parses events then Returned tt else Threw,
     withKids d0 pg eg (ks ++ renderFeed events last) se pe).
Proof.
  revert last ks; induction events as [|ev rest IH]; intros last ks.
  - simpl. now rewrite app_nil_r.
  - cbn [feedLoop forallb renderFeed]. unfold parses at 1.
    destruct (fromIso8601 (start ev)) as [st|] eqn:Hst.
    + cbn [andb].
      destruct (fromIso8601 (end_ ev)) as [en|] eqn:Hen;
        repeat first [feed_step | feed_case];
        rewrite IH; unfold withKids, needsHeader, startOfDay, eventDiv,
          eventDetails, isAllDay, dateHeader, timesBlock in *;
        repeat match goal with
               | H : negb _ = true |- _ => apply negb_true_iff in H
               | H : negb _ = false |- _ => apply negb_false_iff in H
               end;
        repeat match goal with
               | H : _ = true |- _ => rewrite H
               | H : _ = false |- _ => rewrite H
               | H : location _ = _ |- _ => rewrite H
               end;
        simpl; rewrite <- ?app_assoc; reflexivity.
    + rewrite app_nil_r. destruct (fromIso8601 (end_ ev)).
      * reflexivity.
      * reflexivity.
Qed.

End Agenda.

Lemma showEventsFromFeed_run (events : list FeedEvent) (s : popup) (pg : path) :
  byId "agenda" (doc s) = Some pg ->
  showEventsFromFeed_ events s
  = (if forallb parses events then Returned tt else Threw,
     mkPopup (update pg (appendKids (renderFeed events None)) (doc s))
             (sent s) (pending s)).
Proof.
  intros Hid. destruct (byId_sound _ _ _ Hid) as (eg & He & _).
  unfold elemAt in He.
  destruct (lookup pg (doc s)) as [[t | eg' ks0]|] eqn:Hlook;
    try discriminate. injection He as ->.
  assert (Es : s = withKids (doc s) pg eg ks0 (sent s) (pending s)).
  { unfold withKids. destruct s as [d se pe]. simpl in *. f_equal.
    rewrite <- (update_id pg d) at 1. apply update_ext. congruence. }
  unfold showEventsFromFeed_. rewrite Es at 1.
  rewrite (feedLoop_at _ _ _ _ Hid Hlook). unfold withKids. do 2 f_equal.
  apply update_ext. intros n Hn. rewrite Hlook in Hn. now injection Hn as <-.
Qed.

Lemma kidsAt_appendKids (p : path) (new : list node) (d : node) (e : elem) :
  elemAt p d = Some e ->
  kidsAt p (update p (appendKids new) d) = kidsAt p d ++ new.
Proof.
  unfold elemAt, kidsAt. rewrite lookup_update.
  destruct (lookup p d) as [[t | e' ks]|]; simpl; try discriminate.
  reflexivity.
Qed.

(** What the agenda holds after [showEventsFromFeed_]. *)
Lemma showEventsFromFeed_kids (events : list FeedEvent) (s : popup)
  (pg : path) :
  byId "agenda" (doc s) = Some pg ->
  kidsAt pg (doc (exec (showEventsFromFeed_ events) s))
  = kidsAt pg (doc s) ++ renderFeed events None.
Proof.
  intros Hid. unfold exec. rewrite (showEventsFromFeed_run _ _ _ Hid). simpl.
  destruct (byId_sound _ _ _ Hid) as (eg & He & _).
  eapply kidsAt_appendKids; eauto.
Qed.

Lemma renderFeed_headers (events : list FeedEvent) (last : option moment) :
  map isHeader (renderFeed events last)
  = flat_map (fun h : bool => if h then [true; false] else [false])
             (headerPlan events last).
Proof.
  revert last; induction events as [|ev rest IH]; intros last; simpl.
  - reflexivity.
  - destruct (fromIso8601 (start ev)) as [st|]; [|reflexivity].
    destruct (needsHeader last (startOfDay st)); simpl; now rewrite IH.
Qed.

Lemma headerPlan_length (events : list FeedEvent) (last : option moment) :
  forallb parses events = true ->
  length (headerPlan events last) = length events.
Proof.
  revert last; induction events as [|ev rest IH]; intros last H; simpl in *.
  - reflexivity.
  - unfold parses in H at 1.
    destruct (fromIso8601 (start ev)) as [st|]; [|discriminate].
    simpl. now rewrite IH.
Qed.

(** C3, as amended: [showEventsFromFeed_] appends a date header before the
    first event and before each later event whose day starts more than 23
    hours after the day of the last header, and no header before the others;
    the variable that tracks the last header is function-scoped and keeps
    its value across iterations. *)
Theorem feed_headers (events : list FeedEvent) (s : popup) (pg : path) :
  byId "agenda" (doc s) = Some pg ->
  forallb parses events = true ->
  exists new,
    kidsAt pg (doc (exec (showEventsFromFeed_ events) s))
    = kidsAt pg (doc s) ++ new
    /\ map isHeader new
       = flat_map (fun h : bool => if h then [true; false] else [false])
                  (headerPlan events None)
    /\ length (headerPlan events None) = length events
    /\ hd_error (headerPlan events None)
       = match events with [] => None | _ :: _ => Some true end.
Proof.
  intros Hid Hp. exists (renderFeed events None).
  split; [now apply showEventsFromFeed_kids|].
  split; [apply renderFeed_headers|].
  split; [now apply headerPlan_length|].
  destruct events as [|ev rest]; [reflexivity|]. simpl in *.
  unfold parses in Hp at 1. now destruct (fromIso8601 (start ev)).
Qed.

(** On any platform, a second event whose day starts no more than 23 hours
    after the first one's is rendered without a header of its own. *)
Lemma second_event_under_same_header (ev1 ev2 : FeedEvent) (st1 st2 : moment)
  (s : popup) (pg : path) :
  byId "agenda" (doc s) = Some pg ->
  fromIso8601 (start ev1) = Some st1 -> fromIso8601 (start ev2) = Some st2 ->
  (diff (startOfDay st2) (startOfDay st1) "hours" <= 23)%Z ->
  kidsAt pg (doc (exec (showEventsFromFeed_ [ev1; ev2]) s))
  = kidsAt pg (doc s)
      ++ [dateHeader (startOfDay st1);
          eventDiv ev1 st1 (fromIso8601 (end_ ev1));
          eventDiv ev2 st2 (fromIso8601 (end_ ev2))].
Proof.
  intros Hid H1 H2 Hd. rewrite showEventsFromFeed_kids by assumption.
  simpl. rewrite H1, H2. simpl.
  assert ((23 <? diff (startOfDay st2) (startOfDay st1) "hours")%Z = false)
    as -> by (apply Z.ltb_ge; exact Hd).
  reflexivity.
Qed.

Lemma renderFeed_eventDivs (events : list FeedEvent) (last : option moment) :
  forallb parses events = true ->
  filter isEventDiv (renderFeed events last) = map eventDivOf events.
Proof.
  revert last; induction events as [|ev rest IH]; intros last H; simpl in *.
  - reflexivity.
  - unfold parses in H at 1. unfold eventDivOf at 1.
    destruct (fromIso8601 (start ev)) as [st|]; [|discriminate].
    destruct (needsHeader last (startOfDay st)); simpl; now rewrite IH.
Qed.

Lemma Forall2_map_r {A B : Type} (R : A -> B -> Prop) (f : A -> B)
  (l : list A) :
  (forall a, In a l -> R a (f a)) -> Forall2 R l (map f l).
Proof.
  induction l as [|a l IH]; intros H; simpl; constructor.
  - apply H. now left.
  - apply IH. intros b Hb. apply H. now right.
Qed.

(** The rendered nodes, event by event: the div of the event, with the
    date header of the event's own day right above it when the event gets
    one. *)
Lemma renderFeed_grouped (events : list FeedEvent) (last : option moment) :
  forallb parses events = true ->
  exists groups,
    renderFeed events last = concat groups
    /\ Forall2 (fun ev g =>
                  exists st,
                    fromIso8601 (start ev) = Some st
                    /\ (g = [eventDiv ev st (fromIso8601 (end_ ev))]
                        \/ g = [dateHeader (startOfDay st);
                                eventDiv ev st (fromIso8601 (end_ ev))]))
               events groups.
Proof.
  revert last; induction events as [|ev rest IH]; intros last H; simpl in *.
  - exists []. split; [reflexivity | constructor].
  - unfold parses in H at 1.
    destruct (fromIso8601 (start ev)) as [st|] eqn:Hst; [|discriminate].
    simpl in H.
    destruct (needsHeader last (startOfDay st)).
    + destruct (IH (Some (startOfDay st)) H) as (groups & E & HF).
      exists ([dateHeader (startOfDay st);
               eventDiv ev st (fromIso8601 (end_ ev))] :: groups).
      split; [simpl; now rewrite E|].
      constructor; [|exact HF]. exists st. auto.
    + destruct (IH last H) as (groups & E & HF).
      exists ([eventDiv ev st (fromIso8601 (end_ ev))] :: groups).
      split; [simpl; now rewrite E|].
      constructor; [|exact HF]. exists st. auto.
Qed.

(** C7: the start and end of every feed event go through
    [utils.fromIso8601]; what is appended is, event by event, the event's
    div, with a date header right above it when the event gets one; that
    header carries the day of this very event formatted with
    'dddd MMMM, D'; and for every event that is not all-day the start and
    end spans of its div carry its parsed start and end formatted with
    'h:mma'. *)
Theorem feed_formats (events : list FeedEvent) (s : popup) (pg : path) :
  byId "agenda" (doc s) = Some pg ->
  forallb parses events = true ->
  exists groups,
    kidsAt pg (doc (exec (showEventsFromFeed_ events) s))
    = kidsAt pg (doc s) ++ concat groups
    /\ Forall2 (fun ev g =>
                  exists st n,
                    fromIso8601 (start ev) = Some st
                    /\ (g = [n]
                        \/ exists h,
                            g = [h; n]
                            /\ isHeader h = true
                            /\ kidsOf h
                               = [Text (format
                                          (setSeconds 0
                                             (setMinutes 0 (setHours 0 st)))
                                          "dddd MMMM, D")])
                    /\ isHeader n = false
                    /\ isEventDiv n = true
                    /\ forall en,
                        fromIso8601 (end_ ev) = Some en ->
                        isAllDay st (Some en) = false ->
                        contents "start" n = [[Text (format st "h:mma")]]
                        /\ contents "end" n = [[Text (format en "h:mma")]])
               events groups.
Proof.
  intros Hid Hp.
  destruct (renderFeed_grouped events None Hp) as (groups & E & HF).
  exists groups. split; [rewrite <- E; now apply showEventsFromFeed_kids|].
  eapply Forall2_impl; [|exact HF]. cbv beta.
  intros ev g (st & Hst & Hg).
  exists st, (eventDiv ev st (fromIso8601 (end_ ev))).
  split; [exact Hst|]. split.
  - destruct Hg as [-> | ->]; [now left|].
    right. exists (dateHeader (startOfDay st)). auto.
  - split; [reflexivity|]. split; [reflexivity|].
    intros en Hen Hall.
    unfold eventDiv, eventDetails, contents. rewrite Hen, Hall.
    destruct (truthy (location ev)); [destruct (location ev)|]; split;
      reflexivity.
Qed.

(** C9: the start-and-end-times block is left out of an event exactly when
    the event is all-day, and an event is all-day exactly when its end is
    missing or its start and its end both have hours 0 and minutes 0. *)
Theorem feed_all_day (events : list FeedEvent) (s : popup) (pg : path) :
  byId "agenda" (doc s) = Some pg ->
  forallb parses events = true ->
  exists new,
    kidsAt pg (doc (exec (showEventsFromFeed_ events) s))
    = kidsAt pg (doc s) ++ new
    /\ Forall2 (fun ev n =>
                  exists st,
                    fromIso8601 (start ev) = Some st
                    /\ (select (hasClass "start-and-end-times") n = []
                        <-> isAllDay st (fromIso8601 (end_ ev)) = true)
                    /\ (isAllDay st (fromIso8601 (end_ ev)) = true
                        <-> fromIso8601 (end_ ev) = None
                            \/ exists en,
                                fromIso8601 (end_ ev) = Some en
                                /\ hours st = 0%Z /\ minutes st = 0%Z
                                /\ hours en = 0%Z /\ minutes en = 0%Z))
               events (filter isEventDiv new).
Proof.
  intros Hid Hp. exists (renderFeed events None).
  split; [now apply showEventsFromFeed_kids|].
  rewrite renderFeed_eventDivs by assumption.
  apply Forall2_map_r. intros ev Hin.
  rewrite forallb_forall in Hp. specialize (Hp ev Hin).
  unfold parses in Hp. unfold eventDivOf.
  destruct (fromIso8601 (start ev)) as [st|]; [|discriminate].
  exists st. split; [reflexivity|]. split.
  - unfold eventDiv, eventDetails.
    destruct (fromIso8601 (end_ ev)) as [en|].
    + destruct (isAllDay st (Some en));
        (destruct (truthy (location ev)); [destruct (location ev)|]);
        simpl; split; intros; try reflexivity; discriminate.
    + destruct (truthy (location ev)); [destruct (location ev)|];
        simpl; split; reflexivity.
  - destruct (fromIso8601 (end_ ev)) as [en|]; simpl.
    + rewrite !andb_true_iff, !Z.eqb_eq. split.
      * intros [[[H1 H2] H3] H4]. right. exists en. auto.
      * intros [H | (en' & E & H1 & H2 & H3 & H4)]; [discriminate|].
        injection E as <-. auto.
    + split; auto.
Qed.

(** ** Clicking the sync button and the rendered events *)

Lemma afterHandlers_app (c1 c2 : list (path * handler)) (s : popup) :
  afterHandlers (c1 ++ c2) s = afterHandlers c2 (afterHandlers c1 s).
Proof. unfold afterHandlers. apply fold_left_app. Qed.

Lemma afterHandlers_grows (chain : list (path * handler)) (s : popup) :
  exists es ps,
    sent (afterHandlers chain s) = sent s ++ es
    /\ pending (afterHandlers chain s) = pending s ++ ps.
Proof.
  revert s; induction chain as [|[q h] chain IH]; intros s.
  - exists [], []. simpl. now rewrite !app_nil_r.
  - change (afterHandlers ((q, h) :: chain) s)
      with (afterHandlers chain
              (mkPopup (handlerDoc h (doc s))
                       (sent s ++ handlerCalls q h (doc s))
                       (pending s ++ handlerPending h))).
    destruct (IH (mkPopup (handlerDoc h (doc s))
                       (sent s ++ handlerCalls q h (doc s))
                       (pending s ++ handlerPending h))) as (es & ps & E1 & E2).
    simpl in *. rewrite E1, E2, <- !app_assoc. eauto.
Qed.

Lemma clickChain_target (p : path) (d : node) :
  exists rest,
    clickChain p d = map (pair p) (handlersAt p d) ++ rest.
Proof.
  unfold clickChain. destruct (bubble_spec p) as (l & -> & _). simpl. eauto.
Qed.

Lemma renderFeed_eventDiv_handlers (events : list FeedEvent)
  (last : option moment) :
  Forall (fun n =>
            isEventDiv n = true ->
            exists e, rootElem n = Some e /\ clickHandlers e = [EventDivClick])
         (renderFeed events last).
Proof.
  revert last; induction events as [|ev rest IH]; intros last; simpl.
  - constructor.
  - destruct (fromIso8601 (start ev)) as [st|]; [|constructor].
    destruct (needsHeader last (startOfDay st)); repeat constructor;
      try apply IH; try discriminate; intros _; eexists; split; reflexivity.
Qed.

(** C5: after [installButtonClickHandlers_], a click on '#sync_now' sends
    'events.feed.fetch' with showEventsFromFeed_ as the callback that handles
    the answer; every event div rendered by [showEventsFromFeed_] carries its
    event's url as 'data-url', and a click on it opens a tab on that url. *)
Theorem click_handlers (events : list FeedEvent) (s : popup) (ps pg : path) :
  byId "sync_now" (doc s) = Some ps ->
  byId "agenda" (doc s) = Some pg ->
  forallb parses events = true ->
  (let s1 := exec installButtonClickHandlers_ s in
   exists before after,
     sent (exec (click (Some ps)) s1)
     = sent s ++ before
         ++ SendMessage "events.feed.fetch" ShowEventsFromFeed :: after
     /\ In (SendMessage "events.feed.fetch" ShowEventsFromFeed)
           (pending (exec (click (Some ps)) s1))
     /\ forall answer,
         runCallback ShowEventsFromFeed (FeedEvents answer)
         = Some (showEventsFromFeed_ answer))
  /\ (let s2 := exec (showEventsFromFeed_ events) s in
      exists new,
        kidsAt pg (doc s2) = kidsAt pg (doc s) ++ new
        /\ Forall2 (fun ev n => rootAttr "data-url" n = Some (url ev))
                   events (filter isEventDiv new)
        /\ forall k n,
            nth_error new k = Some n -> isEventDiv n = true ->
            exists after,
              sent (exec (click (Some (pg ++ [length (kidsAt pg (doc s)) + k])))
                         s2)
              = sent s2 ++ TabsCreate (rootAttr "data-url" n) :: after).
Proof.
  intros Hs Hg Hp. split.
  - intros s1. subst s1. unfold exec at 2 4.
    rewrite installButtonClickHandlers_run. simpl.
    unfold syncBound. rewrite Hs.
    set (d1 := update ps (onElem (onClick SyncNowClick)) (doc s)).
    set (s1 := mkPopup d1 (sent s) (pending s)).
    destruct (byId_sound _ _ _ Hs) as (e & He & _).
    assert (He1 : elemAt ps d1 = Some (onClick SyncNowClick e))
      by (unfold d1; now rewrite elemAt_update_same, He).
    unfold exec. rewrite click_run. simpl. rewrite He1.
    destruct (clickChain_target ps d1) as (rest & ->).
    unfold handlersAt. rewrite He1. simpl. rewrite map_app, <- app_assoc.
    rewrite !afterHandlers_app. simpl.
    destruct (afterHandlers_grows (map (pair ps) (clickHandlers e)) s1)
      as (es & qs & E1 & E2).
    set (s2 := afterHandlers (map (pair ps) (clickHandlers e)) s1) in *.
    set (s3 := mkPopup (doc s2)
                 (sent s2 ++ [SendMessage "events.feed.fetch" ShowEventsFromFeed])
                 (pending s2
                    ++ [SendMessage "events.feed.fetch" ShowEventsFromFeed])).
    destruct (afterHandlers_grows rest s3) as (es' & qs' & E1' & E2').
    exists es, es'. fold s3. rewrite E1', E2'. simpl. rewrite E1, E2. simpl.
    split; [now rewrite <- !app_assoc|]. split; [|reflexivity].
    rewrite !in_app_iff. left. right. now left.
  - intros s2. subst s2. exists (renderFeed events None).
    split; [now apply showEventsFromFeed_kids|]. split.
    + rewrite renderFeed_eventDivs by assumption.
      apply Forall2_map_r. intros ev Hin.
      rewrite forallb_forall in Hp. specialize (Hp ev Hin).
      unfold parses in Hp. unfold eventDivOf.
      now destruct (fromIso8601 (start ev)).
    + intros k n Hk Hn.
      pose proof (renderFeed_eventDiv_handlers events None) as Hh.
      rewrite Forall_forall in Hh.
      destruct (Hh n (nth_error_In _ _ Hk) Hn) as (e & He & Hc).
      destruct n as [t | e' kids]; [discriminate|]. injection He as ->.
      set (d2 := update pg (appendKids (renderFeed events None)) (doc s)).
      assert (Es2 : exec (showEventsFromFeed_ events) s
                    = mkPopup d2 (sent s) (pending s))
        by (unfold exec; now rewrite (showEventsFromFeed_run _ _ _ Hg)).
      rewrite Es2. simpl.
      set (p := pg ++ [length (kidsAt pg (doc s)) + k]).
      assert (He2 : elemAt p d2 = Some e).
      { unfold p, d2, elemAt. rewrite lookup_update_under.
        destruct (byId_sound _ _ _ Hg) as (eg & Eg & _).
        unfold elemAt, kidsAt in *.
        destruct (lookup pg (doc s)) as [[t | eg' ks0]|]; try discriminate.
        simpl. rewrite nth_error_app2 by lia.
        replace (length ks0 + k - length ks0) with k by lia.
        now rewrite Hk. }
      unfold exec. rewrite click_run. simpl. rewrite He2.
      destruct (clickChain_target p d2) as (rest & ->).
      unfold handlersAt. rewrite He2, Hc. simpl.
      fold (afterHandlers rest
              (mkPopup d2
                 (sent s ++ [TabsCreate (match elemAt p d2 with
                                         | Some e0 => attr "data-url" e0
                                         | None => None
                                         end)])
                 (pending s ++ []))).
      destruct (afterHandlers_grows rest
                  (mkPopup d2
                     (sent s ++ [TabsCreate (match elemAt p d2 with
                                             | Some e0 => attr "data-url" e0
                                             | None => None
                                             end)])
                     (pending s ++ []))) as (es & qs & E1 & _).
      exists es. rewrite E1. simpl. rewrite He2, <- app_assoc. reflexivity.
Qed.

(** ** [fillMessages_] *)

Lemma fold_update_child (i : nat) (h : path -> node -> node) (l : list path)
  (e : elem) (kids : list node) :
  fold_left (fun acc p => update p (h p) acc) (map (cons i) l) (Elem e kids)
  = Elem e (update_nth i
              (fun k => fold_left (fun acc q => update q (h (i :: q)) acc) l k)
              kids).
Proof.
  revert kids; induction l as [|q l IH]; intros kids; simpl.
  - now rewrite update_nth_id.
  - rewrite IH, update_nth_compose. reflexivity.
Qed.

Lemma fold_update_ext (h h' : path -> node -> node) (l : list path) (n : node) :
  (forall p, In p l -> h p = h' p) ->
  fold_left (fun acc p => update p (h p) acc) l n
  = fold_left (fun acc p => update p (h' p) acc) l n.
Proof.
  revert n; induction l as [|p l IH]; intros n H; simpl; [reflexivity|].
  rewrite (H p) by now left. apply IH. intros q Hq. apply H. now right.
Qed.

Lemma fillOne_text (e : option elem) (t : string) :
  fillOne e (Text t) = Text t.
Proof.
  destruct e as [e|]; simpl; [|reflexivity].
  destruct (attr "id" e); [|reflexivity]. now destruct (tagName e =? "IMG").
Qed.

Lemma update_text (p : path) (f : node -> node) (t : string) :
  (forall t', f (Text t') = Text t') -> update p f (Text t) = Text t.
Proof. intros H. destruct p; simpl; auto. Qed.

(** Once an element holds only text, the later iterations of the loop, which
    are aimed at the elements it used to hold, change nothing. *)
Lemma fold_update_text_only (h : path -> node -> node) (l : list path)
  (e : elem) (t : string) :
  (forall p t', h p (Text t') = Text t') ->
  (forall p, In p l -> p <> []) ->
  fold_left (fun acc p => update p (h p) acc) l (Elem e [Text t])
  = Elem e [Text t].
Proof.
  intros Hh. induction l as [|p l IH]; intros Hl; simpl; [reflexivity|].
  assert (E : update p (h p) (Elem e [Text t]) = Elem e [Text t]).
  { destruct p as [|[|i] q]; simpl.
    - exfalso. apply (Hl []); [now left | reflexivity].
    - now rewrite update_text.
    - now destruct i. }
  rewrite E. apply IH. intros q Hq. apply Hl. now right.
Qed.

(** The loop over the matches, run on the document, is the first pass. *)
Lemma fold_fillOne (n : node) :
  fold_left (fun acc p => update p (fillOne (elemAt p n)) acc)
            (select (hasClass "i18n") n) n
  = localise n.
Proof.
  induction n as [t | e ks IH] using node_ind'; [reflexivity|].
  set (g := fun (i : nat) (k : node) =>
              map (cons i) (select (hasClass "i18n") k)).
  assert (Hkids : forall e' pre pre',
             length pre = length pre' ->
             fold_left
               (fun acc p => update p (fillOne (elemAt p (Elem e (pre ++ ks))))
                                    acc)
               (indexed g (length pre) ks) (Elem e' (pre' ++ ks))
             = Elem e' (pre' ++ map localise ks)).
  { intros e'. induction IH as [|k ks Hk _ IHks]; intros pre pre' Hlen; simpl.
    - reflexivity.
    - rewrite fold_left_app.
      change (g (length pre) k)
        with (map (cons (length pre)) (select (hasClass "i18n") k)).
      rewrite (fold_update_child (length pre)
                 (fun p => fillOne (elemAt p (Elem e (pre ++ k :: ks))))).
      rewrite Hlen, update_nth_app_length, <- Hlen.
      rewrite (fold_update_ext
                 (fun q => fillOne (elemAt (length pre :: q)
                                           (Elem e (pre ++ k :: ks))))
                 (fun q => fillOne (elemAt q k))).
      + rewrite Hk.
        pose proof (IHks (pre ++ [k]) (pre' ++ [localise k])) as H.
        rewrite <- !app_assoc, !length_app in H. simpl in H.
        rewrite Nat.add_1_r in H. apply H. lia.
      + intros q _. unfold elemAt. simpl.
        rewrite nth_error_app2, Nat.sub_diag by lia. reflexivity. }
  simpl select. fold g. simpl localise.
  destruct (hasClass "i18n" e).
  - simpl. destruct (attr "id" e) as [id|].
    + destruct (tagName e =? "IMG").
      * apply (Hkids _ [] []). reflexivity.
      * apply (fold_update_text_only
                 (fun p => fillOne (elemAt p (Elem e ks)))).
        -- intros. apply fillOne_text.
        -- intros p Hp. apply in_indexed in Hp as (j & k & _ & Hp).
           apply in_map_iff in Hp as (q & <- & _). discriminate.
    + apply (Hkids _ [] []). reflexivity.
  - apply (Hkids _ [] []). reflexivity.
Qed.

Lemma forEach_updates (h : path -> node -> node) (l : list path)
  (body : path -> M unit) (s : popup) :
  (forall p s', In p l ->
     body p s' = (Returned tt,
                  mkPopup (update p (h p) (doc s')) (sent s') (pending s'))) ->
  forEach l body s
  = (Returned tt,
     mkPopup (fold_left (fun acc p => update p (h p) acc) l (doc s))
             (sent s) (pending s)).
Proof.
  revert s; induction l as [|p l IH]; intros s H; simpl.
  - now destruct s.
  - unfold bind. rewrite H by now left. rewrite IH; [reflexivity|].
    intros q s' Hq. apply H. now right.
Qed.

Lemma i18nIds_spec (d : node) (p : path) (e : elem) :
  i18nIds d = true -> elemAt p d = Some e -> hasClass "i18n" e = true ->
  exists id, attr "id" e = Some id.
Proof.
  unfold i18nIds. rewrite forallb_forall. intros H He Hc.
  assert (Hin : In p (select (hasClass "i18n") d))
    by (apply in_select; eauto).
  specialize (H p Hin). rewrite He in H.
  destruct (attr "id" e) as [id|]; [eauto | discriminate].
Qed.

Lemma fillMessages_run (s : popup) :
  i18nIds (doc s) = true ->
  fillMessages_ s
  = (Returned tt,
     mkPopup (mapElems setCalendarHref (localise (doc s))) (sent s) (pending s)).
Proof.
  intros Hids. unfold fillMessages_, each, bind at 1 2, getDoc.
  rewrite (forEach_updates (fun p => fillOne (elemAt p (doc s)))).
  - rewrite fold_fillOne. reflexivity.
  - intros p s' Hp. apply in_select in Hp as (e & He & Hc). rewrite He.
    destruct (i18nIds_spec _ _ _ Hids He Hc) as (id & Hid).
    unfold bind, deref, fillOne. rewrite Hid.
    now destruct (tagName e =? "IMG").
Qed.

Lemma assoc_set_same (k v : string) (l : list (string * string)) :
  assoc k (assoc_set k v l) = Some v.
Proof.
  induction l as [|[k' v'] l IH]; simpl.
  - now rewrite String.eqb_refl.
  - destruct (k' =? k) eqn:E; simpl; [now rewrite String.eqb_refl|].
    now rewrite E.
Qed.

Lemma assoc_set_other (k k' v : string) (l : list (string * string)) :
  k <> k' -> assoc k (assoc_set k' v l) = assoc k l.
Proof.
  intros Hne. induction l as [|[k0 v0] l IH]; simpl.
  - apply String.eqb_neq in Hne. rewrite String.eqb_sym. now rewrite Hne.
  - destruct (k0 =? k') eqn:E; simpl.
    + apply String.eqb_eq in E as ->.
      assert ((k' =? k) = false) as ->
          by (apply String.eqb_neq; congruence).
      reflexivity.
    + now rewrite IH.
Qed.

(** An exposed element is still where it was after the first pass. *)
Lemma lookup_localise (p : path) (d : node) :
  exposed p d = true ->
  lookup p (localise d) = option_map localise (lookup p d).
Proof.
  revert d; induction p as [|i q IH]; intros d Hx; [reflexivity|].
  destruct d as [t | e ks]; [reflexivity|]. simpl in Hx.
  apply andb_true_iff in Hx as [Hroot Hk].
  assert (E : exists e', localise (Elem e ks) = Elem e' (map localise ks)).
  { simpl. destruct (hasClass "i18n" e); [|eauto].
    destruct (attr "id" e); [|eauto].
    destruct (tagName e =? "IMG"); [eauto | discriminate]. }
  destruct E as (e' & ->). simpl. rewrite nth_error_map.
  destruct (nth_error ks i) as [k|]; simpl; [now apply IH | reflexivity].
Qed.

(** C6: on a page whose localised elements all have an id, [fillMessages_]
    gives every element of class 'i18n' the message keyed by its id, as its
    'title' attribute when its tag is IMG and as its text content otherwise;
    and every element with data-href="calendar_ui_url" has its href set to
    'https://www.google.com/calendar/'. *)
Theorem fill_messages (page : node) :
  i18nIds page = true ->
  fst (fillMessages_ (mkPopup page [] [])) = Returned tt
  /\ (forall p e,
         elemAt p page = Some e -> hasClass "i18n" e = true ->
         exposed p page = true ->
         exists id e',
           attr "id" e = Some id /\ elemAt p (filled page) = Some e'
           /\ if tagName e =? "IMG"
              then attr "title" e' = Some (getMessage id)
              else kidsAt p (filled page) = [Text (getMessage id)])
  /\ (forall p e,
         elemAt p (filled page) = Some e ->
         attr "data-href" e = Some "calendar_ui_url" ->
         attr "href" e = Some "https://www.google.com/calendar/").
Proof.
  intros Hids.
  assert (Ef : filled page = mapElems setCalendarHref (localise page))
    by (unfold filled, exec; now rewrite fillMessages_run).
  split; [now rewrite fillMessages_run|]. rewrite Ef. split.
  - intros p e He Hc Hx.
    destruct (i18nIds_spec _ _ _ Hids He Hc) as (id & Hid).
    exists id. unfold elemAt, kidsAt in *.
    rewrite lookup_mapElems, lookup_localise by assumption.
    destruct (lookup p page) as [[t | e0 ks]|]; try discriminate.
    injection He as ->. simpl. rewrite Hc, Hid.
    destruct (tagName e =? "IMG"); simpl; eexists; split; try reflexivity;
      (split; [reflexivity|]); [|reflexivity].
    unfold setCalendarHref.
    destruct (hasAttr _ _ _); unfold attr, setAttr; simpl.
    + rewrite assoc_set_other by discriminate. apply assoc_set_same.
    + apply assoc_set_same.
  - intros p e He Hd. rewrite elemAt_mapElems in He.
    destruct (elemAt p (localise page)) as [e0|]; [|discriminate].
    injection He as <-. unfold setCalendarHref in *.
    destruct (hasAttr "data-href" "calendar_ui_url" e0) eqn:Hh.
    + apply assoc_set_same.
    + unfold hasAttr in Hh. rewrite Hd in Hh. discriminate.
Qed.

(** ** [showDetectedEvents_] *)

Lemma select_nil (P : elem -> bool) (n : node) :
  (forall p e, elemAt p n = Some e -> P e = false) -> select P n = [].
Proof.
  intros H. destruct (select P n) as [|p l] eqn:E; [reflexivity|].
  assert (Hin : In p (select P n)) by (rewrite E; now left).
  apply in_select in Hin as (e & He & HP). rewrite (H p e He) in HP.
  discriminate.
Qed.

Lemma select_nil_elem (P : elem -> bool) (n : node) (p : path) (e : elem) :
  select P n = [] -> elemAt p n = Some e -> P e = false.
Proof.
  intros Hs He. destruct (P e) eqn:HP; [|reflexivity].
  assert (Hin : In p (select P n)) by (apply in_select; eauto).
  rewrite Hs in Hin. destruct Hin.
Qed.

Lemma lookup_prefix (q p : path) (d : node) :
  isPrefix q p = true -> lookup p d <> None -> lookup q d <> None.
Proof.
  intros Hq Hp. destruct (isPrefix_true _ _ Hq) as (r & ->).
  rewrite lookup_app in Hp. now destruct (lookup q d).
Qed.

(** Appending children to an element leaves every element that was
    already in the document as it was. *)
Lemma elemAt_append_old (pe q : path) (ee : elem) (ks new : list node)
  (d : node) :
  lookup pe d = Some (Elem ee ks) -> lookup q d <> None ->
  elemAt q (update pe (fun _ => Elem ee (ks ++ new)) d) = elemAt q d.
Proof.
  intros Hpe Hq. destruct (isPrefix pe q) eqn:Hpre.
  - destruct (isPrefix_true _ _ Hpre) as (r & ->).
    rewrite elemAt_update_under, Hpe. unfold elemAt.
    rewrite lookup_app, Hpe in *. destruct r as [|i r]; [reflexivity|].
    simpl in *. destruct (nth_error ks i) as [k|] eqn:Hk; [|congruence].
    now rewrite nth_error_app1, Hk by (apply nth_error_Some; congruence).
  - now apply elemAt_update_off.
Qed.

Section Detected.
Variables (d : node) (pe : path) (ee : elem) (ks : list node).
Hypothesis Hlook : lookup pe d = Some (Elem ee ks).
Hypothesis Hnone : byId "events_list" d = None.

Lemma events_list_jqId (bs : list node) (se pn : list effect) :
  jqId "events_list" (withKids d pe ee (ks ++ [eventsList bs]) se pn)
  = (Returned (Some (pe ++ [length ks])),
     withKids d pe ee (ks ++ [eventsList bs]) se pn).
Proof.
  unfold jqId, withKids. simpl. do 2 f_equal. unfold byId in *.
  destruct (select_splice (hasId "events_list") pe d _ Hlook)
    as (b & a & _ & Hsel).
  pose proof (Hsel (fun x => x)) as E. rewrite update_id in E.
  destruct (select (hasId "events_list") d) as [|x l] eqn:Es;
    [|discriminate].
  symmetry in E. apply app_eq_nil in E as [-> E].
  apply app_eq_nil in E as [E ->]. apply map_eq_nil in E.
  rewrite Hsel, select_appendKids, E. reflexivity.
Qed.

Lemma detected_loop (events : list CalendarEvent) (bs : list node)
  (se pn : list effect) :
  forEach events
          (fun event =>
             list <- jqId "events_list" ;;
             jqDo list (appendKids [createEventButton_ event false]))
          (withKids d pe ee (ks ++ [eventsList bs]) se pn)
  = (Returned tt,
     withKids d pe ee
       (ks ++ [eventsList
                 (bs ++ map (fun ev => createEventButton_ ev false) events)])
       se pn).
Proof.
  revert bs; induction events as [|ev events IH]; intros bs; simpl.
  - now rewrite app_nil_r.
  - erewrite bind_run.
    2:{ erewrite bind_run by apply events_list_jqId.
        apply withKids_jqDo_child. }
    simpl. rewrite IH, <- app_assoc. reflexivity.
Qed.

End Detected.

Lemma detectedEventsCallback_run (events : list CalendarEvent) (s : popup)
  (pe : path) (ee : elem) (ks : list node) :
  events <> [] ->
  byId "events" (doc s) = Some pe ->
  lookup pe (doc s) = Some (Elem ee ks) ->
  byId "events_list" (doc s) = None ->
  detectedEventsCallback (Some events) s
  = click (byId "add-events"
             (doc (withKids (doc s) pe ee
                     (ks ++ [eventsList
                               (map (fun ev => createEventButton_ ev false)
                                    events)]) (sent s) (pending s))))
          (withKids (doc s) pe ee
             (ks ++ [eventsList
                       (map (fun ev => createEventButton_ ev false) events)])
             (sent s) (pending s)).
Proof.
  intros Hne He Hlook Hnone. unfold detectedEventsCallback.
  destruct events as [|ev events]; [congruence|].
  change (0 <? length (ev :: events))%nat with true. cbv iota.
  set (evs := ev :: events).
  assert (E1 : (pane <- jqId "events" ;;
                jqDo pane (appendKids [eventsList []])) s
               = (Returned tt,
                  withKids (doc s) pe ee (ks ++ [eventsList []])
                           (sent s) (pending s))).
  { unfold bind, jqId, jqDo, modifyDoc, withKids. rewrite He. simpl.
    do 2 f_equal. apply update_ext. intros n Hn. rewrite Hlook in Hn.
    now injection Hn as <-. }
  rewrite <- bind_assoc. erewrite bind_run by exact E1.
  erewrite bind_run by (apply detected_loop; assumption).
  unfold bind, jqId. reflexivity.
Qed.

Lemma flat_map_ext_on {A B : Type} (f g : A -> list B) (l : list A) :
  (forall a, In a l -> f a = g a) -> flat_map f l = flat_map g l.
Proof.
  induction l as [|a l IH]; intros H; simpl; [reflexivity|].
  rewrite (H a) by now left. rewrite IH; [reflexivity|].
  intros b Hb. apply H. now right.
Qed.

Lemma in_bubble_prefix (q p : path) : In q (bubble p) -> isPrefix q p = true.
Proof.
  destruct (bubble_spec p) as (l & -> & H). intros [<- | Hq].
  - apply isPrefix_refl.
  - now apply H.
Qed.

Lemma button_ids (events : list CalendarEvent) (i : string) :
  forallb (fun ev => idFree (parseHTML (eventTitle ev))) events = true ->
  i <> "events_list" ->
  select (hasId i)
         (eventsList (map (fun ev => createEventButton_ ev false) events))
  = [].
Proof.
  intros Hfree Hi. apply select_nil. intros p e He. unfold elemAt in He.
  destruct p as [|j r]; simpl in He.
  - injection He as <-. unfold hasId, attr, setAttr. cbn [attrs].
    rewrite assoc_set_same. apply String.eqb_neq. congruence.
  - rewrite nth_error_map in He.
    destruct (nth_error events j) as [ev|] eqn:Hj; [|discriminate].
    simpl in He. destruct r as [|k r]; simpl in He.
    + now injection He as <-.
    + rewrite forallb_forall in Hfree.
      specialize (Hfree ev (nth_error_In _ _ Hj)).
      unfold idFree in Hfree. rewrite forallb_forall in Hfree.
      destruct (nth_error (parseHTML (eventTitle ev)) k) as [n|] eqn:Hk;
        [|discriminate].
      specialize (Hfree n (nth_error_In _ _ Hk)).
      destruct (select _ n) eqn:Hs; [|discriminate].
      assert (Hn : elemAt r n = Some e) by (unfold elemAt; exact He).
      pose proof (select_nil_elem _ _ _ _ Hs Hn) as Hid.
      unfold hasId, attr in *. simpl in Hid.
      now destruct (assoc "id" (attrs e)).
Qed.

Lemma appended_tabs (d : node) (pe : path) (ee : elem) (ks new : list node)
  (pa pv pe' pg : path) :
  lookup pe d = Some (Elem ee ks) ->
  (forall i, In i ["add-events"; "view_agenda"; "events"; "agenda"] ->
             Forall (fun n => select (hasId i) n = []) new) ->
  tabsAt d pa pv pe' pg ->
  let d2 := update pe (fun _ => Elem ee (ks ++ new)) d in
  tabsAt d2 pa pv pe' pg /\ wired d2 = wired d.
Proof.
  intros Hlook Hnew Ht d2.
  assert (Hid : forall i,
             In i ["add-events"; "view_agenda"; "events"; "agenda"] ->
             byId i d2 = byId i d).
  { intros i Hi. unfold byId, d2. f_equal. apply select_update_same.
    intros n Hn. rewrite Hlook in Hn. injection Hn as <-.
    rewrite select_appendKids. specialize (Hnew i Hi).
    assert (E : forall j, indexed (fun i0 k => map (cons i0)
                                      (select (hasId i) k)) j new = []).
    { induction Hnew as [|n new Hn _ IH]; intros j; simpl; [reflexivity|].
      now rewrite Hn, IH. }
    now rewrite E, app_nil_r. }
  assert (Hold : forall q, lookup q d <> None -> elemAt q d2 = elemAt q d)
    by (intros q Hq; now apply elemAt_append_old).
  assert (Hvalid : forall i q, byId i d = Some q -> lookup q d <> None).
  { intros i q Hq. destruct (byId_sound _ _ _ Hq) as (e & He & _).
    unfold elemAt in He. now destruct (lookup q d). }
  assert (Hflag : forall f i,
             In i ["add-events"; "view_agenda"; "events"; "agenda"] ->
             flag f i d2 = flag f i d).
  { intros f i Hi. unfold flag. rewrite (Hid i Hi).
    destruct (byId i d) as [q|] eqn:Hq; [|reflexivity].
    now rewrite (Hold q (Hvalid _ _ Hq)). }
  assert (Hsel : forall i,
             In i ["add-events"; "view_agenda"; "events"; "agenda"] ->
             selects i d2 = selects i d).
  { intros i Hi. unfold selects. rewrite (Hid i Hi).
    destruct (byId i d) as [q|] eqn:Hq; [|reflexivity].
    unfold clickChain. do 2 f_equal. apply flat_map_ext_on. intros r Hr.
    unfold handlersAt. rewrite Hold; [reflexivity|].
    apply lookup_prefix with (p := q);
      [apply in_bubble_prefix; exact Hr | eapply Hvalid; eauto]. }
  split.
  - destruct Ht as (Ha & Hv & He & Hg & Te & Tg). unfold tabsAt.
    rewrite !Hid, !Hflag by (simpl; auto). auto 10.
  - unfold wired. rewrite !Hsel by (simpl; auto). reflexivity.
Qed.


(** ** What clicks and the badge callback leave alone *)

Lemma existsb_filter_same (c : string) (l : list string) :
  existsb (String.eqb c) (filter (fun c' => negb (c =? c')) l) = false.
Proof.
  induction l as [|x l IH]; simpl; [reflexivity|].
  destruct (c =? x) eqn:E; simpl; [exact IH | now rewrite E].
Qed.

Lemma existsb_filter_other (c c' : string) (l : list string) :
  c <> c' ->
  existsb (String.eqb c) (filter (fun x => negb (c' =? x)) l)
  = existsb (String.eqb c) l.
Proof.
  intros Hne. induction l as [|x l IH]; simpl; [reflexivity|].
  destruct (c' =? x) eqn:E; simpl; [|now rewrite IH].
  apply String.eqb_eq in E as <-.
  apply String.eqb_neq in Hne. now rewrite Hne.
Qed.

Lemma filter_absent (c : string) (l : list string) :
  existsb (String.eqb c) l = false ->
  filter (fun c' => negb (c =? c')) l = l.
Proof.
  induction l as [|x l IH]; simpl; [reflexivity|].
  intros H. apply orb_false_iff in H as [H1 H2]. rewrite H1. simpl.
  now rewrite IH.
Qed.

(** What a tab handler makes of one element, field by field. *)
Lemma switched_normal (a b : bool) (e : elem) :
  switched a b e
  = mkElem (tagName e) (attrs e)
           (filter (fun c' => negb ("selected" =? c')) (classes e)
              ++ (if a then ["selected"] else []))
           (style e)
           (if b then true
            else if hasClass "tab" e then false else displayed e)
           (clickHandlers e).
Proof.
  destruct e as [tg ats cl st dp hs]. unfold switched.
  set (flt := filter (fun c' => negb ("selected" =? c')) cl).
  assert (E1 : (if hasClass "selected" (mkElem tg ats cl st dp hs)
                then removeClass "selected" (mkElem tg ats cl st dp hs)
                else mkElem tg ats cl st dp hs)
               = mkElem tg ats flt st dp hs).
  { unfold hasClass, removeClass. cbn [classes tagName attrs style displayed clickHandlers].
    destruct (existsb (String.eqb "selected") cl) eqn:E; [reflexivity|].
    subst flt. now rewrite filter_absent. }
  rewrite E1.
  assert (E2 : hasClass "tab" (mkElem tg ats flt st dp hs)
               = hasClass "tab" (mkElem tg ats cl st dp hs)).
  { unfold hasClass. cbn [classes]. subst flt.
    now apply existsb_filter_other. }
  rewrite E2.
  assert (E3 : forall d',
             addClass "selected" (mkElem tg ats flt st d' hs)
             = mkElem tg ats (flt ++ ["selected"]) st d' hs).
  { intros d'. unfold addClass, hasClass.
    cbn [classes tagName attrs style displayed clickHandlers]. subst flt.
    now rewrite existsb_filter_same. }
  cbn [classes tagName attrs style displayed clickHandlers].
  destruct (hasClass "tab" (mkElem tg ats cl st dp hs)), a, b;
    unfold hide; cbn [classes tagName attrs style displayed clickHandlers];
    rewrite ?E3; unfold show;
    cbn [classes tagName attrs style displayed clickHandlers];
    rewrite ?app_nil_r; reflexivity.
Qed.

Lemma switched_idem (a b : bool) (e : elem) :
  switched a b (switched a b e) = switched a b e.
Proof.
  rewrite (switched_normal a b (switched a b e)), switched_tab.
  rewrite !switched_normal.
  cbn [classes tagName attrs style displayed clickHandlers]. f_equal.
  - rewrite filter_app.
    assert (filter (fun c' => negb ("selected" =? c'))
                   (if a then ["selected"] else []) = []) as ->
      by now destruct a.
    rewrite app_nil_r. f_equal. apply filter_absent, existsb_filter_same.
  - destruct b, (hasClass "tab" e); reflexivity.
Qed.

Lemma plain_switched (a b : bool) (e : elem) : plain (switched a b e) = plain e.
Proof. now rewrite switched_normal. Qed.

(** The tab handler rewrites every element on its own, by its place. *)
Lemma tabSwitch_pathMap (tab pane : string) (d : node) :
  tabSwitch tab pane d
  = pathMap (fun q => switched (isAt tab d q) (isAt pane d q)) d.
Proof.
  unfold tabSwitch. rewrite !mapElems_pathMap, pathMap_pathMap.
  assert (Ha : forall (q : path) e,
             attrs (if hasClass "tab"
                         (if hasClass "selected" e
                          then removeClass "selected" e else e)
                    then hide (if hasClass "selected" e
                               then removeClass "selected" e else e)
                    else (if hasClass "selected" e
                          then removeClass "selected" e else e))
             = attrs e).
  { intros q e. destruct (hasClass "selected" e);
      match goal with |- context [if ?c then _ else _] => destruct c end;
      reflexivity. }
  rewrite (byId_pathMap tab) by exact Ha. unfold isAt.
  destruct (byId tab d) as [pt|].
  - rewrite update_pathMap.
    rewrite (byId_pathMap pane)
      by (intros q e; destruct (samePath q pt); unfold addClass;
          cbn [attrs]; apply (Ha q)).
    destruct (byId pane d) as [pp|].
    + rewrite update_pathMap. apply pathMap_ext. intros q e _.
      unfold switched. now destruct (samePath q pt), (samePath q pp).
    + apply pathMap_ext. intros q e _.
      unfold switched. now destruct (samePath q pt).
  - rewrite (byId_pathMap pane) by exact Ha.
    destruct (byId pane d) as [pp|].
    + rewrite update_pathMap. apply pathMap_ext. intros q e _.
      unfold switched. now destruct (samePath q pp).
    + apply pathMap_ext. intros q e _. reflexivity.
Qed.

Lemma tabSwitch_idem (tab pane : string) (d : node) :
  tabSwitch tab pane (tabSwitch tab pane d) = tabSwitch tab pane d.
Proof.
  rewrite (tabSwitch_pathMap tab pane (tabSwitch tab pane d)).
  unfold isAt. rewrite !byId_tabSwitch.
  rewrite (tabSwitch_pathMap tab pane d), pathMap_pathMap.
  apply pathMap_ext. intros q e _. apply switched_idem.
Qed.

Lemma plain_handlerDoc (h : handler) (d : node) :
  mapElems plain (handlerDoc h d) = mapElems plain d.
Proof.
  destruct h; simpl; try reflexivity;
    rewrite tabSwitch_pathMap; apply mapElems_of_pathMap;
    intros q e; apply plain_switched.
Qed.

Lemma plain_afterHandlers (chain : list (path * handler)) (s : popup) :
  mapElems plain (doc (afterHandlers chain s)) = mapElems plain (doc s).
Proof.
  unfold afterHandlers. revert s; induction chain as [|th chain IH];
    intros s; simpl; [reflexivity|].
  rewrite IH. simpl. apply plain_handlerDoc.
Qed.

(** X1.  Each tab handler is idempotent: run a second time in a row, on
    any document, it leaves the popup exactly as its first run left it. *)
Theorem tab_handlers_idempotent (s : popup) :
  exec addEventsClick (exec addEventsClick s) = exec addEventsClick s
  /\ exec viewAgendaClick (exec viewAgendaClick s) = exec viewAgendaClick s.
Proof.
  unfold exec. rewrite !addEventsClick_run, !viewAgendaClick_run. simpl.
  now rewrite !tabSwitch_idem.
Qed.

Lemma tabSwitch_everywhere (tab pane : string) (d : node) (q : path)
  (e : elem) :
  elemAt q (tabSwitch tab pane d) = Some e ->
  hasClass "selected" e = isAt tab d q
  /\ (hasClass "tab" e = true -> displayed e = isAt pane d q).
Proof.
  rewrite tabSwitch_pathMap, elemAt_pathMap.
  destruct (elemAt q d) as [e0|]; [|discriminate].
  simpl. intros E. injection E as <-. split.
  - apply switched_selected.
  - rewrite switched_tab. apply switched_displayed.
Qed.

(** X2.  A tab handler acts on the whole document, not only on the two
    tabs: after it, an element carries the class [selected] exactly when it
    is the handler's tab, and an element of class [tab] is displayed exactly
    when it is the handler's pane. *)
Theorem tab_handler_everywhere (s : popup) (q : path) (e : elem) :
  (elemAt q (doc (exec addEventsClick s)) = Some e ->
   hasClass "selected" e = isAt "add-events" (doc s) q
   /\ (hasClass "tab" e = true -> displayed e = isAt "events" (doc s) q))
  /\ (elemAt q (doc (exec viewAgendaClick s)) = Some e ->
      hasClass "selected" e = isAt "view_agenda" (doc s) q
      /\ (hasClass "tab" e = true -> displayed e = isAt "agenda" (doc s) q)).
Proof.
  unfold exec. rewrite addEventsClick_run, viewAgendaClick_run. simpl.
  split; apply tabSwitch_everywhere.
Qed.

(** X3.  A click, whatever its target and whatever handlers it runs,
    changes nothing of the document but classes and display: the tree, the
    text nodes, and every element's tag, attributes, inline style and bound
    handlers are as before. *)
Theorem click_changes_classes_and_display_only (target : jq) (s : popup) :
  mapElems plain (doc (exec (click target) s)) = mapElems plain (doc s).
Proof.
  unfold exec. destruct target as [p|].
  - rewrite click_run. simpl. destruct (elemAt p (doc s)); [|reflexivity].
    apply plain_afterHandlers.
  - now rewrite click_none.
Qed.

(** The document the badge callback leaves, element by element. *)
Lemma badgeTextCallback_doc (text : string) (s : popup) :
  doc (exec (badgeTextCallback text) s)
  = pathMap (fun q e =>
               let e1 := if hasClass "tab-container" e
                         then (if text =? "?" then hide e else show e)
                         else e in
               if isAt "error" (doc s) q
               then (if text =? "?" then show e1 else hide e1)
               else e1)
            (doc s).
Proof.
  unfold badgeTextCallback, exec, isAt.
  destruct (text =? "?");
    unfold bind, jqAll, modifyDoc, jqId, jqDo, sendMessage, request; simpl;
    rewrite mapElems_pathMap, byId_pathMap
      by (intros q e; now destruct (hasClass "tab-container" e));
    destruct (byId "error" (doc s)) as [p|]; simpl;
    rewrite ?update_pathMap; apply pathMap_ext; intros q e _;
    try destruct (samePath q p); reflexivity.
Qed.

(** X4.  The badge callback, on either branch, changes nothing of the
    document but the display of elements: and of those, only of the ones of
    class [tab-container] and of [#error]. *)
Theorem badge_callback_changes_display_only (text : string) (s : popup) :
  mapElems undisplayed (doc (exec (badgeTextCallback text) s))
  = mapElems undisplayed (doc s)
  /\ forall q e,
       elemAt q (doc s) = Some e ->
       hasClass "tab-container" e = false ->
       byId "error" (doc s) <> Some q ->
       elemAt q (doc (exec (badgeTextCallback text) s)) = Some e.
Proof.
  rewrite badgeTextCallback_doc. split.
  - apply mapElems_of_pathMap. intros q e.
    destruct (hasClass "tab-container" e), (text =? "?"),
      (isAt "error" (doc s) q); reflexivity.
  - intros q e He Hc Hq. rewrite elemAt_pathMap, He. simpl. rewrite Hc.
    unfold isAt. destruct (byId "error" (doc s)) as [p|]; [|reflexivity].
    rewrite samePath_neq; [reflexivity|]. congruence.
Qed.

(** ** [showEventsFromFeed_] on any page *)

Ltac quiet_step H :=
  match goal with
  | |- bind (bind _ _) _ _ = _ => rewrite bind_assoc
  | |- bind (ret _) _ _ = _ => erewrite bind_run by reflexivity
  | |- bind (deref (Some _)) _ _ = _ => erewrite bind_run by reflexivity
  | |- bind (jqId _) _ _ = _ =>
      erewrite bind_run by (unfold jqId; rewrite H; reflexivity)
  | |- bind (jqDo None _) _ _ = _ => erewrite bind_run by reflexivity
  | |- bind (appendTo None _) _ _ = _ => erewrite bind_run by reflexivity
  end.

Ltac quiet_case :=
  match goal with
  | |- bind (deref ?o) _ _ = _ =>
      destruct o eqn:?; [|simpl in *; discriminate]
  | |- bind (if negb true then _ else _) _ _ = _ => cbn [negb]
  | |- bind (if ?c then _ else _) _ _ = _ => destruct c eqn:?
  end.

(** Without an [#agenda] every jQuery set of the loop is empty, and the
    loop changes nothing. *)
Lemma feedLoop_no_agenda (events : list FeedEvent) (last : option moment)
  (s : popup) :
  byId "agenda" (doc s) = None ->
  feedLoop events last s
  = (if forallb parses events then Returned tt else Threw, s).
Proof.
  intros H. revert last; induction events as [|ev rest IH]; intros last.
  - reflexivity.
  - cbn [feedLoop forallb]. unfold parses at 1.
    destruct (fromIso8601 (start ev)) as [st|] eqn:Hst.
    + cbn [andb].
      destruct (fromIso8601 (end_ ev)) as [en|] eqn:Hen;
        repeat first [quiet_step H | quiet_case]; apply IH.
    + destruct (fromIso8601 (end_ ev)); reflexivity.
Qed.

Lemma showEventsFromFeed_any (events : list FeedEvent) (s : popup) :
  showEventsFromFeed_ events s
  = (if forallb parses events then Returned tt else Threw,
     match byId "agenda" (doc s) with
     | Some pg =>
         mkPopup (update pg (appendKids (renderFeed events None)) (doc s))
                 (sent s) (pending s)
     | None => s
     end).
Proof.
  destruct (byId "agenda" (doc s)) as [pg|] eqn:Hid.
  - now apply showEventsFromFeed_run.
  - now apply feedLoop_no_agenda.
Qed.

Lemma renderFeed_stops (good rest : list FeedEvent) (bad : FeedEvent)
  (last : option moment) :
  forallb parses good = true -> fromIso8601 (start bad) = None ->
  renderFeed (good ++ bad :: rest) last = renderFeed good last.
Proof.
  intros Hg Hb. revert last; induction good as [|ev good IH]; intros last;
    simpl in *.
  - now rewrite Hb.
  - unfold parses in Hg at 1.
    destruct (fromIso8601 (start ev)) as [st|]; [|discriminate].
    destruct (needsHeader last (startOfDay st)); now rewrite IH.
Qed.

Lemma indexed_nil {A B : Type} (f : nat -> A -> list B) (i : nat)
  (l : list A) :
  Forall (fun a => forall j, f j a = []) l -> indexed f i l = [].
Proof.
  intros H; revert i; induction H as [|a l Ha _ IH]; intros i; simpl;
    [reflexivity|].
  now rewrite Ha, IH.
Qed.

(** No element of the rendered agenda carries an id. *)
Lemma renderFeed_no_ids (events : list FeedEvent) (last : option moment)
  (i : string) :
  Forall (fun n => select (hasId i) n = []) (renderFeed events last).
Proof.
  revert last; induction events as [|ev rest IH]; intros last; simpl.
  - constructor.
  - destruct (fromIso8601 (start ev)) as [st|]; [|constructor].
    assert (Hd : select (hasId i) (eventDiv ev st (fromIso8601 (end_ ev)))
                 = []).
    { unfold eventDiv, eventDetails.
      destruct (fromIso8601 (end_ ev)) as [en|];
        [destruct (isAllDay st (Some en))|];
        (destruct (truthy (location ev)); [destruct (location ev)|]);
        reflexivity. }
    destruct (needsHeader last (startOfDay st)); repeat constructor;
      auto.
Qed.

(** What [showEventsFromFeed_] leaves of the document it finds. *)
Lemma feed_frame (events : list FeedEvent) (s : popup) :
  (forall i,
     byId i (doc (exec (showEventsFromFeed_ events) s)) = byId i (doc s))
  /\ (forall q,
        lookup q (doc s) <> None ->
        elemAt q (doc (exec (showEventsFromFeed_ events) s))
        = elemAt q (doc s)).
Proof.
  unfold exec. rewrite showEventsFromFeed_any. simpl.
  destruct (byId "agenda" (doc s)) as [pg|] eqn:Hid; [|now split].
  destruct (byId_sound _ _ _ Hid) as (eg & He & _).
  unfold elemAt in He.
  destruct (lookup pg (doc s)) as [[t | eg' ks0]|] eqn:Hlook;
    try discriminate. injection He as ->. simpl. split.
  - intros i. unfold byId. f_equal. apply select_update_same.
    intros n Hn. rewrite Hlook in Hn. injection Hn as <-.
    cbn [appendKids]. rewrite select_appendKids, indexed_nil; [now rewrite app_nil_r|].
    eapply Forall_impl; [|apply (renderFeed_no_ids events None i)].
    simpl. intros k Hk j. now rewrite Hk.
  - intros q Hq.
    rewrite (update_ext pg (appendKids (renderFeed events None))
               (fun _ => Elem eg (ks0 ++ renderFeed events None))).
    + now apply elemAt_append_old.
    + intros n Hn. rewrite Hlook in Hn. now injection Hn as <-.
Qed.

(** X5.  [showEventsFromFeed_] throws exactly at the first event whose
    start does not parse: the events before it are rendered as if they were
    the whole feed, the ones after it are not rendered at all, and a feed
    whose starts all parse is rendered without an exception. *)
Theorem feed_stops_at_unparsed_start (good rest : list FeedEvent)
  (bad : FeedEvent) (s : popup) :
  forallb parses good = true ->
  fromIso8601 (start bad) = None ->
  showEventsFromFeed_ (good ++ bad :: rest) s
  = (Threw, exec (showEventsFromFeed_ good) s)
  /\ fst (showEventsFromFeed_ good s) = Returned tt.
Proof.
  intros Hg Hb. unfold exec. rewrite !showEventsFromFeed_any. simpl.
  rewrite Hg, renderFeed_stops by assumption.
  rewrite forallb_app. simpl. unfold parses at 2. rewrite Hb.
  now rewrite andb_false_r.
Qed.

(** X6.  On a page without an [#agenda] element [showEventsFromFeed_]
    changes nothing: every [appendTo] acts on an empty jQuery set. *)
Theorem feed_without_agenda (events : list FeedEvent) (s : popup) :
  byId "agenda" (doc s) = None ->
  exec (showEventsFromFeed_ events) s = s.
Proof.
  intros H. unfold exec. rewrite showEventsFromFeed_any. simpl.
  now rewrite H.
Qed.

(** X7.  [showEventsFromFeed_] only adds to the page: it makes no call to
    the browser; every element that was in the document is still at its
    place, with its tag, attributes, classes, style, display and handlers;
    every id resolves to the same element; a click on an element that was
    there runs the same handlers; and the tab in view is the same. *)
Theorem feed_only_adds (events : list FeedEvent) (s : popup) :
  sent (exec (showEventsFromFeed_ events) s) = sent s
  /\ pending (exec (showEventsFromFeed_ events) s) = pending s
  /\ (forall q e,
        elemAt q (doc s) = Some e ->
        elemAt q (doc (exec (showEventsFromFeed_ events) s)) = Some e)
  /\ (forall i,
        byId i (doc (exec (showEventsFromFeed_ events) s)) = byId i (doc s))
  /\ (forall p,
        lookup p (doc s) <> None ->
        clickChain p (doc (exec (showEventsFromFeed_ events) s))
        = clickChain p (doc s))
  /\ tabView (doc (exec (showEventsFromFeed_ events) s)) = tabView (doc s).
Proof.
  destruct (feed_frame events s) as [Hid Hold].
  assert (Hq : forall q e, elemAt q (doc s) = Some e ->
                           lookup q (doc s) <> None).
  { intros q e He. unfold elemAt in He. now destruct (lookup q (doc s)). }
  split; [|split; [|split; [|split; [|split]]]].
  - unfold exec. rewrite showEventsFromFeed_any. simpl.
    now destruct (byId "agenda" (doc s)).
  - unfold exec. rewrite showEventsFromFeed_any. simpl.
    now destruct (byId "agenda" (doc s)).
  - intros q e He. rewrite Hold; eauto.
  - exact Hid.
  - intros p Hp. unfold clickChain. apply flat_map_ext_on. intros r Hr.
    unfold handlersAt. rewrite Hold; [reflexivity|].
    apply lookup_prefix with (p := p); [now apply in_bubble_prefix | exact Hp].
  - assert (Hflag : forall f i,
               flag f i (doc (exec (showEventsFromFeed_ events) s))
               = flag f i (doc s)).
    { intros f i. unfold flag. rewrite Hid.
      destruct (byId i (doc s)) as [q|] eqn:E; [|reflexivity].
      destruct (byId_sound _ _ _ E) as (e & He & _).
      rewrite Hold; eauto. }
    unfold tabView. now rewrite !Hflag.
Qed.

(** X8.  The agenda is never cleared, and what a call appends does not
    depend on what the agenda holds: after two feeds the agenda holds its
    old children, then what the first feed alone would have appended, then
    what the second feed alone would have appended. *)
Theorem feeds_accumulate (events1 events2 : list FeedEvent) (s : popup)
  (pg : path) :
  byId "agenda" (doc s) = Some pg ->
  exists new1 new2,
    kidsAt pg (doc (exec (showEventsFromFeed_ events1) s))
    = kidsAt pg (doc s) ++ new1
    /\ kidsAt pg (doc (exec (showEventsFromFeed_ events2) s))
       = kidsAt pg (doc s) ++ new2
    /\ kidsAt pg (doc (exec (showEventsFromFeed_ events2)
                            (exec (showEventsFromFeed_ events1) s)))
       = kidsAt pg (doc s) ++ new1 ++ new2.
Proof.
  intros Hid. exists (renderFeed events1 None), (renderFeed events2 None).
  split; [now apply showEventsFromFeed_kids|].
  split; [now apply showEventsFromFeed_kids|].
  rewrite showEventsFromFeed_kids
    by (now rewrite (proj1 (feed_frame events1 s))).
  rewrite showEventsFromFeed_kids by assumption.
  now rewrite app_assoc.
Qed.

(** X9.  An event div holds a location block exactly when the event's
    location is a non-empty string, and the block's only child is that
    string as text. *)
Theorem feed_locations (events : list FeedEvent) (s : popup) (pg : path) :
  byId "agenda" (doc s) = Some pg ->
  forallb parses events = true ->
  exists new,
    kidsAt pg (doc (exec (showEventsFromFeed_ events) s))
    = kidsAt pg (doc s) ++ new
    /\ Forall2 (fun ev n =>
                  contents "location" n
                  = match location ev with
                    | Some l => if l =? "" then [] else [[Text l]]
                    | None => []
                    end)
               events (filter isEventDiv new).
Proof.
  intros Hid Hp. exists (renderFeed events None).
  split; [now apply showEventsFromFeed_kids|].
  rewrite renderFeed_eventDivs by assumption.
  apply Forall2_map_r. intros ev Hin.
  rewrite forallb_forall in Hp. specialize (Hp ev Hin).
  unfold parses in Hp. unfold eventDivOf.
  destruct (fromIso8601 (start ev)) as [st|]; [|discriminate].
  unfold eventDiv, eventDetails, contents, truthy.
  destruct (fromIso8601 (end_ ev)) as [en|];
    [destruct (isAllDay st (Some en))|];
    (destruct (location ev) as [l|]; [destruct (l =? "")|]);
    reflexivity.
Qed.

(** X10.  Every event div has exactly two children: a childless
    [feed-color] div whose title attribute is the title of the event's feed,
    and an [event-details] div whose first child is an [h1]; when the
    event's title is not empty, that [h1] holds it as its only child, a text
    node. *)
Theorem feed_event_div_shape (events : list FeedEvent) (s : popup)
  (pg : path) :
  byId "agenda" (doc s) = Some pg ->
  forallb parses events = true ->
  exists new,
    kidsAt pg (doc (exec (showEventsFromFeed_ events) s))
    = kidsAt pg (doc s) ++ new
    /\ Forall2 (fun ev n =>
                  exists fc dt h1 heading more,
                    kidsOf n = [Elem fc []; Elem dt (Elem h1 heading :: more)]
                    /\ hasClass "feed-color" fc = true
                    /\ attr "title" fc = Some (feedTitle (feed ev))
                    /\ hasClass "event-details" dt = true
                    /\ tagName h1 = "H1"
                    /\ (title ev <> "" -> heading = [Text (title ev)]))
               events (filter isEventDiv new).
Proof.
  intros Hid Hp. exists (renderFeed events None).
  split; [now apply showEventsFromFeed_kids|].
  rewrite renderFeed_eventDivs by assumption.
  apply Forall2_map_r. intros ev Hin.
  rewrite forallb_forall in Hp. specialize (Hp ev Hin).
  unfold parses in Hp. unfold eventDivOf.
  destruct (fromIso8601 (start ev)) as [st|]; [|discriminate].
  unfold eventDiv, eventDetails. cbn [kidsOf app].
  do 5 eexists. split; [reflexivity|]. repeat split; reflexivity.
Qed.

(** ** [fillMessages_] and [initialize] on any page *)

(** A loop whose body throws exactly at the elements that are not [ok]
    throws exactly when some element is not [ok]; an invariant of the body
    holds where the loop stops. *)
Lemma forEach_outcome {A : Type} (ok : A -> bool) (I : popup -> Prop)
  (l : list A) (body : A -> M unit) (s : popup) :
  (forall a s', In a l -> I s' ->
     fst (body a s') = (if ok a then Returned tt else Threw)
     /\ I (snd (body a s'))) ->
  I s ->
  fst (forEach l body s) = (if forallb ok l then Returned tt else Threw)
  /\ I (snd (forEach l body s)).
Proof.
  revert s; induction l as [|a l IH]; intros s H HI; simpl.
  - now split.
  - unfold bind. destruct (H a s (or_introl eq_refl) HI) as [Ho Hs].
    destruct (body a s) as [o s1]. simpl in *.
    destruct (ok a); subst o; simpl.
    + apply IH; [|exact Hs]. intros b s' Hb. apply H. now right.
    + now split.
Qed.

Lemma fillMessages_outcome (s : popup) :
  fst (fillMessages_ s) = (if i18nIds (doc s) then Returned tt else Threw)
  /\ sent (snd (fillMessages_ s)) = sent s
  /\ pending (snd (fillMessages_ s)) = pending s
  /\ (bound (doc s) = [] -> bound (doc (snd (fillMessages_ s))) = []).
Proof.
  set (I := fun s' : popup =>
              sent s' = sent s /\ pending s' = pending s
              /\ (bound (doc s) = [] -> bound (doc s') = [])).
  set (ok := fun p => match elemAt p (doc s) with
                      | Some e => match attr "id" e with
                                  | Some _ => true
                                  | None => false
                                  end
                      | None => true
                      end).
  set (body := fun this : path =>
                 match elemAt this (doc s) with
                 | Some e =>
                     id <- deref (attr "id" e) ;;
                     (if tagName e =? "IMG"
                      then jqDo (Some this)
                                (onElem (setAttr "title" (getMessage id)))
                      else jqDo (Some this) (setText (getMessage id)))
                 | None => ret tt
                 end).
  assert (Hloop :
            fst (forEach (select (hasClass "i18n") (doc s)) body s)
            = (if i18nIds (doc s) then Returned tt else Threw)
            /\ I (snd (forEach (select (hasClass "i18n") (doc s)) body s))).
  { apply (forEach_outcome ok I); [|now repeat split].
    intros this s' _ (Hse & Hpe & Hb). unfold body, ok.
    destruct (elemAt this (doc s)) as [e|]; [|now repeat split].
    unfold bind, deref. destruct (attr "id" e) as [id|];
      [|now repeat split].
    destruct (tagName e =? "IMG"); simpl; (split; [reflexivity|]);
      (split; [exact Hse|]); (split; [exact Hpe|]);
      intros H0; specialize (Hb H0); apply select_update_nil; auto.
    - intros n Hn. rewrite select_onElem; auto.
    - intros [t | e' ks] Hn; [reflexivity|]. simpl in *.
      destruct (clickHandlers e'); [reflexivity | discriminate]. }
  destruct Hloop as [Ho (Hse & Hpe & Hb)].
  change (fillMessages_ s)
    with (bind (forEach (select (hasClass "i18n") (doc s)) body)
               (fun _ => jqAll (hasAttr "data-href" "calendar_ui_url")
                               (setAttr "href" CALENDAR_UI_URL_)) s).
  unfold bind.
  destruct (forEach (select (hasClass "i18n") (doc s)) body s) as [o s1].
  simpl in Ho, Hse, Hpe, Hb. subst o.
  destruct (i18nIds (doc s)); simpl; [|now repeat split].
  repeat split; auto. intros H0. rewrite bound_mapElems; auto.
  intros e. now destruct (hasAttr "data-href" "calendar_ui_url" e).
Qed.

(** X11.  [fillMessages_] throws exactly when some element of class [i18n]
    has no [id] attribute ([attr('id')] is then [undefined], and
    [.toString()] on it is a [TypeError]); either way it makes no call to
    the browser. *)
Theorem fillMessages_throws_without_id (s : popup) :
  fst (fillMessages_ s) = (if i18nIds (doc s) then Returned tt else Threw)
  /\ sent (exec fillMessages_ s) = sent s
  /\ pending (exec fillMessages_ s) = pending s.
Proof.
  destruct (fillMessages_outcome s) as (H1 & H2 & H3 & _). auto.
Qed.

(** X12.  When a localised element of the page has no id, [initialize]
    stops in [fillMessages_]: the popup sends no message and asks for no
    badge text, no request is pending, and on a page without click handlers
    none is bound, so the tabs and the sync button are dead. *)
Theorem initialize_aborts_without_id (page : node) :
  i18nIds page = false -> bound page = [] ->
  fst (initialize (mkPopup page [] [])) = Threw
  /\ sent (load page) = []
  /\ pending (load page) = []
  /\ bound (doc (load page)) = [].
Proof.
  intros Hids Hb.
  destruct (fillMessages_outcome (mkPopup page [] []))
    as (H1 & H2 & H3 & H4).
  simpl in *. rewrite Hids in H1. specialize (H4 Hb).
  unfold load, exec, initialize, bind.
  destruct (fillMessages_ (mkPopup page [] [])) as [o s1]. simpl in *.
  subst o. simpl. auto.
Qed.

(** ** The handlers [initialize] leaves bound *)

Lemma samePath_eq (q p : path) : samePath q p = true -> q = p.
Proof.
  unfold samePath. intros H. apply andb_true_iff in H as [X Y].
  now apply isPrefix_antisym.
Qed.

Lemma handlersAt_afterHandlers (chain : list (path * handler)) (s : popup)
  (q : path) :
  handlersAt q (doc (afterHandlers chain s)) = handlersAt q (doc s).
Proof.
  unfold afterHandlers. revert s; induction chain as [|th chain IH];
    intros s; simpl; [reflexivity|].
  rewrite IH. simpl. apply handlersAt_handlerDoc.
Qed.

Lemma byId_afterHandlers (chain : list (path * handler)) (s : popup)
  (i : string) :
  byId i (doc (afterHandlers chain s)) = byId i (doc s).
Proof.
  unfold afterHandlers. revert s; induction chain as [|th chain IH];
    intros s; simpl; [reflexivity|].
  rewrite IH. simpl. apply byId_handlerDoc.
Qed.

Lemma byId_tabsBound (i : string) (d : node) :
  byId i (tabsBound d) = byId i d.
Proof.
  unfold tabsBound.
  destruct (byId "add-events" d) as [pa|].
  - rewrite (byId_update_onElem "view_agenda") by auto.
    destruct (byId "view_agenda" d); now rewrite !byId_update_onElem by auto.
  - destruct (byId "view_agenda" d); now rewrite ?byId_update_onElem by auto.
Qed.

Lemma byId_syncBound (i : string) (d : node) :
  byId i (syncBound d) = byId i d.
Proof.
  unfold syncBound.
  destruct (byId "sync_now" d); now rewrite ?byId_update_onElem by auto.
Qed.

Lemma installed_ext (d d' : node) (q : path) :
  (forall i, byId i d' = byId i d) -> installed d' q = installed d q.
Proof. intros H. unfold installed, isAt. now rewrite !H. Qed.

Lemma handlersAt_onClick_unbound (p q : path) (h : handler) (d : node)
  (i : string) :
  bound d = [] -> byId i d = Some p ->
  handlersAt q (update p (onElem (onClick h)) d)
  = if samePath q p then [h] else [].
Proof.
  intros Hb Hp. rewrite handlersAt_onClick.
  destruct (samePath q p) eqn:E.
  - apply samePath_eq in E as ->.
    destruct (byId_sound _ _ _ Hp) as (e & He & _). rewrite He.
    now rewrite (elemAt_unbound _ _ _ Hb He).
  - now apply handlersAt_unbound.
Qed.

(** On a page without handlers, the handlers bound by
    [installTabStripClickHandlers_]. *)
Lemma handlersAt_tabsBound (d : node) (q : path) :
  bound d = [] ->
  handlersAt q (tabsBound d)
  = (if isAt "add-events" d q then [AddEventsClick] else [])
      ++ (if isAt "view_agenda" d q then [ViewAgendaClick] else []).
Proof.
  intros Hb. unfold tabsBound, isAt.
  destruct (byId "add-events" d) as [pa|] eqn:Ha.
  - rewrite (byId_update_onElem "view_agenda") by auto.
    destruct (byId "view_agenda" d) as [pv|] eqn:Hv.
    + assert (Nav : pa <> pv) by (eapply byId_distinct; eauto; discriminate).
      rewrite handlersAt_onClick.
      destruct (samePath q pv) eqn:Ev.
      * apply samePath_eq in Ev as ->.
        rewrite (samePath_neq pv pa) by congruence.
        rewrite elemAt_update_other by congruence.
        destruct (byId_sound _ _ _ Hv) as (e & He & _). rewrite He.
        now rewrite (elemAt_unbound _ _ _ Hb He).
      * rewrite (handlersAt_onClick_unbound _ _ _ _ _ Hb Ha).
        now rewrite app_nil_r.
    + rewrite (handlersAt_onClick_unbound _ _ _ _ _ Hb Ha).
      now rewrite app_nil_r.
  - destruct (byId "view_agenda" d) as [pv|] eqn:Hv.
    + now rewrite (handlersAt_onClick_unbound _ _ _ _ _ Hb Hv).
    + now apply handlersAt_unbound.
Qed.

(** The document [load] leaves, its handlers and its ids. *)
Lemma load_handlers (page : node) (q : path) :
  i18nIds page = true -> bound page = [] ->
  handlersAt q (doc (load page)) = installed (doc (load page)) q
  /\ forall i, byId i (doc (load page)) = byId i (filled page).
Proof.
  intros Hids Hb. destruct (load_run page Hids Hb) as (Hbf & _ & El).
  rewrite El. cbn [doc]. unfold exec.
  rewrite installTabStripClickHandlers_run. cbn [snd doc sent pending].
  set (F := filled page) in *.
  set (D2 := doc match byId "view_agenda" F with
                 | Some p =>
                     afterHandlers (clickChain p (tabsBound F))
                                   (mkPopup (tabsBound F) [] [])
                 | None => mkPopup (tabsBound F) [] []
                 end).
  assert (Hh : forall r, handlersAt r D2 = handlersAt r (tabsBound F)).
  { intros r. subst D2. destruct (byId "view_agenda" F); [|reflexivity].
    rewrite handlersAt_afterHandlers. reflexivity. }
  assert (Hi : forall i, byId i D2 = byId i F).
  { intros i. subst D2. destruct (byId "view_agenda" F).
    - rewrite byId_afterHandlers. apply byId_tabsBound.
    - apply byId_tabsBound. }
  assert (Hi' : forall i, byId i (syncBound D2) = byId i F)
    by (intros i; now rewrite byId_syncBound).
  split; [|exact Hi'].
  rewrite (installed_ext F _ q Hi'). unfold installed.
  unfold syncBound. rewrite Hi. unfold isAt at 3.
  destruct (byId "sync_now" F) as [ps|] eqn:Hs.
  - rewrite handlersAt_onClick. destruct (samePath q ps) eqn:E.
    + apply samePath_eq in E as ->.
      pose proof (Hh ps) as Hps. unfold handlersAt in Hps at 1.
      rewrite <- Hi in Hs. destruct (byId_sound _ _ _ Hs) as (e & He & _).
      rewrite He in *. rewrite Hps, handlersAt_tabsBound by assumption.
      now rewrite app_assoc.
    + rewrite Hh, handlersAt_tabsBound by assumption.
      now rewrite !app_nil_r.
  - rewrite Hh, handlersAt_tabsBound by assumption. now rewrite !app_nil_r.
Qed.

(** X13.  On a page that comes without click handlers, [initialize] leaves
    exactly three handlers bound: the tab handlers on [#add-events] and
    [#view_agenda], and the sync handler on [#sync_now], each on the first
    element with that id, and on none if the page has no such element. *)
Theorem handlers_after_load (page : node) (q : path) :
  i18nIds page = true -> bound page = [] ->
  handlersAt q (doc (load page)) = installed (doc (load page)) q.
Proof. intros Hids Hb. now apply load_handlers. Qed.

(** X14.  Once the popup is loaded, a click on [#sync_now] sends exactly
    one message, 'events.feed.fetch' with [showEventsFromFeed_] as its
    callback, whatever the button is nested in. *)
Theorem sync_click_sends_one_fetch (page : node) (ps : path) :
  i18nIds page = true -> bound page = [] ->
  byId "sync_now" (doc (load page)) = Some ps ->
  sent (exec (click (Some ps)) (load page))
  = initialRequests ++ [SendMessage "events.feed.fetch" ShowEventsFromFeed]
  /\ pending (exec (click (Some ps)) (load page))
     = initialRequests ++ [SendMessage "events.feed.fetch" ShowEventsFromFeed].
Proof.
  intros Hids Hb Hs.
  assert (Hh : forall q, handlersAt q (doc (load page))
                         = installed (doc (load page)) q)
    by (intros q; now apply load_handlers).
  destruct (load_run page Hids Hb) as (_ & _ & El).
  assert (Hse : sent (load page) = initialRequests) by now rewrite El.
  assert (Hpe : pending (load page) = initialRequests) by now rewrite El.
  set (s := load page) in *. clearbody s.
  unfold exec. rewrite click_run. cbn [snd].
  destruct (byId_sound _ _ _ Hs) as (es & Hes & _). rewrite Hes.
  unfold clickChain. destruct (bubble_spec ps) as (l & -> & Hl).
  cbn [flat_map].
  assert (Hps : handlersAt ps (doc s) = [SyncNowClick]).
  { rewrite Hh. unfold installed, isAt. rewrite Hs, samePath_refl.
    destruct (byId "add-events" (doc s)) as [pa|] eqn:Ha;
      [rewrite (samePath_neq ps pa)
        by (eapply byId_distinct; eauto; discriminate)|];
      (destruct (byId "view_agenda" (doc s)) as [pv|] eqn:Hv;
       [rewrite (samePath_neq ps pv)
         by (eapply byId_distinct; eauto; discriminate)|]);
      reflexivity. }
  rewrite Hps. cbn [map app].
  assert (Hrest : Forall (fun th => isTabHandler (snd th) = true)
                         (flat_map (fun q => map (pair q)
                                                 (handlersAt q (doc s))) l)).
  { apply Forall_forall. intros [q h] Hin.
    apply in_flat_map in Hin as (q' & Hq' & Hin).
    apply in_map_iff in Hin as (h' & E & Hin). injection E as <- <-.
    rewrite Hh in Hin. unfold installed, isAt in Hin. rewrite Hs in Hin.
    rewrite (samePath_neq q' ps) in Hin by (apply Hl; exact Hq').
    rewrite app_nil_r in Hin.
    apply in_app_iff in Hin as [Hin | Hin];
      match type of Hin with
      | In _ (if ?c then _ else _) => destruct c
      end; simpl in Hin;
      try (destruct Hin as [<- | []]; reflexivity); destruct Hin. }
  change (afterHandlers ((ps, SyncNowClick) :: ?r) s)
    with (afterHandlers r
            (mkPopup (doc s)
               (sent s ++ [SendMessage "events.feed.fetch" ShowEventsFromFeed])
               (pending s
                  ++ [SendMessage "events.feed.fetch" ShowEventsFromFeed]))).
  destruct (afterHandlers_quiet _
              (mkPopup (doc s)
                 (sent s ++ [SendMessage "events.feed.fetch" ShowEventsFromFeed])
                 (pending s
                    ++ [SendMessage "events.feed.fetch" ShowEventsFromFeed]))
              Hrest) as [E1 E2].
  rewrite E1, E2. simpl. now rewrite Hse, Hpe.
Qed.

(** ** The detected-events callback on a page without its pane *)

Lemma detected_loop_nowhere (events : list CalendarEvent) (s : popup) :
  byId "events_list" (doc s) = None ->
  forEach events
          (fun event =>
             list <- jqId "events_list" ;;
             jqDo list (appendKids [createEventButton_ event false])) s
  = (Returned tt, s).
Proof.
  intros H. induction events as [|ev rest IH]; [reflexivity|].
  cbn [forEach]. unfold bind at 1 2, jqId. rewrite H. exact IH.
Qed.

(** X15.  When events were detected but the page has neither an [#events]
    pane nor an [#events_list], the callback appends nothing and creates no
    button: all it does is the click on [#add-events]. *)
Theorem detected_without_pane (events : list CalendarEvent)
  (s : popup) :
  events <> [] ->
  byId "events" (doc s) = None ->
  byId "events_list" (doc s) = None ->
  detectedEventsCallback (Some events) s
  = click (byId "add-events" (doc s)) s.
Proof.
  intros Hne He Hl. unfold detectedEventsCallback.
  destruct events as [|ev rest]; [congruence|].
  change (0 <? length (ev :: rest))%nat with true. cbv iota.
  unfold bind at 1 2, jqId at 1. rewrite He. cbn [jqDo ret].
  unfold bind at 1. rewrite detected_loop_nowhere by assumption.
  reflexivity.
Qed.

End Claims.

(** * The claims on concrete inputs

    The sample page, run on the reference platform. *)


Lemma initialize_messages_witness :
  (i18nIds samplePage = true /\ bound samplePage = [])
  /\ messages (load samplePage) = ["events.detected.get"; "events.feed.get"]
  /\ pending (load samplePage) = initialRequests
  /\ option_map messages (react (Answer 0 (BadgeText "")) (load samplePage))
     = Some (["events.detected.get"; "events.feed.get"]
               ++ (if "" =? "?" then ["events.feed.fetch"] else [])).
Proof.
  split; [split; vm_compute; reflexivity|].
  apply (initialize_messages samplePage ""); vm_compute; reflexivity.
Defined.

(** C1 as stated fails: on the sample page, when the badge text read during
    initialization is "?", three messages are sent, not two. *)
Lemma unauthenticated_sends_three :
  option_map messages (react (Answer 0 (BadgeText "?")) (load samplePage))
  = Some ["events.detected.get"; "events.feed.get"; "events.feed.fetch"].
Proof. vm_compute. reflexivity. Qed.

Lemma feed_headers_witness :
  (byId "agenda" (doc (load samplePage)) = Some [1; 4]
   /\ forallb parses sameDayEvents = true)
  /\ exists new,
      kidsAt [1; 4]
             (doc (exec (showEventsFromFeed_ sameDayEvents) (load samplePage)))
      = kidsAt [1; 4] (doc (load samplePage)) ++ new
      /\ map isHeader new
         = flat_map (fun h : bool => if h then [true; false] else [false])
                    (headerPlan sameDayEvents None)
      /\ length (headerPlan sameDayEvents None) = length sameDayEvents
      /\ hd_error (headerPlan sameDayEvents None)
         = match sameDayEvents with [] => None | _ :: _ => Some true end.
Proof.
  split; [split; vm_compute; reflexivity|].
  apply (feed_headers sameDayEvents (load samplePage) [1; 4]);
    vm_compute; reflexivity.
Defined.

(** C3 as stated fails: two events on the same day are rendered under one
    date header, not under one header each. *)
Lemma same_day_events_share_a_header :
  let agenda :=
    kidsAt [1; 4]
           (doc (exec (showEventsFromFeed_ sameDayEvents) (load samplePage))) in
  map isHeader agenda = [true; false; false]
  /\ length (filter isHeader agenda) <> length sameDayEvents.
Proof. vm_compute. split; [reflexivity | discriminate]. Qed.

Lemma feed_formats_witness :
  (byId "agenda" (doc (load samplePage)) = Some [1; 4]
   /\ forallb parses sameDayEvents = true)
  /\ exists groups,
      kidsAt [1; 4]
             (doc (exec (showEventsFromFeed_ sameDayEvents) (load samplePage)))
      = kidsAt [1; 4] (doc (load samplePage)) ++ concat groups
      /\ Forall2 (fun ev g =>
                    exists st n,
                      fromIso8601 (start ev) = Some st
                      /\ (g = [n]
                          \/ exists h,
                              g = [h; n]
                              /\ isHeader h = true
                              /\ kidsOf h
                                 = [Text (format
                                            (setSeconds 0
                                               (setMinutes 0 (setHours 0 st)))
                                            "dddd MMMM, D")])
                      /\ isHeader n = false
                      /\ isEventDiv n = true
                      /\ forall en,
                          fromIso8601 (end_ ev) = Some en ->
                          isAllDay st (Some en) = false ->
                          contents "start" n = [[Text (format st "h:mma")]]
                          /\ contents "end" n = [[Text (format en "h:mma")]])
                 sameDayEvents groups.
Proof.
  split; [split; vm_compute; reflexivity|].
  apply (feed_formats sameDayEvents (load samplePage) [1; 4]);
    vm_compute; reflexivity.
Defined.

Lemma feed_all_day_witness :
  (byId "agenda" (doc (load samplePage)) = Some [1; 4]
   /\ forallb parses sameDayEvents = true)
  /\ exists new,
      kidsAt [1; 4]
             (doc (exec (showEventsFromFeed_ sameDayEvents) (load samplePage)))
      = kidsAt [1; 4] (doc (load samplePage)) ++ new
      /\ Forall2 (fun ev n =>
                    exists st,
                      fromIso8601 (start ev) = Some st
                      /\ (select (hasClass "start-and-end-times") n = []
                          <-> isAllDay st (fromIso8601 (end_ ev)) = true)
                      /\ (isAllDay st (fromIso8601 (end_ ev)) = true
                          <-> fromIso8601 (end_ ev) = None
                              \/ exists en,
                                  fromIso8601 (end_ ev) = Some en
                                  /\ hours st = 0%Z /\ minutes st = 0%Z
                                  /\ hours en = 0%Z /\ minutes en = 0%Z))
                 sameDayEvents (filter isEventDiv new).
Proof.
  split; [split; vm_compute; reflexivity|].
  apply (feed_all_day sameDayEvents (load samplePage) [1; 4]);
    vm_compute; reflexivity.
Defined.

Lemma click_handlers_witness :
  (byId "sync_now" samplePage = Some [1; 2]
   /\ byId "agenda" samplePage = Some [1; 4]
   /\ forallb parses sameDayEvents = true)
  /\ (let s := mkPopup samplePage [] [] in
      (let s1 := exec installButtonClickHandlers_ s in
       exists before after,
         sent (exec (click (Some [1; 2])) s1)
         = sent s ++ before
             ++ SendMessage "events.feed.fetch" ShowEventsFromFeed :: after
         /\ In (SendMessage "events.feed.fetch" ShowEventsFromFeed)
               (pending (exec (click (Some [1; 2])) s1))
         /\ forall answer,
             runCallback ShowEventsFromFeed (FeedEvents answer)
             = Some (showEventsFromFeed_ answer))
      /\ (let s2 := exec (showEventsFromFeed_ sameDayEvents) s in
          exists new,
            kidsAt [1; 4] (doc s2) = kidsAt [1; 4] (doc s) ++ new
            /\ Forall2 (fun ev n => rootAttr "data-url" n = Some (url ev))
                       sameDayEvents (filter isEventDiv new)
            /\ forall k n,
                nth_error new k = Some n -> isEventDiv n = true ->
                exists after,
                  sent (exec (click
                                (Some ([1; 4]
                                         ++ [length (kidsAt [1; 4] (doc s))
                                             + k])))
                             s2)
                  = sent s2 ++ TabsCreate (rootAttr "data-url" n) :: after)).
Proof.
  split; [repeat split; vm_compute; reflexivity|].
  apply (click_handlers sameDayEvents (mkPopup samplePage [] []) [1; 2] [1; 4]);
    vm_compute; reflexivity.
Defined.

Lemma fill_messages_witness :
  i18nIds samplePage = true
  /\ fst (fillMessages_ (mkPopup samplePage [] [])) = Returned tt
  /\ (forall p e,
         elemAt p samplePage = Some e -> hasClass "i18n" e = true ->
         exposed p samplePage = true ->
         exists id e',
           attr "id" e = Some id /\ elemAt p (filled samplePage) = Some e'
           /\ if tagName e =? "IMG"
              then attr "title" e' = Some (getMessage id)
              else kidsAt p (filled samplePage) = [Text (getMessage id)])
  /\ (forall p e,
         elemAt p (filled samplePage) = Some e ->
         attr "data-href" e = Some "calendar_ui_url" ->
         attr "href" e = Some "https://www.google.com/calendar/").
Proof.
  split; [vm_compute; reflexivity|].
  apply (fill_messages samplePage). vm_compute. reflexivity.
Defined.

Lemma events_come_only_from_background_witness :
  exists s,
    run [Answer 0 (BadgeText "?"); Click [1; 2];
         Answer 1 (FeedEvents sameDayEvents); Click [1; 4; 1]]
        (load samplePage) = Some s
    /\ Forall allowed (sent s)
    /\ forall k r s',
        react (Answer k r) s = Some s' ->
        match r with
        | FeedEvents _ =>
            exists m,
              nth_error (pending s) k = Some (SendMessage m ShowEventsFromFeed)
              /\ (m = "events.feed.get" \/ m = "events.feed.fetch")
        | DetectedEvents _ =>
            nth_error (pending s) k
            = Some (SendMessage "events.detected.get" DetectedEventsCallback)
        | BadgeText _ =>
            nth_error (pending s) k = Some (GetBadgeText BadgeTextCallback)
        end.
Proof.
  eexists. split; [vm_compute; reflexivity|].
  apply (events_come_only_from_background
           samplePage
           [Answer 0 (BadgeText "?"); Click [1; 2];
            Answer 1 (FeedEvents sameDayEvents); Click [1; 4; 1]]).
  vm_compute. reflexivity.
Defined.



(** ** Why the statements carry their conditions *)

(** Without an id on a localised element, [fillMessages_] throws and
    [initialize] stops there: nothing is bound and nothing is sent. *)
Example load_stops_without_id :
  fst (initialize (mkPopup anonymousPage [] [])) = Threw
  /\ load anonymousPage = mkPopup anonymousPage [] [].
Proof. vm_compute. split; reflexivity. Qed.

(** A localised element inside another one is gone once the outer one has
    its text. *)
Example nested_element_is_replaced :
  elemAt [0; 0] nestedPage
  = Some (mkElem "SPAN" [("id", "inner")] ["i18n"] [] true [])
  /\ exposed [0; 0] nestedPage = false
  /\ elemAt [0; 0] (filled nestedPage) = None
  /\ kidsAt [0] (filled nestedPage) = [Text "[outer]"].
Proof. vm_compute. repeat split; reflexivity. Qed.

(** An event without a start stops the loop with a [TypeError]; the events
    before it stay rendered. *)
Example startless_event_throws :
  let s := load samplePage in
  let r := showEventsFromFeed_ (sameDayEvents ++ [startlessEvent]) s in
  fst r = Threw
  /\ doc (snd r) = doc (exec (showEventsFromFeed_ sameDayEvents) s).
Proof. vm_compute. split; reflexivity. Qed.

(** ** Further properties on concrete inputs *)

Lemma feed_stops_at_unparsed_start_witness :
  (forallb parses sameDayEvents = true
   /\ fromIso8601 (start startlessEvent) = None)
  /\ showEventsFromFeed_ (sameDayEvents ++ startlessEvent :: sameDayEvents)
                         (load samplePage)
     = (Threw, exec (showEventsFromFeed_ sameDayEvents) (load samplePage))
  /\ fst (showEventsFromFeed_ sameDayEvents (load samplePage)) = Returned tt.
Proof.
  split; [split; vm_compute; reflexivity|].
  apply (feed_stops_at_unparsed_start sameDayEvents sameDayEvents
           startlessEvent (load samplePage));
    vm_compute; reflexivity.
Defined.

Lemma feed_without_agenda_witness :
  byId "agenda" (doc (mkPopup barePage [] [])) = None
  /\ exec (showEventsFromFeed_ sameDayEvents) (mkPopup barePage [] [])
     = mkPopup barePage [] [].
Proof.
  split; [vm_compute; reflexivity|].
  apply (feed_without_agenda sameDayEvents (mkPopup barePage [] [])).
  vm_compute. reflexivity.
Defined.

Lemma feeds_accumulate_witness :
  byId "agenda" (doc (load samplePage)) = Some [1; 4]
  /\ exists new1 new2,
      kidsAt [1; 4]
             (doc (exec (showEventsFromFeed_ sameDayEvents) (load samplePage)))
      = kidsAt [1; 4] (doc (load samplePage)) ++ new1
      /\ kidsAt [1; 4]
                (doc (exec (showEventsFromFeed_ [startlessEvent])
                           (load samplePage)))
         = kidsAt [1; 4] (doc (load samplePage)) ++ new2
      /\ kidsAt [1; 4]
                (doc (exec (showEventsFromFeed_ [startlessEvent])
                           (exec (showEventsFromFeed_ sameDayEvents)
                                 (load samplePage))))
         = kidsAt [1; 4] (doc (load samplePage)) ++ new1 ++ new2.
Proof.
  split; [vm_compute; reflexivity|].
  apply (feeds_accumulate sameDayEvents [startlessEvent] (load samplePage)
           [1; 4]).
  vm_compute. reflexivity.
Defined.

Lemma feed_locations_witness :
  (byId "agenda" (doc (load samplePage)) = Some [1; 4]
   /\ forallb parses sameDayEvents = true)
  /\ exists new,
      kidsAt [1; 4]
             (doc (exec (showEventsFromFeed_ sameDayEvents) (load samplePage)))
      = kidsAt [1; 4] (doc (load samplePage)) ++ new
      /\ Forall2 (fun ev n =>
                    contents "location" n
                    = match location ev with
                      | Some l => if l =? "" then [] else [[Text l]]
                      | None => []
                      end)
                 sameDayEvents (filter isEventDiv new).
Proof.
  split; [split; vm_compute; reflexivity|].
  apply (feed_locations sameDayEvents (load samplePage) [1; 4]);
    vm_compute; reflexivity.
Defined.

Lemma feed_event_div_shape_witness :
  (byId "agenda" (doc (load samplePage)) = Some [1; 4]
   /\ forallb parses sameDayEvents = true)
  /\ exists new,
      kidsAt [1; 4]
             (doc (exec (showEventsFromFeed_ sameDayEvents) (load samplePage)))
      = kidsAt [1; 4] (doc (load samplePage)) ++ new
      /\ Forall2 (fun ev n =>
                    exists fc dt h1 heading more,
                      kidsOf n
                      = [Elem fc []; Elem dt (Elem h1 heading :: more)]
                      /\ hasClass "feed-color" fc = true
                      /\ attr "title" fc = Some (feedTitle (feed ev))
                      /\ hasClass "event-details" dt = true
                      /\ tagName h1 = "H1"
                      /\ (title ev <> "" -> heading = [Text (title ev)]))
                 sameDayEvents (filter isEventDiv new).
Proof.
  split; [split; vm_compute; reflexivity|].
  apply (feed_event_div_shape sameDayEvents (load samplePage) [1; 4]);
    vm_compute; reflexivity.
Defined.

Lemma initialize_aborts_without_id_witness :
  (i18nIds anonymousPage = false /\ bound anonymousPage = [])
  /\ fst (initialize (mkPopup anonymousPage [] [])) = Threw
  /\ sent (load anonymousPage) = []
  /\ pending (load anonymousPage) = []
  /\ bound (doc (load anonymousPage)) = [].
Proof.
  split; [split; vm_compute; reflexivity|].
  apply (initialize_aborts_without_id anonymousPage); vm_compute; reflexivity.
Defined.

Lemma handlers_after_load_witness :
  (i18nIds samplePage = true /\ bound samplePage = [])
  /\ handlersAt [1; 2] (doc (load samplePage))
     = installed (doc (load samplePage)) [1; 2].
Proof.
  split; [split; vm_compute; reflexivity|].
  apply (handlers_after_load samplePage [1; 2]); vm_compute; reflexivity.
Defined.

Lemma sync_click_sends_one_fetch_witness :
  (i18nIds samplePage = true /\ bound samplePage = []
   /\ byId "sync_now" (doc (load samplePage)) = Some [1; 2])
  /\ sent (exec (click (Some [1; 2])) (load samplePage))
     = initialRequests ++ [SendMessage "events.feed.fetch" ShowEventsFromFeed]
  /\ pending (exec (click (Some [1; 2])) (load samplePage))
     = initialRequests
         ++ [SendMessage "events.feed.fetch" ShowEventsFromFeed].
Proof.
  split; [repeat split; vm_compute; reflexivity|].
  apply (sync_click_sends_one_fetch samplePage [1; 2]);
    vm_compute; reflexivity.
Defined.

Lemma detected_without_pane_witness :
  (sampleDetected <> []
   /\ byId "events" (doc (mkPopup anonymousPage [] [])) = None
   /\ byId "events_list" (doc (mkPopup anonymousPage [] [])) = None)
  /\ detectedEventsCallback (Some sampleDetected) (mkPopup anonymousPage [] [])
     = click (byId "add-events" (doc (mkPopup anonymousPage [] [])))
             (mkPopup anonymousPage [] []).
Proof.
  split; [split; [discriminate | split; vm_compute; reflexivity]|].
  apply (detected_without_pane sampleDetected
           (mkPopup anonymousPage [] []));
    try discriminate; vm_compute; reflexivity.
Defined.
